(** * Intent understanding and tool dispatch of the todo assistant

    A shallow embedding of [src/parse_tool.js], [src/nlu.js], [src/tools.js],
    the tool registry and the dispatcher of the todo assistant, together
    with the properties its specification states about them.

    JavaScript strings are sequences of UTF-16 code units; they are modelled
    as lists of code units ([list N]).  Regular expressions are modelled by
    a backtracking matcher that follows the ECMAScript matching rules
    (priority of alternatives, greedy and lazy quantifiers, rejection of
    empty iterations, captures, the [i] and [g] flags). *)

From Stdlib Require Import Ascii String DecimalString DecimalN.
From Stdlib Require Import NArith ZArith QArith Qminmax Bool Lia Lqa.
From Stdlib Require Import Permutation List SpecFloat.
Close Scope Q_scope.
Import ListNotations.

Set Warnings "-register-all".

(** ** JavaScript strings *)

Module JS.

Definition jsstring := list N.

(** The code units of an ASCII literal. *)
Fixpoint u (s : string) : jsstring :=
  match s with
  | EmptyString => []
  | String c tl => N_of_ascii c :: u tl
  end.
Arguments u s%_string.

Definition DQ : N := 34.   (* the double quote *)
Definition SQ : N := 39.   (* the single quote *)

Definition between (lo hi c : N) : bool := (lo <=? c)%N && (c <=? hi)%N.

Definition is_digit (c : N) : bool := between 48 57 c.
Definition is_upper (c : N) : bool := between 65 90 c.
Definition is_lower (c : N) : bool := between 97 122 c.

(** [\w]: ASCII letters, digits and the underscore. *)
Definition is_word (c : N) : bool :=
  is_digit c || is_upper c || is_lower c || (c =? 95)%N.

(** LineTerminator code units. *)
Definition is_line_terminator (c : N) : bool :=
  (c =? 10)%N || (c =? 13)%N || (c =? 8232)%N || (c =? 8233)%N.

(** [\s] and the characters removed by [trim]: WhiteSpace and
    LineTerminator. *)
Definition is_space (c : N) : bool :=
  between 9 13 c || (c =? 32)%N || (c =? 160)%N || (c =? 5760)%N
  || between 8192 8202 c || (c =? 8232)%N || (c =? 8233)%N
  || (c =? 8239)%N || (c =? 8287)%N || (c =? 12288)%N || (c =? 65279)%N.

Fixpoint dropWhile (p : N -> bool) (s : jsstring) : jsstring :=
  match s with
  | [] => []
  | c :: tl => if p c then dropWhile p tl else s
  end.

(** The longest prefix of [s] whose code units satisfy [p], and the rest. *)
Fixpoint span (p : N -> bool) (s : jsstring) : jsstring * jsstring :=
  match s with
  | [] => ([], [])
  | c :: tl =>
      if p c then let (a, b) := span p tl in (c :: a, b) else ([], s)
  end.

Definition trimStart (s : jsstring) : jsstring := dropWhile is_space s.
Definition trimEnd (s : jsstring) : jsstring := rev (dropWhile is_space (rev s)).
Definition trim (s : jsstring) : jsstring := trimEnd (trimStart s).

Fixpoint str_eqb (a b : jsstring) : bool :=
  match a, b with
  | [], [] => true
  | x :: a', y :: b' => (x =? y)%N && str_eqb a' b'
  | _, _ => false
  end.

Fixpoint startsWith (s p : jsstring) : bool :=
  match p, s with
  | [], _ => true
  | x :: p', y :: s' => (x =? y)%N && startsWith s' p'
  | _ :: _, [] => false
  end.

Definition endsWith (s p : jsstring) : bool := startsWith (rev s) (rev p).

Fixpoint includes (s sub : jsstring) : bool :=
  startsWith s sub ||
  match s with
  | [] => false
  | _ :: tl => includes tl sub
  end.

(** [s.slice(1, -1)] *)
Definition slice_1_m1 (s : jsstring) : jsstring :=
  match s with
  | [] => []
  | _ :: tl => removelast tl
  end.

(** [s.split(sep)] for a one-character separator. *)
Fixpoint split (sep : N) (s : jsstring) : list jsstring :=
  match s with
  | [] => [[]]
  | c :: tl =>
      if (c =? sep)%N then [] :: split sep tl
      else match split sep tl with
           | [] => [[c]]
           | p :: ps => (c :: p) :: ps
           end
  end.

(** [parts.join(sep)] *)
Fixpoint join (sep : jsstring) (parts : list jsstring) : jsstring :=
  match parts with
  | [] => []
  | [p] => p
  | p :: ps => p ++ sep ++ join sep ps
  end.

(** [toLowerCase]: exact on ASCII text.  Code units outside ASCII are left
    as they are (JavaScript applies the Unicode case mapping to them); the
    development lower-cases ASCII text only. *)
Definition lower_char (c : N) : N := if is_upper c then (c + 32)%N else c.
Definition toLowerCase (s : jsstring) : jsstring := map lower_char s.

(** [String(n)] for a non-negative integer below 10^21: its decimal
    digits. *)
Definition Number_toString (n : N) : jsstring :=
  u (NilZero.string_of_uint (N.to_uint n)).

(** Value of a run of decimal digits. *)
Definition digits_value (ds : jsstring) : N :=
  fold_left (fun acc c => (10 * acc + (c - 48))%N) ds 0%N.

End JS.

(** ** Regular expressions

    The fragment of ECMAScript regular expressions the sources use.  A
    pattern is matched by backtracking with an explicit continuation, as in
    the language definition: an alternative is tried left to right, a greedy
    quantifier tries one more iteration before it tries the continuation, a
    lazy one the other way round, and an iteration that consumes nothing is
    rejected. *)

Module Regex.
Import JS.

Inductive citem : Type :=
| CChar (c : N)
| CDigit
| CWord
| CSpace.

Inductive regex : Type :=
| Eps
| Any                                   (* [.] *)
| CSet (neg : bool) (items : list citem) (* [[...]], [[^...]], a literal, [\d] ... *)
| Seq (a b : regex)
| Alt (a b : regex)
| Star (greedy : bool) (a : regex)
| Group (n : nat) (a : regex)           (* the n-th capturing group *)
| Bol                                   (* [^] *)
| Eol                                   (* [$] *)
| WordB.                                (* [\b] *)

Record mstate : Type := MState {
  pos : nat;                            (* index of the next code unit *)
  prev : option N;                      (* the code unit before it *)
  rest : jsstring;                      (* the text from [pos] on *)
  caps : list (nat * (nat * nat))       (* group, start index, end index *)
}.

Definition cont := mstate -> option mstate.

(** Canonicalize of the [i] flag.  The patterns of the sources contain ASCII
    characters and two caseless symbols only; for those, comparing after
    upper-casing ASCII letters is the comparison ECMAScript makes (a code
    unit above 127 never canonicalizes to one below 128). *)
Definition canon (ci : bool) (c : N) : N :=
  if ci && is_lower c then (c - 32)%N else c.

Definition item_matches (ci : bool) (c : N) (it : citem) : bool :=
  match it with
  | CChar x => (canon ci x =? canon ci c)%N
  | CDigit => is_digit c
  | CWord => is_word c
  | CSpace => is_space c
  end.

Definition in_class (ci : bool) (items : list citem) (c : N) : bool :=
  existsb (item_matches ci c) items.

Definition advance (c : N) (tl : jsstring) (st : mstate) : mstate :=
  MState (S (pos st)) (Some c) tl (caps st).

Definition set_cap (n a b : nat) (st : mstate) : mstate :=
  MState (pos st) (prev st) (rest st) ((n, (a, b)) :: caps st).

Definition is_word_opt (o : option N) : bool :=
  match o with
  | Some c => is_word c
  | None => false
  end.

Definition orelse {A} (x : option A) (y : unit -> option A) : option A :=
  match x with
  | Some r => Some r
  | None => y tt
  end.

(** The iterations of a quantifier [a*] / [a*?].  Each accepted iteration
    consumes at least one code unit, so [S (length (rest st))] rounds are
    never exhausted. *)
Fixpoint star_loop (body : cont -> mstate -> option mstate) (greedy : bool)
    (k : cont) (fuel : nat) (st : mstate) : option mstate :=
  match fuel with
  | O => k st
  | S f =>
      let again := fun _ : unit =>
        body (fun st' => if (pos st <? pos st')%nat
                         then star_loop body greedy k f st' else None) st in
      if greedy then orelse (again tt) (fun _ => k st)
      else orelse (k st) again
  end.

Fixpoint rmatch (ci : bool) (r : regex) (k : cont) (st : mstate) {struct r}
    : option mstate :=
  match r with
  | Eps => k st
  | Any =>
      match rest st with
      | [] => None
      | c :: tl => if is_line_terminator c then None else k (advance c tl st)
      end
  | CSet neg items =>
      match rest st with
      | [] => None
      | c :: tl =>
          if xorb neg (in_class ci items c) then k (advance c tl st) else None
      end
  | Seq a b => rmatch ci a (rmatch ci b k) st
  | Alt a b => orelse (rmatch ci a k st) (fun _ => rmatch ci b k st)
  | Star g a => star_loop (rmatch ci a) g k (S (length (rest st))) st
  | Group n a => rmatch ci a (fun st' => k (set_cap n (pos st) (pos st') st')) st
  | Bol => if (pos st =? 0)%nat then k st else None
  | Eol => match rest st with [] => k st | _ :: _ => None end
  | WordB =>
      if xorb (is_word_opt (prev st)) (is_word_opt (hd_error (rest st)))
      then k st else None
  end.

(** A compiled pattern: the expression and its [i] flag. *)
Record pattern : Type := Pattern { p_re : regex; p_ci : bool }.

(** A successful match: where it starts and the matcher state at its end. *)
Record rmatch_result : Type := Match {
  m_index : nat;
  m_final : mstate
}.

Definition m_end (m : rmatch_result) : nat := pos (m_final m).
Definition m_length (m : rmatch_result) : nat := m_end m - m_index m.

Definition match_at (p : pattern) (i : nat) (pv : option N) (s : jsstring)
    : option mstate :=
  rmatch (p_ci p) (p_re p) (fun st => Some st) (MState i pv s []).

(** The leftmost match that starts at index [i] or later; [s] is the text
    from [i] on and [pv] the code unit before it. *)
Fixpoint search_from (p : pattern) (i : nat) (pv : option N) (s : jsstring)
    : option rmatch_result :=
  match match_at p i pv s with
  | Some fin => Some (Match i fin)
  | None =>
      match s with
      | [] => None
      | c :: tl => search_from p (S i) (Some c) tl
      end
  end.

(** [re.exec(text)] / [text.match(re)] without the [g] flag. *)
Definition exec (p : pattern) (text : jsstring) : option rmatch_result :=
  search_from p 0 None text.

(** [re.test(text)] *)
Definition test (p : pattern) (text : jsstring) : bool :=
  match exec p text with Some _ => true | None => false end.

(** All matches of a [g] pattern, left to right, each search resuming where
    the previous match ended (one code unit further after an empty match). *)
Fixpoint exec_all_from (fuel : nat) (p : pattern) (i : nat) (pv : option N)
    (s : jsstring) : list rmatch_result :=
  match fuel with
  | O => []
  | S f =>
      match search_from p i pv s with
      | None => []
      | Some m =>
          let fin := m_final m in
          m :: (if (pos fin =? m_index m)%nat
                then match rest fin with
                     | [] => []
                     | c :: tl => exec_all_from f p (S (pos fin)) (Some c) tl
                     end
                else exec_all_from f p (pos fin) (prev fin) (rest fin))
      end
  end.

Definition exec_all (p : pattern) (text : jsstring) : list rmatch_result :=
  exec_all_from (S (length text)) p 0 None text.

Definition substring (text : jsstring) (a b : nat) : jsstring :=
  firstn (b - a) (skipn a text).

(** [match[0]] *)
Definition m_text (text : jsstring) (m : rmatch_result) : jsstring :=
  substring text (m_index m) (m_end m).

Fixpoint lookup_cap (n : nat) (cs : list (nat * (nat * nat)))
    : option (nat * nat) :=
  match cs with
  | [] => None
  | (g, ab) :: tl => if (g =? n)%nat then Some ab else lookup_cap n tl
  end.

(** [match[n]]; [None] is [undefined], a group that took no part. *)
Definition capture (text : jsstring) (m : rmatch_result) (n : nat)
    : option jsstring :=
  match lookup_cap n (caps (m_final m)) with
  | Some (a, b) => Some (substring text a b)
  | None => None
  end.

(** [text.match(re)] with the [g] flag: the matched substrings. *)
Definition match_g (p : pattern) (text : jsstring) : list jsstring :=
  map (m_text text) (exec_all p text).

(** [text.replace(re, repl)] for a replacement without [$] patterns. *)
Fixpoint replace_matches (text : jsstring) (from : nat)
    (ms : list rmatch_result) (repl : jsstring) : jsstring :=
  match ms with
  | [] => skipn from text
  | m :: tl =>
      substring text from (m_index m) ++ repl ++
      replace_matches text (m_end m) tl repl
  end.

Definition replace (p : pattern) (global : bool) (text repl : jsstring)
    : jsstring :=
  if global then replace_matches text 0 (exec_all p text) repl
  else match exec p text with
       | None => text
       | Some m => replace_matches text 0 [m] repl
       end.

(** The code unit before the position reached by reading [w] from a
    position preceded by [pv]. *)
Definition prev_after (pv : option N) (w : jsstring) : option N :=
  fold_left (fun _ c => Some c) w pv.

(** [st'] lies at or after [st] in the same text. *)
Definition later (st st' : mstate) : Prop :=
  (pos st <= pos st')%nat
  /\ (pos st' + List.length (rest st') = pos st + List.length (rest st))%nat.

(** *** Notation for patterns *)

Definition chr (c : N) : regex := CSet false [CChar c].

Fixpoint lit_units (s : jsstring) : regex :=
  match s with
  | [] => Eps
  | [c] => chr c
  | c :: tl => Seq (chr c) (lit_units tl)
  end.

Definition lit (s : string) : regex := lit_units (u s).
Arguments lit s%_string.

Fixpoint cat (rs : list regex) : regex :=
  match rs with
  | [] => Eps
  | [r] => r
  | r :: tl => Seq r (cat tl)
  end.

Fixpoint alt (rs : list regex) : regex :=
  match rs with
  | [] => Eps
  | [r] => r
  | r :: tl => Alt r (alt tl)
  end.

(** Alternation of literals: [(?:show|list|...)] *)
Definition words (ws : list string) : regex := alt (map lit ws).

Definition opt (r : regex) : regex := Alt r Eps.          (* [r?] *)
Definition star (r : regex) : regex := Star true r.        (* [r*] *)
Definition plus (r : regex) : regex := Seq r (Star true r). (* [r+] *)
Definition lazy_star (r : regex) : regex := Star false r.  (* [r*?] *)

Definition ws : regex := CSet false [CSpace].              (* [\s] *)
Definition digit : regex := CSet false [CDigit].           (* [\d] *)
Definition wordc : regex := CSet false [CWord].            (* [\w] *)
Definition one_of (cs : list N) : regex := CSet false (map CChar cs).
Definition none_of (cs : list N) : regex := CSet true (map CChar cs).

(** Whether every match of [r] reads at least one code unit: a class or
    [.] does, a sequence when one of its parts does, an alternation when
    both alternatives do. *)
Fixpoint consumes (r : regex) : bool :=
  match r with
  | Any | CSet _ _ => true
  | Seq a b => consumes a || consumes b
  | Alt a b => consumes a && consumes b
  | Group _ a => consumes a
  | Eps | Star _ _ | Bol | Eol | WordB => false
  end.

(** [st'] is reached from [st] by reading the code units [w]. *)
Definition reads (st : mstate) (w : jsstring) (st' : mstate) : Prop :=
  rest st = w ++ rest st' /\ pos st' = (pos st + List.length w)%nat.

End Regex.

(** ** The intent classifier: [src/nlu.js] *)

Module NLU.
Import JS Regex.

Inductive intentKind : Type :=
| View | Create | Delete | Complete | Incomplete | Update | Search | Stats | Clear.

(** The entry of one intent in [intentPatterns]. *)
Record intentData : Type := IntentData {
  patterns : list pattern;
  priority_filters : option (list (jsstring * pattern));
  category_filters : option pattern;
  priority_indicators : option (list (jsstring * pattern));
  category_indicators : option pattern
}.

Definition re_i (r : regex) : pattern := Pattern r true.
Definition re (r : regex) : pattern := Pattern r false.

(** [todos?], [tasks?], [items?] *)
Definition plural (s : string) : regex := Seq (lit s) (opt (lit "s")).
Arguments plural s%_string.

(** [(?:word\s+)?] *)
Definition opt_word (s : string) : regex := opt (Seq (lit s) (plus ws)).
Arguments opt_word s%_string.

Definition hash : regex := chr 35.
Definition number_group (n : nat) : regex := Group n (plus digit). (* [(\d+)] *)
Definition free_text (n : nat) : regex := Group n (plus Any).      (* [(.+)] *)
(** An optional quote: the class lists the single quote once and the
    double quote twice. *)
Definition quote_opt : regex := opt (one_of [SQ; DQ; DQ]).
Definition unquoted (n : nat) : regex := Group n (plus (none_of [SQ; DQ])).
Definition about_words : regex :=
  alt [lit "about"; lit "for"; lit "with"; lit "containing";
       cat [lit "related"; plus ws; lit "to"]].
Definition todo_kind : regex := words ["todo"; "task"; "item"]%string.
Definition todo_kind_n : regex := words ["todo"; "task"; "item"; "number"]%string.
Definition todo_kinds : regex := alt [plural "todo"; plural "task"; plural "item"].

Definition view_patterns : list pattern :=
  [ re_i (cat [alt [lit "show"; lit "list"; lit "display"; lit "get"; lit "see";
                    lit "view"; lit "check";
                    cat [lit "what";
                         alt [lit "'s"; cat [plus ws; lit "ar"; opt (lit "e")]];
                         plus ws; opt (words ["my"; "the"]%string)]];
               plus ws; opt_word "me"; opt_word "my"; opt_word "all";
               opt_word "the";
               alt [plural "todo"; plural "task"; plural "item"; lit "list";
                    lit "things"]]);
    re_i (cat [lit "what";
               alt [lit "'s"; cat [plus ws; lit "ar"; opt (lit "e")]];
               plus ws; opt_word "on"; opt_word "my"; opt_word "todo";
               lit "list"]);
    re_i (cat [lit "what"; plus ws; opt_word "do"; opt_word "i";
               opt_word "have"; opt_word "to"; lit "do"]);
    re_i (cat [lit "my"; plus ws;
               alt [plural "todo"; plural "task"; lit "list"]]);
    re_i (cat [lit "give"; plus ws; lit "me"; plus ws; opt_word "my";
               alt [plural "todo"; plural "task"; lit "list"]]) ].

Definition view_priority_filters : list (jsstring * pattern) :=
  [ (u "high", re_i (words ["high"; "urgent"; "important"; "critical"; "asap";
                            "priority"; "top"]%string));
    (u "medium", re_i (words ["medium"; "normal"; "regular"; "standard"]%string));
    (u "low", re_i (words ["low"; "minor"; "small"; "least"]%string)) ].

Definition view_category_filters : pattern :=
  re_i (cat [alt [lit "category"; lit "type"; lit "group"; lit "about";
                  lit "for"; cat [lit "related"; plus ws; lit "to"];
                  lit "tagged"];
             plus ws; Group 1 (plus wordc)]).

Definition create_patterns : list pattern :=
  [ re_i (cat [words ["add"; "create"; "make"; "new"; "insert"; "put"]%string;
               plus ws; opt_word "a"; opt_word "new";
               words ["todo"; "task"; "item"; "reminder"]%string]);
    re_i (cat [lit "i"; plus ws;
               alt [cat [lit "need"; plus ws; lit "to"];
                    cat [lit "have"; plus ws; lit "to"];
                    cat [lit "want"; plus ws; lit "to"];
                    lit "should"; lit "must"];
               plus ws; free_text 1]);
    re_i (cat [lit "remind"; plus ws; lit "me"; plus ws; lit "to"; plus ws;
               free_text 1]);
    re_i (cat [words ["todo"; "task"]%string; lit ":"; star ws; free_text 1]);
    re_i (cat [lit "add"; plus ws; lit "to"; plus ws; opt_word "my";
               lit "list"; star ws; opt (one_of [58; 45]%N); star ws;
               free_text 1]) ].

Definition create_priority_indicators : list (jsstring * pattern) :=
  [ (u "high", re_i (words ["high"; "urgent"; "important"; "critical"; "asap";
                            "priority"; "immediately"; "soon";
                            "quickly"]%string));
    (u "medium", re_i (words ["medium"; "normal"; "regular"; "standard"]%string));
    (u "low", re_i (words ["low"; "minor"; "small"; "least"; "whenever";
                           "eventually"; "someday"]%string)) ].

Definition create_category_indicators : pattern :=
  re_i (cat [alt [lit "category"; lit "type"; lit "group"; lit "tag";
                  lit "about"; lit "for";
                  cat [lit "related"; plus ws; lit "to"]; lit "under";
                  lit "in"];
             plus ws; Group 1 (plus wordc)]).

Definition delete_patterns : list pattern :=
  [ re_i (cat [alt [lit "delete"; lit "remove"; lit "del"; lit "erase";
                    cat [lit "get"; plus ws; lit "rid"; plus ws; lit "of"];
                    lit "eliminate"];
               plus ws; opt todo_kind; star ws; opt hash; number_group 1]);
    re_i (cat [words ["delete"; "remove"; "del"; "erase"]%string; plus ws;
               todo_kinds; star ws; opt hash;
               Group 1
                 (cat [plus digit;
                       star (cat [star ws;
                                  plus (CSet false
                                          [CChar 44; CChar 38; CChar 97;
                                           CChar 110; CChar 100; CSpace]);
                                  star ws; plus digit])])]);
    re_i (cat [alt [lit "cancel"; cat [lit "forget"; plus ws; lit "about"];
                    lit "nevermind"];
               plus ws; opt todo_kind; star ws; opt hash; number_group 1]) ].

Definition complete_patterns : list pattern :=
  [ re_i (cat [alt [lit "complete"; lit "done"; lit "finish"; lit "finished";
                    cat [lit "mark"; plus ws; opt_word "as";
                         words ["complete"; "done"; "finished"]%string]];
               plus ws; opt todo_kind_n; star ws; opt hash; number_group 1]);
    re_i (cat [alt [cat [lit "i"; plus ws;
                         words ["completed"; "finished"; "did"]%string];
                    cat [lit "check"; plus ws; lit "off"]];
               plus ws; opt todo_kind_n; star ws; opt hash; number_group 1]);
    re_i (cat [todo_kind_n; star ws; opt hash; number_group 1; plus ws;
               opt_word "is"; words ["complete"; "done"; "finished"]%string]);
    re_i (cat [alt [chr 10003; chr 10004; lit "check"];
               plus ws; opt todo_kind_n; star ws; opt hash; number_group 1]) ].

Definition incomplete_patterns : list pattern :=
  [ re_i (cat [alt [lit "incomplete"; lit "undone"; lit "unfinish";
                    lit "reopen";
                    cat [lit "mark"; plus ws; opt_word "as";
                         words ["incomplete"; "undone"; "pending"]%string]];
               plus ws; opt todo_kind_n; star ws; opt hash; number_group 1]);
    re_i (cat [words ["uncheck"; "uncomplete"]%string;
               plus ws; opt todo_kind_n; star ws; opt hash; number_group 1]) ].

Definition update_patterns : list pattern :=
  [ re_i (cat [words ["update"; "edit"; "change"; "modify"; "alter"]%string;
               plus ws; opt todo_kind_n; star ws; opt hash; number_group 1]);
    re_i (cat [lit "change"; plus ws; opt todo_kind_n; star ws; opt hash;
               number_group 1; plus ws; lit "to"; plus ws; free_text 2]) ].

Definition search_patterns : list pattern :=
  [ re_i (cat [alt [lit "search"; lit "find";
                    cat [lit "look"; plus ws; lit "for"]; lit "locate"];
               plus ws; opt todo_kinds; star ws; opt about_words; star ws;
               quote_opt; unquoted 1; quote_opt]);
    re_i (cat [lit "find"; plus ws; opt_word "me"; opt_word "all"; todo_kinds;
               plus ws; about_words; star ws; quote_opt; unquoted 1;
               quote_opt]);
    re_i (cat [lit "what"; plus ws; todo_kinds; plus ws;
               opt (cat [lit "do"; plus ws; lit "i"; plus ws; lit "have";
                         plus ws]);
               about_words; star ws; quote_opt; unquoted 1; quote_opt]) ].

Definition stats_patterns : list pattern :=
  [ re_i (alt [lit "stats"; lit "statistics"; lit "summary"; lit "overview";
               lit "report";
               cat [lit "how"; plus ws; words ["many"; "much"]%string];
               lit "count"]);
    re_i (cat [lit "what"; alt [lit "'s"; cat [plus ws; lit "is"]]; plus ws;
               lit "my"; plus ws; words ["progress"; "status"]%string]);
    re_i (cat [lit "show"; plus ws; lit "me"; plus ws; opt_word "my";
               words ["stats"; "statistics"; "summary"; "progress"]%string]) ].

Definition clear_patterns : list pattern :=
  [ re_i (cat [words ["clear"; "clean"; "remove"; "delete"]%string; plus ws;
               opt_word "all";
               words ["completed"; "done"; "finished"]%string; star ws;
               opt todo_kinds]);
    re_i (cat [alt [cat [lit "clean"; plus ws; lit "up"];
                    cat [lit "tidy"; plus ws; lit "up"]];
               star ws; opt_word "my";
               alt [lit "list"; plural "todo"; plural "task"]]) ].

Definition plain (ps : list pattern) : intentData :=
  IntentData ps None None None None.

Definition view_data : intentData :=
  IntentData view_patterns (Some view_priority_filters)
    (Some view_category_filters) None None.

(** [this.intentPatterns], in the order [Object.entries] enumerates it. *)
Definition intentPatterns : list (intentKind * intentData) :=
  [ (View, view_data);
    (Create, IntentData create_patterns None None
               (Some create_priority_indicators)
               (Some create_category_indicators));
    (Delete, plain delete_patterns);
    (Complete, plain complete_patterns);
    (Incomplete, plain incomplete_patterns);
    (Update, plain update_patterns);
    (Search, plain search_patterns);
    (Stats, plain stats_patterns);
    (Clear, plain clear_patterns) ].

(** [this.contextKeywords] *)
Definition priority_keywords : list (jsstring * list jsstring) :=
  [ (u "high", map u ["urgent"; "important"; "critical"; "asap"; "priority";
                      "immediately"; "soon"; "quickly"; "deadline"]%string);
    (u "medium", map u ["medium"; "normal"; "regular"; "standard";
                        "default"]%string);
    (u "low", map u ["low"; "minor"; "small"; "least"; "whenever";
                     "eventually"; "someday"; "later"]%string) ].

Definition category_keywords : list (jsstring * list jsstring) :=
  [ (u "work", map u ["work"; "job"; "office"; "business"; "meeting";
                      "project"; "deadline"; "client"]%string);
    (u "personal", map u ["personal"; "self"; "me"; "myself"; "private";
                          "home"]%string);
    (u "shopping", map u ["shopping"; "buy"; "purchase"; "store"; "market";
                          "groceries"]%string);
    (u "health", map u ["health"; "doctor"; "medical"; "appointment";
                        "exercise"; "fitness"; "gym"]%string);
    (u "study", map u ["study"; "learn"; "school"; "education"; "homework";
                       "research"; "read"]%string);
    (u "home", map u ["home"; "house"; "clean"; "organize"; "fix"; "repair";
                      "maintenance"]%string) ].

Definition timeKeywords : list jsstring :=
  [ u "today"; u "tomorrow"; u "this week"; u "next week"; u "monday";
    u "tuesday"; u "wednesday"; u "thursday"; u "friday"; u "saturday";
    u "sunday" ].

(** The entities of an analysis.  [numbers] holds the exact value of each
    extracted digit run; a JavaScript number is that value when it is below
    2^53, which every todo id is. *)
Record entities : Type := Entities {
  numbers : list N;
  priorities : jsstring;
  categories : option jsstring;      (* [null] is [None] *)
  todoText : option jsstring;
  searchTerms : option jsstring
}.

Record context : Type := Context {
  isQuestion_ : bool;
  isCommand_ : bool;
  isPolite_ : bool;
  hasTimeReference_ : bool
}.

(** One entry of the list [matchPatterns] returns. *)
Record patternMatch : Type := PatternMatch {
  pm_pattern : pattern;
  pm_match : rmatch_result;
  pm_index : nat;
  pm_length : nat
}.

Record analysis : Type := Analysis {
  originalText : jsstring;
  normalizedText : jsstring;
  primaryIntent : option intentKind;
  confidence : Q;
  ents : entities;
  ctx : context;
  matches : list patternMatch
}.

(** [matchPatterns(text, patterns)] *)
Fixpoint matchPatterns (text : jsstring) (ps : list pattern)
    : list patternMatch :=
  match ps with
  | [] => []
  | p :: tl =>
      match exec p text with
      | Some m => PatternMatch p m (m_index m) (m_length m)
                  :: matchPatterns text tl
      | None => matchPatterns text tl
      end
  end.

Definition Qlen {A} (l : list A) : Q := inject_Z (Z.of_nat (List.length l)).

(** [matches.reduce((sum, m) => sum + m.length, 0)] *)
Definition sum_lengths (ms : list patternMatch) : Q :=
  fold_left (fun sum m => (sum + inject_Z (Z.of_nat (pm_length m)))%Q) ms 0%Q.

(** The number of [priority_filters] patterns that match [text]; each adds
    [0.1] in [calculateConfidence]. *)
Definition priority_filter_hits (d : intentData) (text : jsstring) : nat :=
  match priority_filters d with
  | Some fs => List.length (filter (fun f => test (snd f) text) fs)
  | None => O
  end.

(** [calculateConfidence(matches, intentData, text)] over exact rationals,
    the idealisation in which the classification is studied.  JavaScript
    rounds each operation to a double; [Binary64.calculateConfidence]
    below follows the function with that arithmetic. *)
Definition calculateConfidence (ms : list patternMatch) (d : intentData)
    (text : jsstring) : Q :=
  let confidence := (0 + Qlen ms * (3 # 10))%Q in
  let avgMatchLength := (sum_lengths ms / Qlen ms)%Q in
  let confidence :=
    (confidence + Qmin (avgMatchLength / Qlen text) (4 # 10))%Q in
  let confidence :=
    match priority_filters d with
    | Some fs =>
        fold_left (fun c f => if test (snd f) text then (c + (1 # 10))%Q else c)
                  fs confidence
    | None => confidence
    end in
  Qmin confidence 1.

(** [extractNumbers(text)]: [text.match(/\b\d+\b/g)] mapped by [Number]. *)
Definition numbers_re : pattern := re (cat [WordB; plus digit; WordB]).

Definition extractNumbers (text : jsstring) : list N :=
  map digits_value (match_g numbers_re text).

Fixpoint first_keyword (text : jsstring)
    (table : list (jsstring * list jsstring)) : option jsstring :=
  match table with
  | [] => None
  | (name, keywords) :: tl =>
      if existsb (fun k => includes text k) keywords then Some name
      else first_keyword text tl
  end.

(** [extractPriority(text)] *)
Definition extractPriority (text : jsstring) : jsstring :=
  let contextWords := toLowerCase text in
  match first_keyword contextWords priority_keywords with
  | Some p => p
  | None =>
      if test (re_i (words ["deadline"; "urgent"; "asap"; "immediately"; "now";
                            "quickly"; "soon"]%string)) text
      then u "high"
      else if test (re_i (alt [lit "eventually"; lit "someday"; lit "later";
                               lit "whenever";
                               cat [lit "not"; plus ws; lit "urgent"]])) text
      then u "low"
      else u "medium"
  end.

(** [extractCategory(text)] *)
Definition direct_category_re : pattern :=
  re_i (cat [alt [lit "category"; lit "tag"; lit "type"; lit "group";
                  lit "about"; lit "for";
                  cat [lit "related"; plus ws; lit "to"]];
             plus ws; Group 1 (plus wordc)]).

Definition hashtag_re : pattern := re (cat [hash; Group 1 (plus wordc)]).

Definition extractCategory (text : jsstring) : option jsstring :=
  let lowerText := toLowerCase text in
  match exec direct_category_re text with
  | Some m => capture text m 1
  | None =>
      match exec hashtag_re text with
      | Some m => capture text m 1
      | None => first_keyword lowerText category_keywords
      end
  end.

(** [extractTodoText(text)] *)
Definition command_prefix_re : pattern :=
  re_i (cat [Bol;
             alt [lit "add"; lit "create"; lit "make"; lit "new";
                  cat [lit "i"; plus ws;
                       alt [cat [lit "need"; plus ws; lit "to"];
                            cat [lit "have"; plus ws; lit "to"];
                            cat [lit "want"; plus ws; lit "to"];
                            lit "should"; lit "must"]];
                  cat [lit "remind"; plus ws; lit "me"; plus ws; lit "to"];
                  cat [lit "todo"; opt (lit ":")]];
             star ws]).

Definition priority_phrase_re : pattern :=
  re_i (cat [star ws; opt_word "with";
             words ["high"; "medium"; "low"; "urgent"; "important"]%string;
             plus ws; lit "priority"; star ws]).

Definition category_phrase_re : pattern :=
  re_i (cat [star ws; words ["category"; "tag"; "type"; "group"]%string;
             plus ws; plus wordc; star ws]).

Definition quotes_re : pattern :=
  re (alt [cat [Bol; star ws; one_of [SQ; DQ]];
           cat [opt (one_of [SQ; DQ]); star ws; Eol]]).

Definition extractTodoText (text : jsstring) : jsstring :=
  let todoText := text in
  let todoText := replace command_prefix_re false todoText [] in
  let todoText := replace priority_phrase_re true todoText [] in
  let todoText := replace category_phrase_re true todoText [] in
  let todoText := replace quotes_re true todoText [] in
  match trim todoText with
  | [] => trim text
  | t => t
  end.

(** [extractSearchTerms(text)] *)
Definition search_terms_re : pattern :=
  re_i (cat [alt [lit "search"; lit "find";
                  cat [lit "look"; plus ws; lit "for"]];
             lazy_star Any; opt about_words; star ws; quote_opt; unquoted 1;
             quote_opt]).

Definition extractSearchTerms (text : jsstring) : option jsstring :=
  match exec search_terms_re text with
  | Some m => option_map trim (capture text m 1)
  | None => None
  end.

Definition isQuestion (text : jsstring) : bool :=
  test (re_i (cat [Bol; star ws;
                   words ["what"; "how"; "when"; "where"; "which"; "who";
                          "why"; "can"; "could"; "would"; "will"; "is"; "are";
                          "do"; "does"; "did"]%string;
                   WordB])) text
  || includes text (u "?").

Definition isCommand (text : jsstring) : bool :=
  test (re_i (cat [Bol; star ws;
                   alt [lit "please";
                        cat [lit "can"; plus ws; lit "you"];
                        cat [lit "could"; plus ws; lit "you"];
                        cat [lit "would"; plus ws; lit "you"];
                        cat [lit "help"; plus ws; lit "me"];
                        lit "add"; lit "create"; lit "delete"; lit "remove";
                        lit "show"; lit "list"]])) text.

Definition isPolite (text : jsstring) : bool :=
  test (re_i (cat [WordB;
                   alt [lit "please";
                        cat [lit "thank"; plus ws; lit "you"];
                        lit "thanks"; lit "sorry";
                        cat [lit "excuse"; plus ws; lit "me"]];
                   WordB])) text.

Definition hasTimeReference (text : jsstring) : bool :=
  existsb (fun keyword => includes (toLowerCase text) keyword) timeKeywords.

(** [extractIntentSpecificEntities(analysis)] *)
Definition update_text_re : pattern :=
  re_i (cat [words ["change"; "update"; "edit"]%string; lazy_star Any;
             lit "to"; plus ws; free_text 1]).

Definition set_todoText (a : analysis) (t : option jsstring) : analysis :=
  let e := ents a in
  Analysis (originalText a) (normalizedText a) (primaryIntent a) (confidence a)
    (Entities (numbers e) (priorities e) (categories e) t (searchTerms e))
    (ctx a) (matches a).

Definition set_searchTerms (a : analysis) (t : option jsstring) : analysis :=
  let e := ents a in
  Analysis (originalText a) (normalizedText a) (primaryIntent a) (confidence a)
    (Entities (numbers e) (priorities e) (categories e) (todoText e) t)
    (ctx a) (matches a).

Definition extractIntentSpecificEntities (a : analysis) : analysis :=
  match primaryIntent a with
  | Some Create => set_todoText a (Some (extractTodoText (originalText a)))
  | Some Search => set_searchTerms a (extractSearchTerms (originalText a))
  | Some Update =>
      match exec update_text_re (originalText a) with
      | Some m => set_todoText a (option_map trim (capture (originalText a) m 1))
      | None => a
      end
  | _ => a
  end.

(** The loop of [analyzeIntent] over the intents: a later intent replaces
    the current one only with a strictly greater confidence. *)
Fixpoint classify (normalized : jsstring)
    (table : list (intentKind * intentData))
    (best : option intentKind * Q * list patternMatch)
    : option intentKind * Q * list patternMatch :=
  match table with
  | [] => best
  | (intentType, d) :: tl =>
      let ms := matchPatterns normalized (patterns d) in
      match ms with
      | [] => classify normalized tl best
      | _ :: _ =>
          let c := calculateConfidence ms d normalized in
          if Qle_bool c (snd (fst best)) then classify normalized tl best
          else classify normalized tl (Some intentType, c, ms)
      end
  end.

(** [analyzeIntent(text)] *)
Definition analyzeIntent (text : jsstring) : analysis :=
  let normalized := trim (toLowerCase text) in
  let es := Entities (extractNumbers text) (extractPriority text)
                     (extractCategory text) None None in
  let cx := Context (isQuestion text) (isCommand text) (isPolite text)
                    (hasTimeReference text) in
  let '(intent, c, ms) := classify normalized intentPatterns (None, 0%Q, []) in
  extractIntentSpecificEntities (Analysis text normalized intent c es cx ms).

(** A template literal prints [null] for a null value. *)
Definition show_opt (o : option jsstring) : jsstring :=
  match o with
  | Some s => s
  | None => u "null"
  end.

(** Truthiness of a string-or-null value. *)
Definition truthy (o : option jsstring) : bool :=
  match o with
  | Some (_ :: _) => true
  | _ => false
  end.

Definition quoted (s : jsstring) : jsstring := DQ :: s ++ [DQ].

(** [generateFunctionCall(analysis)]; [None] is [null]. *)
Definition generateFunctionCall (a : analysis) : option jsstring :=
  let e := ents a in
  if negb (Qle_bool (3 # 10) (confidence a)) then None else
  match primaryIntent a with
  | Some View =>
      if negb (str_eqb (priorities e) (u "medium"))
      then Some (u "getTodosByPriority(" ++ quoted (priorities e) ++ u ")")
      else if truthy (categories e)
      then Some (u "getTodosByCategory(" ++ quoted (show_opt (categories e))
                 ++ u ")")
      else Some (u "getAllTodos()")
  | Some Create =>
      let params := [quoted (show_opt (todoText e))] in
      let params :=
        if negb (str_eqb (priorities e) (u "medium"))
        then params ++ [quoted (priorities e)] else params in
      let params :=
        if truthy (categories e)
        then params ++ [quoted (show_opt (categories e))] else params in
      Some (u "createTodo(" ++ join (u ", ") params ++ u ")")
  | Some Delete =>
      match numbers e with
      | [] => None
      | [n] => Some (u "deleteTodoById(" ++ Number_toString n ++ u ")")
      | ns => Some (u "deleteTodosByIds(["
                    ++ join (u ", ") (map Number_toString ns) ++ u "])")
      end
  | Some Complete =>
      match numbers e with
      | n :: _ => Some (u "markTodoCompleted(" ++ Number_toString n ++ u ")")
      | [] => None
      end
  | Some Incomplete =>
      match numbers e with
      | n :: _ => Some (u "markTodoIncomplete(" ++ Number_toString n ++ u ")")
      | [] => None
      end
  | Some Update =>
      match numbers e with
      | n :: _ =>
          let params := [Number_toString n] in
          let params :=
            if truthy (todoText e)
            then params ++ [quoted (show_opt (todoText e))] else params in
          let params :=
            if negb (str_eqb (priorities e) (u "medium"))
            then params ++ [u "null, " ++ quoted (priorities e)] else params in
          let params :=
            if truthy (categories e)
            then params ++ [u "null, null, " ++ quoted (show_opt (categories e))]
            else params in
          Some (u "updateTodo(" ++ join (u ", ") params ++ u ")")
      | [] => None
      end
  | Some Search =>
      if truthy (searchTerms e)
      then Some (u "searchTodos(" ++ quoted (show_opt (searchTerms e)) ++ u ")")
      else None
  | Some Stats => Some (u "getTodoStats()")
  | Some Clear => Some (u "clearCompleted()")
  | None => None
  end.

End NLU.

(** ** [calculateConfidence] in double precision *)

Module Binary64.
Import JS Regex NLU.

(** A JavaScript number: an IEEE 754 binary64 value, with the operations
    of the standard (round to nearest, ties to even). *)
Definition double : Type := spec_float.

Definition add : double -> double -> double := SFadd 53 1024.
Definition mul : double -> double -> double := SFmul 53 1024.
Definition div : double -> double -> double := SFdiv 53 1024.

Definition zero : double := S754_zero false.

(** The number of a count or a length. *)
Definition of_nat (n : nat) : double :=
  binary_normalize 53 1024 (Z.of_nat n) 0 false.

(** The literals [0.3], [0.4], [0.1] and [1.0]: the double nearest to the
    decimal, which is the correctly rounded quotient of the two integers. *)
Definition three_tenths : double := div (of_nat 3) (of_nat 10).
Definition four_tenths : double := div (of_nat 4) (of_nat 10).
Definition tenth : double := div (of_nat 1) (of_nat 10).
Definition one : double := of_nat 1.

(** [Math.min(x, y)]: [NaN] when an argument is [NaN]; [-0] is smaller
    than [+0]. *)
Definition Math_min (x y : double) : double :=
  match SFcompare x y with
  | None => S754_nan
  | Some Lt => x
  | Some Gt => y
  | Some Eq => match x with S754_zero true => x | _ => y end
  end.

(** [matches.reduce((sum, m) => sum + m.length, 0)] *)
Definition sum_lengths (ms : list patternMatch) : double :=
  fold_left (fun sum m => add sum (of_nat (pm_length m))) ms zero.

(** [calculateConfidence(matches, intentData, text)] *)
Definition calculateConfidence (ms : list patternMatch) (d : intentData)
    (text : jsstring) : double :=
  let confidence := zero in
  let confidence :=
    add confidence (mul (of_nat (List.length ms)) three_tenths) in
  let avgMatchLength := div (sum_lengths ms) (of_nat (List.length ms)) in
  let confidence :=
    add confidence
        (Math_min (div avgMatchLength (of_nat (List.length text)))
                  four_tenths) in
  let confidence :=
    match priority_filters d with
    | Some fs =>
        fold_left (fun c f => if test (snd f) text then add c tenth else c)
                  fs confidence
    | None => confidence
    end in
  Math_min confidence one.

End Binary64.

(** ** The call notation parser: [src/parse_tool.js] and the registry *)

Module Parser.
Import JS Regex.

(** JavaScript values that reach a parameter list.  [VNum] carries the
    mathematical value of a numeric literal, in lowest terms; the number
    JavaScript stores is the double nearest to it, and the sign of a zero
    is not kept. *)
Inductive value : Type :=
| VNull
| VUndefined
| VBool (b : bool)
| VNum (q : Q)
| VInfinity (negative : bool)
| VStr (s : jsstring)
| VArr (items : list value)
| VObj (fields : list (jsstring * value)).

(** *** [Number(string)] and [isNaN(string)] *)

Definition is_hex (c : N) : bool :=
  is_digit c || between 65 70 c || between 97 102 c.

Definition hex_value (c : N) : N :=
  if is_digit c then (c - 48)%N
  else if between 65 70 c then (c - 55)%N else (c - 87)%N.

Definition radix_value (radix : N) (ds : jsstring) : N :=
  fold_left (fun acc c => (radix * acc + hex_value c)%N) ds 0%N.

(** A numeric value: a finite literal value or an infinity. *)
Inductive numeric : Type :=
| Finite (q : Q)
| Infinite (negative : bool).

Definition scale10 (m : Z) (e : Z) : Q :=
  if (0 <=? e)%Z then Qred (inject_Z (m * 10 ^ e))
  else Qred (Qmake m (Z.to_pos (10 ^ (- e)))).

(** [[eE][+-]?digits] at the end of the literal: the exponent. *)
Definition exponent_part (s : jsstring) : option Z :=
  match s with
  | [] => Some 0%Z
  | c :: tl =>
      if (c =? 101)%N || (c =? 69)%N then
        let '(neg, ds) :=
          match tl with
          | 43%N :: r => (false, r)
          | 45%N :: r => (true, r)
          | _ => (false, tl)
          end in
        match ds with
        | [] => None
        | _ :: _ =>
            if forallb is_digit ds
            then Some (if neg then (- Z.of_N (digits_value ds))%Z
                       else Z.of_N (digits_value ds))
            else None
        end
      else None
  end.

(** StrUnsignedDecimalLiteral without [Infinity]. *)
Definition unsigned_decimal (s : jsstring) : option Q :=
  let (ip, r1) := span is_digit s in
  let '(dot, fp, r2) :=
    match r1 with
    | 46%N :: r => let (f, r') := span is_digit r in (true, f, r')
    | _ => (false, [], r1)
    end in
  match ip, fp with
  | [], [] => None
  | _, _ =>
      match exponent_part r2 with
      | Some e =>
          Some (scale10 (Z.of_N (digits_value (ip ++ fp)))
                        (e - Z.of_nat (List.length fp)))
      | None => None
      end
  end.

Definition str_decimal (s : jsstring) : option numeric :=
  let '(neg, body) :=
    match s with
    | 43%N :: r => (false, r)
    | 45%N :: r => (true, r)
    | _ => (false, s)
    end in
  if str_eqb body (u "Infinity") then Some (Infinite neg)
  else match unsigned_decimal body with
       | Some q => Some (Finite (if neg then Qred (- q) else q))
       | None => None
       end.

Definition non_decimal (radix : N) (p : N -> bool) (ds : jsstring)
    : option numeric :=
  match ds with
  | [] => None
  | _ :: _ =>
      if forallb p ds
      then Some (Finite (inject_Z (Z.of_N (radix_value radix ds))))
      else None
  end.

(** StringToNumber; [None] is [NaN]. *)
Definition StringToNumber (str : jsstring) : option numeric :=
  match trim str with
  | [] => Some (Finite 0)
  | 48%N :: c :: ds =>
      if (c =? 120)%N || (c =? 88)%N then non_decimal 16 is_hex ds
      else if (c =? 111)%N || (c =? 79)%N then non_decimal 8 (between 48 55) ds
      else if (c =? 98)%N || (c =? 66)%N then non_decimal 2 (between 48 49) ds
      else str_decimal (trim str)
  | s => str_decimal s
  end.

Definition isNaN (s : jsstring) : bool :=
  match StringToNumber s with
  | Some _ => false
  | None => true
  end.

Definition num_value (n : numeric) : value :=
  match n with
  | Finite q => VNum q
  | Infinite neg => VInfinity neg
  end.

(** *** The registry [AVAILABLE_TOOLS] *)

(** The store operations of [tools.js] that the registry wires in. *)
Inductive toolFunc : Type :=
| fn_getAllTodos | fn_createTodo | fn_deleteTodoById | fn_deleteTodosByIds
| fn_searchTodos | fn_updateTodo | fn_markTodoCompleted
| fn_markTodoIncomplete | fn_getTodosByPriority | fn_getTodosByCategory
| fn_getTodoStats | fn_clearCompleted | fn_getTodoById.

Record paramSchema : Type := ParamSchema {
  ps_name : jsstring;
  ps_type : jsstring;
  ps_optional : bool
}.

(** A descriptor; the [description] text is left out. *)
Record toolDescriptor : Type := Tool {
  name : jsstring;
  parameters : list paramSchema;
  func : toolFunc
}.

Definition req (n t : string) : paramSchema := ParamSchema (u n) (u t) false.
Definition optional (n t : string) : paramSchema := ParamSchema (u n) (u t) true.

Definition AVAILABLE_TOOLS : list (jsstring * toolDescriptor) :=
  map (fun d => (name d, d))
  [ Tool (u "getAllTodos")
      [optional "orderBy" "string"; optional "direction" "string";
       optional "limit" "number"] fn_getAllTodos;
    Tool (u "createTodo")
      [req "todoText" "string"; optional "priority" "string";
       optional "category" "string"] fn_createTodo;
    Tool (u "deleteTodoById") [req "id" "number"] fn_deleteTodoById;
    Tool (u "deleteTodosByIds") [req "ids" "array"] fn_deleteTodosByIds;
    Tool (u "searchTodos")
      [req "searchText" "string"; optional "field" "string"] fn_searchTodos;
    Tool (u "updateTodo")
      [req "id" "number"; optional "newText" "string";
       optional "priority" "string"; optional "category" "string"] fn_updateTodo;
    Tool (u "markTodoCompleted") [req "id" "number"] fn_markTodoCompleted;
    Tool (u "markTodoIncomplete") [req "id" "number"] fn_markTodoIncomplete;
    Tool (u "getTodosByPriority") [req "priority" "string"] fn_getTodosByPriority;
    Tool (u "getTodosByCategory") [req "category" "string"] fn_getTodosByCategory;
    Tool (u "getTodoStats") [] fn_getTodoStats;
    Tool (u "clearCompleted") [] fn_clearCompleted;
    Tool (u "getTodoById") [req "id" "number"] fn_getTodoById ].

(** [AVAILABLE_TOOLS] is an object literal, so a property that it does not
    own is looked up in [Object.prototype]; these are the names found
    there, each bound to a truthy value. *)
Definition Object_prototype_names : list jsstring :=
  map u [ "constructor"; "__defineGetter__"; "__defineSetter__";
          "hasOwnProperty"; "__lookupGetter__"; "__lookupSetter__";
          "isPrototypeOf"; "propertyIsEnumerable"; "toString"; "valueOf";
          "__proto__"; "toLocaleString" ]%string.

Definition createTodo_tool : toolDescriptor :=
  Tool (u "createTodo")
    [req "todoText" "string"; optional "priority" "string";
     optional "category" "string"] fn_createTodo.

Definition deleteTodosByIds_tool : toolDescriptor :=
  Tool (u "deleteTodosByIds") [req "ids" "array"] fn_deleteTodosByIds.

(** What [AVAILABLE_TOOLS[functionName]] evaluates to. *)
Inductive toolRef : Type :=
| Registered (d : toolDescriptor)
| Inherited (property : jsstring).

Fixpoint own_property (key : jsstring) (o : list (jsstring * toolDescriptor))
    : option toolDescriptor :=
  match o with
  | [] => None
  | (k, d) :: tl => if str_eqb k key then Some d else own_property key tl
  end.

(** [AVAILABLE_TOOLS[functionName]]; [None] is [undefined]. *)
Definition lookup_tool (functionName : jsstring) : option toolRef :=
  match own_property functionName AVAILABLE_TOOLS with
  | Some d => Some (Registered d)
  | None =>
      if existsb (str_eqb functionName) Object_prototype_names
      then Some (Inherited functionName)
      else None
  end.

Definition is_registered (functionName : jsstring) : bool :=
  match own_property functionName AVAILABLE_TOOLS with
  | Some _ => true
  | None => false
  end.

(** *** [parseToolCall] *)

Record ParsedCall : Type := Call {
  functionName : jsstring;
  params : list value;
  tool : toolRef
}.

(** The result of [eval]: a value, or an exception. *)
Inductive evalOutcome : Type :=
| Evaluated (v : value)
| Raised.

Definition is_high_surrogate (c : N) : bool := between 55296 56319 c.
Definition is_low_surrogate (c : N) : bool := between 56320 57343 c.

(** The strings a string iterator yields: one per code point. *)
Fixpoint code_points (s : jsstring) : list jsstring :=
  match s with
  | [] => []
  | c :: tl =>
      match tl with
      | d :: tl' =>
          if is_high_surrogate c && is_low_surrogate d
          then [c; d] :: match code_points tl with
                         | _ :: r => r
                         | [] => []
                         end
          else [c] :: code_points tl
      | [] => [[c]]
      end
  end.

(** The elements [...v] spreads; [None] when [v] is not iterable, which
    raises a [TypeError]. *)
Definition spread (v : value) : option (list value) :=
  match v with
  | VArr items => Some items
  | VStr s => Some (map VStr (code_points s))
  | _ => None
  end.

Definition quoted_by (q : N) (part : jsstring) : bool :=
  startsWith part [q] && endsWith part [q].

(** The coercion of one token of a bracket-free argument list. *)
Definition coerce (part : jsstring) : list value :=
  if quoted_by DQ part then [VStr (slice_1_m1 part)]
  else if quoted_by SQ part then [VStr (slice_1_m1 part)]
  else if str_eqb part (u "null") then [VNull]
  else if str_eqb part (u "true") || str_eqb part (u "false")
  then [VBool (str_eqb part (u "true"))]
  else
    match StringToNumber part, part with
    | Some n, _ :: _ => [num_value n]
    | _, _ :: _ => [VStr part]
    | _, [] => []
    end.

(** The coercion of one token in the [catch] branch. *)
Definition coerce_fallback (part : jsstring) : value :=
  if quoted_by DQ part then VStr (slice_1_m1 part)
  else match StringToNumber part with
       | Some n => num_value n
       | None => VStr part
       end.

Definition paramParts (paramsStr : jsstring) : list jsstring :=
  map trim (split 44 paramsStr).

Section WithEval.

(** [eval] is the host's evaluator; the parser is parametric in it. *)
Variable js_eval : jsstring -> evalOutcome.

(** The body of the [try]; [None] when it raises. *)
Definition try_params (paramsStr : jsstring) : option (list value) :=
  if includes paramsStr (u "[") || includes paramsStr (u "{") then
    match js_eval (u "[" ++ paramsStr ++ u "]") with
    | Evaluated evaluated => spread evaluated
    | Raised => None
    end
  else Some (flat_map coerce (paramParts paramsStr)).

Definition catch_params (paramsStr : jsstring) : list value :=
  map coerce_fallback (paramParts paramsStr).

Definition parse_params (paramsStr : jsstring) : list value :=
  match paramsStr with
  | [] => []
  | _ :: _ =>
      match try_params paramsStr with
      | Some ps => ps
      | None => catch_params paramsStr
      end
  end.

Definition functionCallRegex : pattern :=
  Pattern (cat [Group 1 (plus wordc); star ws; chr 40;
                Group 2 (star (none_of [41%N])); chr 41]) false.

(** What the pattern wants after the name and the white space. *)
Definition call_tail : regex :=
  Seq (chr 40) (Seq (Group 2 (Star true (none_of [41%N]))) (chr 41)).

Definition call_of_match (text : jsstring) (m : rmatch_result)
    : list ParsedCall :=
  match capture text m 1, capture text m 2 with
  | Some functionName, Some args =>
      let paramsStr := trim args in
      match lookup_tool functionName with
      | Some t => [Call functionName (parse_params paramsStr) t]
      | None => []
      end
  | _, _ => []
  end.

Definition parseToolCall (text : jsstring) : list ParsedCall :=
  flat_map (call_of_match text) (exec_all functionCallRegex text).

End WithEval.

End Parser.

(** ** The record store: [src/tools.js] *)

Module Store.
Import JS Parser.

(** A row of [todosTable], with the columns [tools.js] reads and writes;
    timestamps are abstract instants. *)
Record todoRow : Type := Row {
  id : Z;
  todo : jsstring;
  priority : jsstring;
  category : option jsstring;
  completed : bool;
  created_at : N;
  updated_at : N;
  completed_at : option N
}.

Definition db := list todoRow.

(** [Array.isArray(v)] *)
Definition isArray (v : value) : bool :=
  match v with
  | VArr _ => true
  | _ => false
  end.

(** [eq(todosTable.id, v)]: the row's id is the integer [v]. *)
Definition id_is (v : value) (r : todoRow) : bool :=
  match v with
  | VNum q => Qeq_bool q (inject_Z (id r))
  | _ => false
  end.

(** [db.delete(todosTable).where(cond)]: the rows left and [rowCount]. *)
Definition delete_where (cond : todoRow -> bool) (s : db) : db * N :=
  (filter (fun r => negb (cond r)) s,
   N.of_nat (List.length (filter cond s))).

(** [deleteTodosByIds(ids)]: the count returned and the store afterwards. *)
Definition deleteTodosByIds (ids : value) (s : db) : N * db :=
  match ids with
  | VArr [] => (0%N, s)
  | VArr items =>
      let (s', rowCount) :=
        delete_where (fun r => existsb (fun v => id_is v r) items) s in
      (rowCount, s')
  | _ => (0%N, s)
  end.

(** The [updates] object of [updateTodo]: the columns to set. *)
Record updates : Type := Updates {
  set_updated_at : N;
  set_todo : option jsstring;
  set_priority : option jsstring;
  set_category : option jsstring
}.

Definition or_keep {A} (o : option A) (old : A) : A :=
  match o with
  | Some v => v
  | None => old
  end.

Definition apply_updates (up : updates) (r : todoRow) : todoRow :=
  Row (id r)
      (or_keep (set_todo up) (todo r))
      (or_keep (set_priority up) (priority r))
      (match set_category up with
       | Some c => Some c
       | None => category r
       end)
      (completed r) (created_at r) (set_updated_at up) (completed_at r).

(** [db.update(todosTable).set(updates).where(cond)] *)
Definition update_where (up : updates) (cond : todoRow -> bool) (s : db)
    : db * N :=
  (map (fun r => if cond r then apply_updates up r else r) s,
   N.of_nat (List.length (filter cond s))).

(** A string argument is truthy when it is neither [null] nor empty. *)
Definition truthy_text (o : option jsstring) : option jsstring :=
  match o with
  | Some (c :: s) => Some (c :: s)
  | _ => None
  end.

(** [updateTodo(id, newText, priority, category)] at the instant [now];
    a [null] argument is [None]. *)
Definition updateTodo (now : N) (i : Z)
    (newText priority category : option jsstring) (s : db) : bool * db :=
  let up := Updates now (truthy_text newText) (truthy_text priority)
                    category in
  let (s', rowCount) := update_where up (fun r => (id r =? i)%Z) s in
  ((0 <? rowCount)%N, s').

(** [deleteTodoById(id)] for an integer [id]. *)
Definition deleteTodoById (i : Z) (s : db) : bool * db :=
  let (s', rowCount) := delete_where (fun r => (id r =? i)%Z) s in
  ((0 <? rowCount)%N, s').

(** The columns [markTodoCompleted] and [markTodoIncomplete] set. *)
Definition set_completion (done : bool) (done_at : option N) (now : N)
    (r : todoRow) : todoRow :=
  Row (id r) (todo r) (priority r) (category r) done (created_at r) now
      done_at.

(** [db.update(todosTable).set(columns).where(cond)] for the columns a
    function [f] sets. *)
Definition set_where (f : todoRow -> todoRow) (cond : todoRow -> bool)
    (s : db) : db * N :=
  (map (fun r => if cond r then f r else r) s,
   N.of_nat (List.length (filter cond s))).

(** [markTodoCompleted(id)]; the two [new Date()] of the column list are
    the instants [completed_now] and [updated_now], taken in that order. *)
Definition markTodoCompleted (completed_now updated_now : N) (i : Z) (s : db)
    : bool * db :=
  let (s', rowCount) :=
    set_where (set_completion true (Some completed_now) updated_now)
              (fun r => (id r =? i)%Z) s in
  ((0 <? rowCount)%N, s').

(** [markTodoIncomplete(id)] at the instant [now]. *)
Definition markTodoIncomplete (now : N) (i : Z) (s : db) : bool * db :=
  let (s', rowCount) :=
    set_where (set_completion false None now) (fun r => (id r =? i)%Z) s in
  ((0 <? rowCount)%N, s').

(** [clearCompleted()]: the count returned and the store afterwards. *)
Definition clearCompleted (s : db) : N * db :=
  let (s', rowCount) := delete_where completed s in (rowCount, s').

(** [getTodoById(id)]: the first row the query yields; [None] is
    [undefined]. *)
Definition getTodoById (i : Z) (s : db) : option todoRow :=
  find (fun r => (id r =? i)%Z) s.

(** A property of the accumulator of a [reduce] in [getTodoStats]: a count,
    or the text that [+ 1] makes of a value that is not a number. *)
Inductive tally : Type :=
| Count (n : N)
| Text.

Fixpoint own_tally (k : jsstring) (acc : list (jsstring * tally))
    : option tally :=
  match acc with
  | [] => None
  | (k', v) :: tl => if str_eqb k' k then Some v else own_tally k tl
  end.

Fixpoint set_tally (k : jsstring) (v : tally) (acc : list (jsstring * tally))
    : list (jsstring * tally) :=
  match acc with
  | [] => [(k, v)]
  | (k', v') :: tl =>
      if str_eqb k' k then (k', v) :: tl else (k', v') :: set_tally k v tl
  end.

(** [acc[k] = (acc[k] || 0) + 1] on an accumulator that started as [{}].
    A key the accumulator does not own is looked up in [Object.prototype]:
    what is found there is truthy and not a number, so [+ 1] yields a text;
    an assignment to [__proto__] with a text is ignored.  The list keeps the
    keys in the order of their first occurrence. *)
Definition bump (k : jsstring) (acc : list (jsstring * tally))
    : list (jsstring * tally) :=
  match own_tally k acc with
  | Some (Count n) => set_tally k (Count (n + 1)) acc
  | Some Text => set_tally k Text acc
  | None =>
      if str_eqb k (u "__proto__") then acc
      else if existsb (str_eqb k) Object_prototype_names
      then set_tally k Text acc
      else set_tally k (Count 1) acc
  end.

Record todoStats : Type := TodoStats {
  stats_total : N;
  stats_completed : N;
  stats_pending : N;
  stats_priorities : list (jsstring * tally);
  stats_categories : list (jsstring * tally)
}.

(** [getTodoStats()] on the rows [todos] that [getAllTodos()] returned. *)
Definition getTodoStats (todos : list todoRow) : todoStats :=
  let done := N.of_nat (List.length (filter completed todos)) in
  let pending := (N.of_nat (List.length todos) - done)%N in
  let priorities :=
    fold_left (fun acc t => bump (priority t) acc) todos [] in
  let categories :=
    fold_left (fun acc t =>
                 match category t with
                 | Some (c :: cs) => bump (c :: cs) acc
                 | _ => acc
                 end) todos [] in
  TodoStats (N.of_nat (List.length todos)) done pending priorities categories.

End Store.

(** ** The dispatcher: [executeTool] and the loop of [processUserInput] *)

Module Dispatcher.
Import JS Parser.

(** What a tool implementation does with its arguments: it returns a
    value or throws an [Error] with a message. *)
Inductive outcome : Type :=
| Returned (v : value)
| Threw (message : jsstring).

Record CallResult : Type := Result {
  r_functionName : jsstring;
  r_params : list value;
  r_outcome : outcome          (* [success]/[result] or [error] *)
}.

Definition success (r : CallResult) : bool :=
  match r_outcome r with
  | Returned _ => true
  | Threw _ => false
  end.

Section WithTools.

Variable store : Type.

(** The implementations behind [tool.func]. *)
Variable run : toolFunc -> list value -> store -> outcome * store.

(** The message of the [TypeError] raised by calling [undefined]. *)
Definition not_a_function : jsstring := u "toolCall.tool.func is not a function".

(** [executeTool(toolCall)] *)
Definition executeTool (toolCall : ParsedCall) (s : store)
    : CallResult * store :=
  match tool toolCall with
  | Registered d =>
      let (o, s') := run (func d) (params toolCall) s in
      (Result (functionName toolCall) (params toolCall) o, s')
  | Inherited _ =>
      (Result (functionName toolCall) (params toolCall) (Threw not_a_function),
       s)
  end.

(** [for (const toolCall of toolCalls) { const result = await
    executeTool(toolCall); ... }]: the results in the order they are
    reported, and the store afterwards. *)
Definition dispatch_step (acc : list CallResult * store)
    (toolCall : ParsedCall) : list CallResult * store :=
  let (r, s') := executeTool toolCall (snd acc) in
  (fst acc ++ [r], s').

Definition dispatch (toolCalls : list ParsedCall) (s : store)
    : list CallResult * store :=
  fold_left dispatch_step toolCalls ([], s).

End WithTools.

Arguments executeTool {store} run toolCall s.
Arguments dispatch_step {store} run acc toolCall.
Arguments dispatch {store} run toolCalls s.

End Dispatcher.

(** ** The assistant: [handleSimpleCommands] and [processUserInput] *)

Module Assistant.
Import JS Regex NLU Parser Dispatcher.

Definition show_command_re : pattern :=
  re_i (cat [words ["show"; "list"; "display"; "get"; "see"; "view"]%string;
             star ws; opt (cat [lit "my"; star ws]);
             alt [plural "todo"; plural "task"; lit "list"]]).

Definition add_command_re : pattern :=
  re_i (cat [words ["add"; "create"; "make"; "new"]%string; star ws;
             opt todo_kind; star ws; opt (one_of [58; 45]%N); star ws;
             free_text 1]).

Definition delete_command_re : pattern :=
  re_i (cat [words ["delete"; "remove"; "del"]%string; star ws;
             opt todo_kind; star ws; opt hash; number_group 1]).

Definition complete_command_re : pattern :=
  re_i (cat [words ["complete"; "done"; "finish"]%string; star ws;
             opt todo_kind; star ws; opt hash; number_group 1]).

Definition stats_command_re : pattern :=
  re_i (words ["stats"; "statistics"; "summary"; "overview"; "report"]%string).

Definition quote_re : pattern := re (one_of [SQ; DQ]).

(** [match && match[1]]: the first group, when it is a non-empty text. *)
Definition first_group (p : pattern) (text : jsstring) : option jsstring :=
  match exec p text with
  | Some m =>
      match capture text m 1 with
      | Some (c :: cs) => Some (c :: cs)
      | _ => None
      end
  | None => None
  end.

(** [handleSimpleCommands(input)]; [None] is [null]. *)
Definition handleSimpleCommands (input : jsstring) : option jsstring :=
  let lower := trim (toLowerCase input) in
  if test show_command_re lower then Some (u "getAllTodos()") else
  match first_group add_command_re lower with
  | Some text =>
      let todoText := trim (replace quote_re true text []) in
      Some (u "createTodo(" ++ quoted todoText ++ u ")")
  | None =>
  match first_group delete_command_re lower with
  | Some n => Some (u "deleteTodoById(" ++ n ++ u ")")
  | None =>
  match first_group complete_command_re lower with
  | Some n => Some (u "markTodoCompleted(" ++ n ++ u ")")
  | None =>
      if test stats_command_re lower then Some (u "getTodoStats()") else None
  end end end.

(** The stage of [processUserInput] that produced the calls of a turn. *)
Inductive route : Type :=
| DirectExecution
| SimpleMatch
| AIResponse.

Section WithHost.

Variable js_eval : jsstring -> evalOutcome.
Variable store : Type.
Variable run : toolFunc -> list value -> store -> outcome * store.

(** The calls of the first stage: those parsed from the call the classifier
    synthesizes, when there is one and the confidence is above [0.3]. *)
Definition direct_calls (input : jsstring) : list ParsedCall :=
  let analysis := analyzeIntent input in
  match generateFunctionCall analysis with
  | Some (c :: directCall) =>
      if negb (Qle_bool (confidence analysis) (3 # 10))
      then parseToolCall js_eval (c :: directCall)
      else []
  | _ => []
  end.

(** The calls of the second stage. *)
Definition simple_calls (input : jsstring) : list ParsedCall :=
  match handleSimpleCommands input with
  | Some (c :: simpleMatch) => parseToolCall js_eval (c :: simpleMatch)
  | _ => []
  end.

(** [processUserInput(input)]: the stage that was reached, the results of
    the calls it executed and the store afterwards.  [aiResponse] is the
    reply [getAIResponse] gives when it is asked; what is printed is left
    out. *)
Definition processUserInput (aiResponse : jsstring) (input : jsstring)
    (s : store) : route * list CallResult * store :=
  match direct_calls input with
  | (_ :: _) as toolCalls =>
      let (results, s') := dispatch run toolCalls s in
      (DirectExecution, results, s')
  | [] =>
      match simple_calls input with
      | (_ :: _) as toolCalls =>
          let (results, s') := dispatch run toolCalls s in
          (SimpleMatch, results, s')
      | [] =>
          let (results, s') :=
            dispatch run (parseToolCall js_eval aiResponse) s in
          (AIResponse, results, s')
      end
  end.

End WithHost.

Arguments processUserInput js_eval {store} run aiResponse input s.

End Assistant.

(** ** The tools behind the registry: [tool.func(...params)]

    The functions of [tools.js] that the registry wires in, applied to a
    parameter list as [executeTool] applies them: a parameter that is
    missing is [undefined], which a default parameter turns into [null],
    and parameters beyond those the function takes are ignored.  The state
    is the table and the number of times the clock has been read; the
    [n]-th [new Date()] yields [clock n].  The database is taken to answer
    every statement; the tools and the argument values that the model of
    the store does not cover are left to [other]. *)

Module Wiring.
Import JS Parser Store Dispatcher.

Record world : Type := World {
  rows : db;
  clock_reads : nat
}.

(** An id argument: an integer in the range of the [serial] column. *)
Definition integer_argument (v : option value) : option Z :=
  match v with
  | Some (VNum q) =>
      if (Zpos (Qden q) =? 1)%Z && (- 2147483648 <=? Qnum q)%Z
         && (Qnum q <=? 2147483647)%Z
      then Some (Qnum q) else None
  | _ => None
  end.

(** A text argument with the default [null]. *)
Definition text_argument (v : option value) : option (option jsstring) :=
  match v with
  | None | Some VUndefined | Some VNull => Some None
  | Some (VStr s) => Some (Some s)
  | _ => None
  end.

Definition is_integer_id (v : value) : bool :=
  match integer_argument (Some v) with
  | Some _ => true
  | None => false
  end.

Definition number_of (n : N) : value := VNum (inject_Z (Z.of_N n)).

Section WithClock.

Variable clock : nat -> N.
Variable other : toolFunc -> list value -> world -> outcome * world.

Definition run_tool (f : toolFunc) (ps : list value) (w : world)
    : outcome * world :=
  match f with
  | fn_deleteTodoById =>
      match integer_argument (nth_error ps 0) with
      | Some i =>
          let (found, s') := deleteTodoById i (rows w) in
          (Returned (VBool found), World s' (clock_reads w))
      | None => other f ps w
      end
  | fn_deleteTodosByIds =>
      match nth_error ps 0 with
      | Some (VArr items) =>
          if forallb is_integer_id items then
            let (count, s') := deleteTodosByIds (VArr items) (rows w) in
            (Returned (number_of count), World s' (clock_reads w))
          else other f ps w
      | _ => (Returned (number_of 0), w)
      end
  | fn_updateTodo =>
      match integer_argument (nth_error ps 0), text_argument (nth_error ps 1),
            text_argument (nth_error ps 2), text_argument (nth_error ps 3) with
      | Some i, Some newText, Some priority, Some category =>
          let (found, s') :=
            updateTodo (clock (clock_reads w)) i newText priority category
                       (rows w) in
          (Returned (VBool found), World s' (S (clock_reads w)))
      | _, _, _, _ => other f ps w
      end
  | fn_markTodoCompleted =>
      match integer_argument (nth_error ps 0) with
      | Some i =>
          let (found, s') :=
            markTodoCompleted (clock (clock_reads w))
                              (clock (S (clock_reads w))) i (rows w) in
          (Returned (VBool found), World s' (S (S (clock_reads w))))
      | None => other f ps w
      end
  | fn_markTodoIncomplete =>
      match integer_argument (nth_error ps 0) with
      | Some i =>
          let (found, s') :=
            markTodoIncomplete (clock (clock_reads w)) i (rows w) in
          (Returned (VBool found), World s' (S (clock_reads w)))
      | None => other f ps w
      end
  | fn_clearCompleted =>
      let (count, s') := clearCompleted (rows w) in
      (Returned (number_of count), World s' (clock_reads w))
  | _ => other f ps w
  end.

End WithClock.

End Wiring.

(** ** An evaluator for literal arrays

    [literal_eval] stands in for the host's [eval] on texts made of array
    brackets, commas, decimal numbers, quoted strings without escapes and
    the keywords [null], [true], [false]: it yields the array such a text
    denotes (a missing element is [undefined], a comma after the last
    element adds nothing) and raises when the brackets or commas are not
    those of one array literal.  It serves to run the parser on concrete
    texts; the properties of the parser hold for every evaluator. *)

Module Literal.
Import JS Parser.

Inductive token : Type :=
| TOpen | TClose | TComma | TValue (v : value).

Definition is_number_char (c : N) : bool :=
  is_digit c || (c =? 46)%N || (c =? 45)%N || (c =? 101)%N || (c =? 69)%N
  || (c =? 43)%N.

Definition keyword (w : jsstring) : option value :=
  if str_eqb w (u "null") then Some VNull
  else if str_eqb w (u "true") then Some (VBool true)
  else if str_eqb w (u "false") then Some (VBool false)
  else None.

Fixpoint tokenize (fuel : nat) (s : jsstring) : option (list token) :=
  match fuel with
  | O => None
  | S f =>
      match s with
      | [] => Some []
      | c :: tl =>
          let push t r := option_map (cons t) (tokenize f r) in
          if is_space c then tokenize f tl
          else if (c =? 91)%N then push TOpen tl
          else if (c =? 93)%N then push TClose tl
          else if (c =? 44)%N then push TComma tl
          else if (c =? DQ)%N || (c =? SQ)%N then
            let (body, r) := span (fun x => negb (x =? c)%N) tl in
            match r with
            | _ :: r' =>
                if existsb (fun x => (x =? 92)%N || is_line_terminator x) body
                then None else push (TValue (VStr body)) r'
            | [] => None
            end
          else if is_digit c || (c =? 45)%N || (c =? 46)%N then
            let (lexeme, r) := span is_number_char s in
            match str_decimal lexeme with
            | Some n => push (TValue (num_value n)) r
            | None => None
            end
          else
            let (w, r) := span is_word s in
            match keyword w with
            | Some v => push (TValue v) r
            | None => None
            end
      end
  end.

(** One open array: its elements so far, last first, and whether the last
    token closed an element. *)
Definition frame : Type := (list value * bool)%type.

Fixpoint build (ts : list token) (stack : list frame) (done : option value)
    : option value :=
  match ts with
  | [] => match stack with [] => done | _ :: _ => None end
  | t :: tl =>
      match done with
      | Some _ => None
      | None =>
          match t, stack with
          | TOpen, [] => build tl [([], false)] None
          | TOpen, (_, true) :: _ => None
          | TOpen, (_, false) :: _ => build tl (([], false) :: stack) None
          | TValue v, (es, false) :: up => build tl ((v :: es, true) :: up) None
          | TValue _, _ => None
          | TComma, (es, true) :: up => build tl ((es, false) :: up) None
          | TComma, (es, false) :: up =>
              build tl ((VUndefined :: es, false) :: up) None
          | TComma, [] => None
          | TClose, (es, _) :: [] => build tl [] (Some (VArr (rev es)))
          | TClose, (es, _) :: (es', _) :: up =>
              build tl ((VArr (rev es) :: es', true) :: up) None
          | TClose, [] => None
          end
      end
  end.

Definition literal_eval (source : jsstring) : evalOutcome :=
  match tokenize (S (List.length source)) source with
  | Some ts =>
      match build ts [] None with
      | Some v => Evaluated v
      | None => Raised
      end
  | None => Raised
  end.

End Literal.

(** ** Definitions that follow the wording of the specification *)

Module Claims.
Import JS Regex NLU Parser.

(** Every maximal run of consecutive digits of [s], left to right; [cur]
    is the run being read, last digit first. *)
Fixpoint digit_runs_from (s : jsstring) (cur : jsstring) : list jsstring :=
  match s with
  | [] => match cur with [] => [] | _ :: _ => [rev cur] end
  | c :: tl =>
      if is_digit c then digit_runs_from tl (c :: cur)
      else match cur with
           | [] => digit_runs_from tl []
           | _ :: _ => rev cur :: digit_runs_from tl []
           end
  end.

Definition maximal_digit_runs (s : jsstring) : list jsstring :=
  digit_runs_from s [].

(** Every maximal run of word characters (letters, digits, underscore) of
    [s], left to right. *)
Fixpoint word_runs_from (s : jsstring) (cur : jsstring) : list jsstring :=
  match s with
  | [] => match cur with [] => [] | _ :: _ => [rev cur] end
  | c :: tl =>
      if is_word c then word_runs_from tl (c :: cur)
      else match cur with
           | [] => word_runs_from tl []
           | _ :: _ => rev cur :: word_runs_from tl []
           end
  end.

(** The digit runs that are whole words: delimited on both sides by a
    non-word character or an end of the text. *)
Definition digit_words (s : jsstring) : list jsstring :=
  filter (forallb is_digit) (word_runs_from s []).

(** The filter patterns of an intent: its priority filters and its
    category filter. *)
Definition filter_patterns (d : intentData) : list pattern :=
  match priority_filters d with Some fs => map snd fs | None => [] end
  ++ match category_filters d with Some p => [p] | None => [] end.

Definition hits (ps : list pattern) (text : jsstring) : nat :=
  List.length (filter (fun p => test p text) ps).

Definition averageMatchedSpanLength (ms : list patternMatch) : Q :=
  (inject_Z (Z.of_nat (list_sum (map pm_length ms))) / Qlen ms)%Q.

(** [min(1.0, 0.3 * matchCount + boost)] with
    [boost = min(0.4, averageMatchedSpanLength / inputLength) + 0.1 * k]
    for [k] matching filter patterns. *)
Definition confidence_formula (ms : list patternMatch) (text : jsstring)
    (k : nat) : Q :=
  Qmin 1 ((3 # 10) * Qlen ms
          + (Qmin (4 # 10) (averageMatchedSpanLength ms / Qlen text)
             + (1 # 10) * inject_Z (Z.of_nat k)))%Q.

(** The same formula as the code evaluates it, every operation rounded
    to a double: [0.3 * matchCount] plus the length boost first, then
    [0.1] added once for each of the [k] matching filter patterns. *)
Definition rounded_confidence_formula (ms : list patternMatch)
    (text : jsstring) (k : nat) : Binary64.double :=
  let base :=
    Binary64.mul (Binary64.of_nat (List.length ms)) Binary64.three_tenths in
  let average :=
    Binary64.div (Binary64.sum_lengths ms)
                 (Binary64.of_nat (List.length ms)) in
  let lengthBoost :=
    Binary64.Math_min
      (Binary64.div average (Binary64.of_nat (List.length text)))
      Binary64.four_tenths in
  Binary64.Math_min
    (Nat.iter k (fun c => Binary64.add c Binary64.tenth)
       (Binary64.add base lengthBoost))
    Binary64.one.

(** An argument as written in call notation. *)
Inductive argument : Type :=
| AString (quote : N) (s : jsstring)   (* a quoted string *)
| ANull
| ABool (b : bool)
| ANumber (lexeme : jsstring).          (* a decimal number *)

Definition render (a : argument) : jsstring :=
  match a with
  | AString q s => q :: s ++ [q]
  | ANull => u "null"
  | ABool b => if b then u "true" else u "false"
  | ANumber lexeme => lexeme
  end.

(** The value an argument denotes. *)
Definition denotes (a : argument) : option value :=
  match a with
  | AString _ s => Some (VStr s)
  | ANull => Some VNull
  | ABool b => Some (VBool b)
  | ANumber lexeme => option_map num_value (StringToNumber lexeme)
  end.

(** Code units that end a token or switch the parser to the evaluator: the
    comma, the closing parenthesis, the square bracket and the brace. *)
Definition is_delimiter (c : N) : bool :=
  (c =? 44)%N || (c =? 41)%N || (c =? 91)%N || (c =? 123)%N.

Definition plain_text (s : jsstring) : bool :=
  forallb (fun c => negb (is_delimiter c)) s.

(** The first code unit of a decimal number: a digit, a sign or the dot. *)
Definition starts_number (c : N) : bool :=
  is_digit c || (c =? 43)%N || (c =? 45)%N || (c =? 46)%N.

(** An argument the notation can carry: a string in single or double
    quotes without delimiters, a keyword, or a decimal number. *)
Definition well_formed (a : argument) : bool :=
  match a with
  | AString q s => ((q =? DQ)%N || (q =? SQ)%N) && plain_text s
  | ANull | ABool _ => true
  | ANumber lexeme =>
      plain_text lexeme && negb (isNaN lexeme)
      && match lexeme with
         | [] => false
         | c :: _ => starts_number c && negb (is_space (last lexeme 0%N))
         end
  end.

(** A token without white space at either end. *)
Definition tight (s : jsstring) : bool :=
  match s with
  | [] => false
  | c :: _ => negb (is_space c) && negb (is_space (last s 0%N))
  end.

(** The code unit [c] does not occur in [s]. *)
Definition lacks (c : N) (s : jsstring) : bool :=
  forallb (fun x => negb (x =? c)%N) s.

(** Every opening parenthesis of [s] is followed, later in [s], by a
    closing one. *)
Fixpoint parentheses_closed (s : jsstring) : bool :=
  match s with
  | [] => true
  | c :: tl =>
      (if (c =? 40)%N then negb (lacks 41 tl) else true)
      && parentheses_closed tl
  end.

(** The utterances of the scenarios. *)
Definition show_me_all_my_todos : jsstring := u "show me all my todos".
Definition add_buy_milk : jsstring :=
  u "add a todo to buy milk with high priority".
Definition delete_2_3_5 : jsstring := u "delete todos 2, 3, 5".
Definition show_todos_for_work : jsstring := u "show todos for work".
Definition malformed_list_call : jsstring :=
  u "deleteTodosByIds([1, null, 'a')".

(** [name(argsText)] *)
Definition call_span (name argsText : jsstring) : jsstring :=
  name ++ u "(" ++ argsText ++ u ")".

(** [name(arg, arg, ...)] *)
Definition call_notation (name : jsstring) (args : list argument) : jsstring :=
  call_span name (join (u ", ") (map render args)).

End Claims.

(** ** Definitions used to state further properties of the code *)

Module Notions.
Import JS Regex NLU Parser Store Dispatcher.

(** What executing one call by itself does: the outcome of the tool's
    implementation on the call's parameters and the store it leaves.  A
    property inherited from [Object.prototype] has no [func]; calling it
    raises a [TypeError] and touches nothing. *)
Definition call_effect {store : Type}
    (run : toolFunc -> list value -> store -> outcome * store)
    (c : ParsedCall) (s : store) : outcome * store :=
  match tool c with
  | Registered d => run (func d) (params c) s
  | Inherited _ => (Threw not_a_function, s)
  end.

(** The store after the calls have been executed one after the other,
    each in the store the one before it left, whatever its outcome. *)
Fixpoint store_after {store : Type}
    (run : toolFunc -> list value -> store -> outcome * store)
    (calls : list ParsedCall) (s : store) : store :=
  match calls with
  | [] => s
  | c :: cs => store_after run cs (snd (call_effect run c s))
  end.

(** What the call pattern matches at the start of [s], read off the text:
    a non-empty run of word characters, a run of white space, an opening
    parenthesis and the code units up to the next closing parenthesis.
    The result holds the name, the white space, the argument text and the
    text after the closing parenthesis. *)
Definition call_at (s : jsstring)
    : option (jsstring * jsstring * jsstring * jsstring) :=
  let (w, r1) := span is_word s in
  match w with
  | [] => None
  | _ :: _ =>
      let (sp, r2) := span is_space r1 in
      match r2 with
      | c :: r3 =>
          if (c =? 40)%N then
            let (a, r4) := span (fun x => negb (x =? 41)%N) r3 in
            match r4 with
            | _ :: r5 => Some (w, sp, a, r5)
            | [] => None
            end
          else None
      | [] => None
      end
  end.

(** The names and argument texts of the calls of [s], found from left to
    right; the search for the next call resumes after the closing
    parenthesis of the one before.  [fuel] bounds the number of steps;
    one more than the length of [s] is enough. *)
Fixpoint scan_calls (fuel : nat) (s : jsstring)
    : list (jsstring * jsstring) :=
  match fuel with
  | O => []
  | S f =>
      match call_at s with
      | Some (w, _, a, r) => (w, a) :: scan_calls f r
      | None =>
          match s with
          | [] => []
          | _ :: tl => scan_calls f tl
          end
      end
  end.

(** What the parser emits for a name and an argument text. *)
Definition emit (js_eval : jsstring -> evalOutcome)
    (span : jsstring * jsstring) : list ParsedCall :=
  match lookup_tool (fst span) with
  | Some t => [Call (fst span) (parse_params js_eval (trim (snd span))) t]
  | None => []
  end.

(** The value of an integer id in a parameter list. *)
Definition integer_id (z : Z) : value := VNum (inject_Z z).

(** The registry entries of the tools that take one id, of the tools
    that take nothing, and of [updateTodo]. *)
Definition id_tool (name : string) (f : toolFunc) : toolDescriptor :=
  Tool (u name) [req "id" "number"] f.

Definition no_argument_tool (name : string) (f : toolFunc) : toolDescriptor :=
  Tool (u name) [] f.

Definition updateTodo_tool : toolDescriptor :=
  Tool (u "updateTodo")
    [req "id" "number"; optional "newText" "string";
     optional "priority" "string"; optional "category" "string"] fn_updateTodo.

(** A text parses to the one call [name(ps)] of a registered tool. *)
Definition parses_to (js_eval : jsstring -> evalOutcome) (s : jsstring)
    (name : string) (ps : list value) : Prop :=
  exists d, own_property (u name) AVAILABLE_TOOLS = Some d
            /\ parseToolCall js_eval s = [Call (u name) ps (Registered d)].

(** A value that is not an array, an object or [undefined]. *)
Definition scalar (v : value) : bool :=
  match v with
  | VNull | VBool _ | VNum _ | VInfinity _ | VStr _ => true
  | VUndefined | VArr _ | VObj _ => false
  end.

(** The arguments that a category adds to a synthesized [updateTodo]
    call. *)
Definition category_arguments (c : option jsstring) : list value :=
  match c with
  | Some (x :: s) => [VNull; VNull; VStr (x :: s)]
  | _ => []
  end.

(** The confidence [calculateConfidence] gives an entry of the intent
    table on a text, and whether the entry has a match there. *)
Definition intent_confidence (text : jsstring) (d : intentData) : Q :=
  calculateConfidence (matchPatterns text (patterns d)) d text.

Definition matched (text : jsstring) (d : intentData) : Prop :=
  matchPatterns text (patterns d) <> [].

(** How a number of occurrences shows in an accumulator of
    [getTodoStats]: no property for none, a count otherwise. *)
Definition counted (n : nat) : option tally :=
  match n with
  | O => None
  | S _ => Some (Count (N.of_nat n))
  end.

(** The key [getTodoStats] counts a row under in [categories]: its
    category when that is truthy. *)
Definition truthy_category (r : todoRow) : option jsstring :=
  match category r with
  | Some (c :: cs) => Some (c :: cs)
  | _ => None
  end.

(** The query a view request asks for, given the priority and the
    category found in the request. *)
Definition view_call (p : jsstring) (c : option jsstring) : ParsedCall :=
  if negb (str_eqb p (u "medium"))
  then Call (u "getTodosByPriority") [VStr p]
         (Registered (Tool (u "getTodosByPriority") [req "priority" "string"]
                        fn_getTodosByPriority))
  else match c with
       | Some c =>
           Call (u "getTodosByCategory") [VStr c]
             (Registered (Tool (u "getTodosByCategory")
                            [req "category" "string"] fn_getTodosByCategory))
       | None =>
           Call (u "getAllTodos") []
             (Registered (Tool (u "getAllTodos")
                            [optional "orderBy" "string";
                             optional "direction" "string";
                             optional "limit" "number"] fn_getAllTodos))
       end.

End Notions.

(** * Properties *)

Import JS Regex NLU Parser Store Dispatcher Assistant Wiring Literal Claims Notions.

(** Splits a hypothesis [a && b = true] in two. *)
Tactic Notation "andb_hyp" hyp(H) "as" simple_intropattern(pat) :=
  apply andb_prop in H as pat.

(** Closes the case of a loop that has no rounds left although the text
    still has code units. *)
Ltac spend fuel f H := destruct fuel as [| f]; [cbn in H; lia |].

(** ** The dispatcher *)

Section DispatchProperties.

Variable store : Type.
Variable run : toolFunc -> list value -> store -> outcome * store.

Lemma dispatch_loop_acc (calls : list ParsedCall) :
  forall (done : list CallResult) (s : store),
    fold_left (dispatch_step run) calls (done, s)
    = (done ++ fst (dispatch run calls s), snd (dispatch run calls s)).
Proof.
  unfold dispatch.
  induction calls as [| c cs IH]; intros done s; cbn [fold_left].
  - cbn. now rewrite app_nil_r.
  - unfold dispatch_step at 2 4 6. cbn [fst snd app].
    destruct (executeTool run c s) as [r s'].
    rewrite (IH (done ++ [r]) s'), (IH [r] s'). cbn [fst snd].
    now rewrite <- app_assoc.
Qed.

Lemma dispatch_cons (c : ParsedCall) (cs : list ParsedCall) (s : store) :
  dispatch run (c :: cs) s
  = (fst (executeTool run c s)
       :: fst (dispatch run cs (snd (executeTool run c s))),
     snd (dispatch run cs (snd (executeTool run c s)))).
Proof.
  unfold dispatch at 1. cbn [fold_left].
  unfold dispatch_step at 2. cbn [fst snd app].
  destruct (executeTool run c s) as [r s']. cbn [fst snd].
  now rewrite dispatch_loop_acc.
Qed.

Lemma dispatch_length (calls : list ParsedCall) :
  forall s, List.length (fst (dispatch run calls s)) = List.length calls.
Proof.
  induction calls as [| c cs IH]; intros s; [reflexivity |].
  rewrite dispatch_cons; simpl. now rewrite IH.
Qed.

Lemma executeTool_echo (c : ParsedCall) (s : store) :
  r_functionName (fst (executeTool run c s)) = functionName c
  /\ r_params (fst (executeTool run c s)) = params c.
Proof.
  unfold executeTool.
  destruct (tool c) as [d | p]; [destruct (run _ _ _) |]; now simpl.
Qed.

Lemma dispatch_echo (calls : list ParsedCall) :
  forall s,
    map r_functionName (fst (dispatch run calls s)) = map functionName calls
    /\ map r_params (fst (dispatch run calls s)) = map params calls.
Proof.
  induction calls as [| c cs IH]; intros s; [now split |].
  rewrite dispatch_cons; simpl.
  destruct (executeTool_echo c s) as [-> ->].
  destruct (IH (snd (executeTool run c s))) as [-> ->]. now split.
Qed.

Lemma executeTool_effect (c : ParsedCall) (s : store) :
  executeTool run c s
  = (Result (functionName c) (params c) (fst (call_effect run c s)),
     snd (call_effect run c s)).
Proof.
  unfold executeTool, call_effect.
  destruct (tool c) as [d | p]; [destruct (run _ _ _) |]; reflexivity.
Qed.

Lemma dispatch_store (calls : list ParsedCall) :
  forall s, snd (dispatch run calls s) = store_after run calls s.
Proof.
  induction calls as [| c cs IH]; intros s; [reflexivity |].
  rewrite dispatch_cons. cbn [snd store_after].
  now rewrite IH, executeTool_effect.
Qed.

Lemma dispatch_nth (calls : list ParsedCall) :
  forall (s : store) (i : nat) (c : ParsedCall),
    nth_error calls i = Some c ->
    nth_error (fst (dispatch run calls s)) i
    = Some (Result (functionName c) (params c)
              (fst (call_effect run c
                      (store_after run (firstn i calls) s)))).
Proof.
  induction calls as [| c0 cs IH]; intros s i c Hi.
  - destruct i; discriminate Hi.
  - rewrite dispatch_cons. cbn [fst].
    destruct i as [| i]; cbn [nth_error firstn store_after] in *.
    + injection Hi as ->. now rewrite executeTool_effect.
    + rewrite (IH _ i c Hi). now rewrite executeTool_effect.
Qed.

(** C2.  The dispatcher executes the calls one after the other in the
    order given: the i-th call is executed, by its tool's implementation
    on its own parameters, in the store that the implementations of the
    calls before it left, whether those returned or raised an error; the
    store at the end is the one the last call leaves.  There is one result
    per call, in the same order, carrying the call's name and parameters
    and what the implementation returned or the message of the error it
    raised. *)
Theorem dispatch_sequential_isolated (calls : list ParsedCall) (s : store) :
  let results := fst (dispatch run calls s) in
  List.length results = List.length calls
  /\ (forall (i : nat) (c : ParsedCall),
        nth_error calls i = Some c ->
        nth_error results i
        = Some (Result (functionName c) (params c)
                  (fst (call_effect run c
                          (store_after run (firstn i calls) s)))))
  /\ snd (dispatch run calls s) = store_after run calls s
  /\ map r_functionName results = map functionName calls
  /\ map r_params results = map params calls
  /\ (forall (c : ParsedCall) (s0 : store),
        executeTool run c s0
        = (Result (functionName c) (params c)
             (match tool c with
              | Registered d => fst (run (func d) (params c) s0)
              | Inherited _ => Threw not_a_function
              end),
           match tool c with
           | Registered d => snd (run (func d) (params c) s0)
           | Inherited _ => s0
           end)).
Proof.
  cbv zeta. split; [apply dispatch_length |].
  split; [intros i c; apply dispatch_nth |].
  split; [apply dispatch_store |].
  destruct (dispatch_echo calls s) as [Hn Hp].
  split; [exact Hn |]. split; [exact Hp |].
  intros c s0. rewrite executeTool_effect. unfold call_effect.
  destruct (tool c); reflexivity.
Qed.

End DispatchProperties.

(** ** The record store *)

(** C9.  Given an argument that is not a list, or the empty list,
    [deleteTodosByIds] returns 0 and leaves the store as it was. *)
Theorem deleteTodosByIds_no_list (ids : value) (s : db) :
  isArray ids = false \/ ids = VArr [] ->
  Store.deleteTodosByIds ids s = (0%N, s).
Proof.
  intros [H | ->]; [| reflexivity].
  destruct ids; try reflexivity. discriminate H.
Qed.

Lemma deleteTodosByIds_no_list_witness :
  Store.deleteTodosByIds (VStr (u "1, 2"))
    [Row 1 (u "buy milk") (u "medium") None false 0 0 None]
  = (0%N, [Row 1 (u "buy milk") (u "medium") None false 0 0 None]).
Proof.
  apply (deleteTodosByIds_no_list (VStr (u "1, 2"))). left. reflexivity.
Defined.

Lemma update_count_positive (i : Z) (s : db) :
  (exists r, In r s /\ id r = i) ->
  (0 <? N.of_nat (List.length (filter (fun r => (id r =? i)%Z) s)))%N = true.
Proof.
  intros [r [Hin Hid]].
  assert (Hf : In r (filter (fun r => (id r =? i)%Z) s)).
  { apply filter_In. split; [assumption |]. now apply Z.eqb_eq. }
  destruct (filter _ s); [destruct Hf |].
  apply N.ltb_lt. simpl. lia.
Qed.

(** C10, amended.  For an existing id, [updateTodo] with the empty string
    or [null] as the new text returns [true], leaves the text of every
    row as it was and sets [updated_at] of the rows with that id; on those
    rows the priority changes only when a non-empty one was supplied, and
    the category changes whenever one other than [null] was supplied, the
    empty string included; the other rows and columns are untouched. *)
Theorem updateTodo_empty_text (now : N) (i : Z)
    (newText priority category : option jsstring) (s : db) :
  newText = None \/ newText = Some [] ->
  (exists r, In r s /\ id r = i) ->
  Store.updateTodo now i newText priority category s
  = (true,
     map (fun r =>
            if (id r =? i)%Z
            then Row (id r) (todo r)
                     (match priority with
                      | Some (c :: p) => c :: p
                      | _ => Store.priority r
                      end)
                     (match category with
                      | Some c => Some c
                      | None => Store.category r
                      end)
                     (completed r) (created_at r) now (completed_at r)
            else r) s)
  /\ map todo (snd (Store.updateTodo now i newText priority category s))
     = map todo s.
Proof.
  intros Htext Hex.
  assert (Hup : truthy_text newText = None) by (destruct Htext; now subst).
  unfold Store.updateTodo, update_where. rewrite Hup.
  rewrite (update_count_positive i s Hex). cbn [snd].
  split.
  - f_equal. apply map_ext; intros r.
    destruct (id r =? i)%Z; [| reflexivity].
    unfold apply_updates; cbn.
    destruct priority as [[| c p] |]; reflexivity.
  - rewrite map_map. apply map_ext; intros r.
    destruct (id r =? i)%Z; reflexivity.
Qed.

Lemma updateTodo_empty_text_witness :
  Store.updateTodo 9 1 (Some []) None None
    [Row 1 (u "buy milk") (u "low") (Some (u "work")) false 3 3 None]
  = (true, [Row 1 (u "buy milk") (u "low") (Some (u "work")) false 3 9 None])
  /\ map todo
       (snd (Store.updateTodo 9 1 (Some []) None None
               [Row 1 (u "buy milk") (u "low") (Some (u "work")) false 3 3
                    None]))
     = [u "buy milk"].
Proof.
  apply (updateTodo_empty_text 9 1 (Some []) None None
           [Row 1 (u "buy milk") (u "low") (Some (u "work")) false 3 3 None]).
  - right. reflexivity.
  - eexists. split; [left; reflexivity | reflexivity].
Defined.

(** C10 as stated fails: supplying the empty string, which is not truthy,
    as the category changes the category of the row. *)
Lemma updateTodo_falsy_category_modified :
  truthy_text (Some []) = None
  /\ map Store.category
       (snd (Store.updateTodo 9 1 (Some []) None (Some [])
               [Row 1 (u "buy milk") (u "low") (Some (u "work")) false 3 3
                    None]))
     <> map Store.category
          [Row 1 (u "buy milk") (u "low") (Some (u "work")) false 3 3 None].
Proof.
  split; [reflexivity |]. vm_compute. discriminate.
Qed.

(** ** The intent classifier: end-to-end scenarios *)

(** C4.  On "show me all my todos" the classifier answers View with a
    confidence above 0.3, but the keyword [me] of the [personal] category
    occurs in the text, so the call synthesized is
    [getTodosByCategory("personal")] and not [getAllTodos()]. *)
Theorem show_me_all_my_todos_filters_by_category :
  let a := analyzeIntent show_me_all_my_todos in
  primaryIntent a = Some View
  /\ (confidence a == 7 # 10)%Q
  /\ (3 # 10 < confidence a)%Q
  /\ priorities (ents a) = u "medium"
  /\ extractCategory show_me_all_my_todos = Some (u "personal")
  /\ generateFunctionCall a
     = Some (u "getTodosByCategory(" ++ quoted (u "personal") ++ u ")")
  /\ generateFunctionCall a <> Some (u "getAllTodos()").
Proof.
  cbv zeta. repeat split; try (vm_compute; reflexivity).
  vm_compute. discriminate.
Qed.

(** C5 as stated fails: on "add a todo to buy milk with high priority" the
    payload is not "buy milk" and the call is not
    [createTodo("buy milk", "high")]. *)
Lemma add_buy_milk_payload_differs :
  let a := analyzeIntent add_buy_milk in
  ~ (primaryIntent a = Some Create
     /\ priorities (ents a) = u "high"
     /\ todoText (ents a) = Some (u "buy milk")
     /\ generateFunctionCall a
        = Some (u "createTodo(" ++ quoted (u "buy milk") ++ u ", "
                ++ quoted (u "high") ++ u ")")).
Proof.
  cbv zeta. intros (_ & _ & H & _). vm_compute in H. discriminate H.
Qed.

(** What the payload extractor leaves of "add a todo to buy milk with high
    priority": the leading command word [add] and the trailing priority
    phrase are removed, the words "a todo to" stay. *)
Lemma add_buy_milk_payload :
  extractTodoText add_buy_milk = u "a todo to buy milk".
Proof. vm_compute. reflexivity. Qed.

(** C5, amended.  On "add a todo to buy milk with high priority" the
    classifier answers Create with priority [high] and category
    [shopping] (the keyword [buy]), and the call synthesized is
    [createTodo] with three arguments: the payload extracted from the
    text, "high" and "shopping". *)
Theorem add_buy_milk_synthesis :
  let a := analyzeIntent add_buy_milk in
  primaryIntent a = Some Create
  /\ priorities (ents a) = u "high"
  /\ categories (ents a) = Some (u "shopping")
  /\ todoText (ents a) = Some (extractTodoText add_buy_milk)
  /\ generateFunctionCall a
     = Some (u "createTodo(" ++ quoted (extractTodoText add_buy_milk)
             ++ u ", " ++ quoted (u "high") ++ u ", "
             ++ quoted (u "shopping") ++ u ")").
Proof.
  cbv zeta. repeat split; vm_compute; reflexivity.
Qed.

(** C6.  For an analysis classified Delete whose confidence reaches the
    threshold 0.3: no number, no call; one number [n],
    [deleteTodoById(n)]; more than one, [deleteTodosByIds([...])] with all
    the numbers in order.  "delete todos 2, 3, 5" is classified Delete
    with the numbers 2, 3, 5 and yields [deleteTodosByIds([2, 3, 5])]. *)
Theorem delete_synthesis (a : analysis) :
  primaryIntent a = Some Delete ->
  (3 # 10 <= confidence a)%Q ->
  (numbers (ents a) = [] -> generateFunctionCall a = None)
  /\ (forall n, numbers (ents a) = [n] ->
        generateFunctionCall a
        = Some (u "deleteTodoById(" ++ Number_toString n ++ u ")"))
  /\ ((1 < List.length (numbers (ents a)))%nat ->
        generateFunctionCall a
        = Some (u "deleteTodosByIds(["
                ++ join (u ", ") (map Number_toString (numbers (ents a)))
                ++ u "])"))
  /\ primaryIntent (analyzeIntent delete_2_3_5) = Some Delete
  /\ numbers (ents (analyzeIntent delete_2_3_5)) = [2; 3; 5]%N
  /\ generateFunctionCall (analyzeIntent delete_2_3_5)
     = Some (u "deleteTodosByIds([2, 3, 5])").
Proof.
  intros Hintent Hconf.
  assert (Hgate : negb (Qle_bool (3 # 10) (confidence a)) = false).
  { apply negb_false_iff. now apply Qle_bool_iff. }
  unfold generateFunctionCall. rewrite Hgate, Hintent.
  split; [intros ->; reflexivity |].
  split; [intros n ->; reflexivity |].
  split.
  - destruct (numbers (ents a)) as [| n [| m ns]]; cbn [List.length];
      intros Hlen; try lia. reflexivity.
  - repeat split; vm_compute; reflexivity.
Qed.

Lemma delete_synthesis_witness :
  generateFunctionCall (analyzeIntent delete_2_3_5)
  = Some (u "deleteTodosByIds(["
          ++ join (u ", ")
               (map Number_toString
                    (numbers (ents (analyzeIntent delete_2_3_5))))
          ++ u "])").
Proof.
  refine (proj1 (proj2 (proj2
            (delete_synthesis (analyzeIntent delete_2_3_5) _ _))) _).
  - vm_compute. reflexivity.
  - vm_compute. intros H. discriminate H.
  - vm_compute. lia.
Defined.

(** ** Confidence scoring *)

Lemma sum_lengths_from (ms : list patternMatch) :
  forall acc : Q,
    (fold_left (fun sum m => sum + inject_Z (Z.of_nat (pm_length m))) ms acc
     == acc + inject_Z (Z.of_nat (list_sum (map pm_length ms))))%Q.
Proof.
  induction ms as [| m ms IH]; intros acc; cbn [fold_left map].
  - cbn. ring.
  - change (list_sum (pm_length m :: map pm_length ms))
      with (pm_length m + list_sum (map pm_length ms))%nat.
    rewrite IH, Nat2Z.inj_add, inject_Z_plus. ring.
Qed.

Lemma sum_lengths_list_sum (ms : list patternMatch) :
  (sum_lengths ms == inject_Z (Z.of_nat (list_sum (map pm_length ms))))%Q.
Proof.
  unfold sum_lengths. rewrite sum_lengths_from. ring.
Qed.

Lemma filter_boost_from (fs : list (jsstring * pattern)) (text : jsstring) :
  forall c : Q,
    (fold_left (fun c f => if test (snd f) text then c + (1 # 10) else c) fs c
     == c + (1 # 10)
            * inject_Z (Z.of_nat
                (List.length (filter (fun f => test (snd f) text) fs))))%Q.
Proof.
  induction fs as [| f fs IH]; intros c; cbn [fold_left filter].
  - cbn. ring.
  - destruct (test (snd f) text); rewrite IH; [| reflexivity].
    cbn [List.length]. rewrite Nat2Z.inj_succ, <- Z.add_1_r, inject_Z_plus.
    ring.
Qed.

Lemma calculateConfidence_formula (ms : list patternMatch) (d : intentData)
    (text : jsstring) :
  (calculateConfidence ms d text
   == confidence_formula ms text (priority_filter_hits d text))%Q.
Proof.
  unfold calculateConfidence, confidence_formula, priority_filter_hits,
    averageMatchedSpanLength.
  rewrite Q.min_comm. apply Q.min_compat; [reflexivity |].
  destruct (priority_filters d) as [fs |].
  - rewrite filter_boost_from, sum_lengths_list_sum.
    rewrite (Q.min_comm (4 # 10)). ring.
  - rewrite sum_lengths_list_sum, (Q.min_comm (4 # 10)). cbn. ring.
Qed.

Lemma no_pattern_matches_empty_text (intent : intentKind) (d : intentData) :
  In (intent, d) intentPatterns -> matchPatterns [] (patterns d) = [].
Proof.
  unfold intentPatterns. cbn [In].
  intros H.
  repeat (destruct H as [H | H];
          [injection H as _ <-; vm_compute; reflexivity |]).
  destruct H.
Qed.

(** *** The arithmetic of the code *)

Lemma binary_round_aux_sign (sx : bool) (mx ex : Z) (lx : location) :
  match binary_round_aux 53 1024 sx mx ex lx with
  | S754_zero s | S754_infinity s | S754_finite s _ _ => s = sx
  | S754_nan => True
  end.
Proof.
  unfold binary_round_aux.
  destruct (shr_fexp 53 1024 mx ex lx) as [mrs' e'].
  destruct (shr_fexp 53 1024 _ e' loc_Exact) as [mrs'' e''].
  destruct (shr_m mrs'') as [| m | m]; [| destruct (Z.leb _ _) |];
    cbn; auto.
Qed.

Lemma product_not_negative_zero (n : nat) :
  Binary64.mul (Binary64.of_nat n) Binary64.three_tenths <> S754_zero true.
Proof.
  change Binary64.three_tenths
    with (S754_finite false 5404319552844595 (-54)).
  unfold Binary64.of_nat, binary_normalize.
  destruct (Z.of_nat n) as [| m | m] eqn:E; [discriminate | | lia].
  unfold binary_round.
  destruct (shl_align m 0 _) as [mz ez].
  pose proof (binary_round_aux_sign false (Zpos mz) ez loc_Exact) as Hs.
  destruct (binary_round_aux 53 1024 false (Z.pos mz) ez loc_Exact)
    as [sz | si | | sf mm ee]; subst; try discriminate.
  unfold Binary64.mul, SFmul. cbn [xorb].
  pose proof (binary_round_aux_sign false (Zpos (mm * 5404319552844595))
                (ee + -54) loc_Exact) as Hp.
  intros Hz. rewrite Hz in Hp. discriminate Hp.
Qed.

Lemma add_zero_l (x : Binary64.double) :
  x <> S754_zero true -> Binary64.add Binary64.zero x = x.
Proof.
  intros H. destruct x as [[|] | s | | s m e]; try reflexivity.
  now destruct H.
Qed.

Lemma filter_boost_iter (fs : list (jsstring * pattern)) (text : jsstring) :
  forall c : Binary64.double,
    fold_left (fun c f => if test (snd f) text
                          then Binary64.add c Binary64.tenth else c) fs c
    = Nat.iter (List.length (filter (fun f => test (snd f) text) fs))
        (fun c => Binary64.add c Binary64.tenth) c.
Proof.
  induction fs as [| f fs IH]; intros c; cbn [fold_left filter];
    [reflexivity |].
  destruct (test (snd f) text); rewrite IH; [| reflexivity].
  cbn [List.length]. now rewrite Nat.iter_succ_r.
Qed.

Lemma calculateConfidence_rounded (ms : list patternMatch) (d : intentData)
    (text : jsstring) :
  Binary64.calculateConfidence ms d text
  = rounded_confidence_formula ms text (priority_filter_hits d text).
Proof.
  unfold Binary64.calculateConfidence, rounded_confidence_formula,
    priority_filter_hits.
  rewrite (add_zero_l _ (product_not_negative_zero (List.length ms))).
  destruct (priority_filters d) as [fs |]; [| reflexivity].
  now rewrite filter_boost_iter.
Qed.

(** Where the rounding shows: on "show my todos find tasks about asap"
    two View patterns and the high-priority filter match; the code adds
    [0.6], [0.3] and [0.1] in that order and gets the double below 1,
    while the exact value of the formula is 1. *)
Lemma rounding_reaches_the_confidence :
  let text := u "show my todos find tasks about asap" in
  let ms := matchPatterns text (patterns view_data) in
  Binary64.calculateConfidence ms view_data text
  = S754_finite false 9007199254740991 (-53)
  /\ Binary64.one = S754_finite false 4503599627370496 (-52)
  /\ (calculateConfidence ms view_data text == 1)%Q.
Proof. cbv zeta. repeat split; vm_compute; reflexivity. Qed.

(** C3 as stated fails: on "show todos for work" the category filter of
    the View intent matches, yet the confidence of View is 0.7, without
    the 0.1 the formula adds for a matching filter pattern; the same
    holds with the arithmetic of the code. *)
Lemma category_filter_adds_nothing :
  let text := show_todos_for_work in
  let ms := matchPatterns text (patterns view_data) in
  In (View, view_data) intentPatterns
  /\ ms <> []
  /\ hits (filter_patterns view_data) text = 1%nat
  /\ ~ (calculateConfidence ms view_data text
        == confidence_formula ms text (hits (filter_patterns view_data) text))%Q
  /\ Binary64.calculateConfidence ms view_data text
     = Binary64.div (Binary64.of_nat 7) (Binary64.of_nat 10)
  /\ Binary64.calculateConfidence ms view_data text
     <> rounded_confidence_formula ms text
          (hits (filter_patterns view_data) text).
Proof.
  cbv zeta. split; [left; reflexivity |].
  split; [vm_compute; discriminate |].
  split; [vm_compute; reflexivity |].
  split; [vm_compute; discriminate |].
  split; [vm_compute; reflexivity | vm_compute; discriminate].
Qed.

(** C3, amended.  For an intent of the table and an utterance that at
    least one of its patterns matches, the confidence is the double
    [min(1.0, 0.3 * matchCount + boost)] evaluated in the order of the
    code, every operation rounded to the nearest double: to
    [0.3 * matchCount] is added
    [min(averageMatchedSpanLength / inputLength, 0.4)], then 0.1 once for
    each priority filter pattern of the intent (high, medium, low) that
    matches the input.  Only the View intent has priority filters; its
    category filter and the indicator patterns of Create add nothing. *)
Theorem confidence_counts_priority_filters (intent : intentKind)
    (d : intentData) (text : jsstring) :
  In (intent, d) intentPatterns ->
  matchPatterns text (patterns d) <> [] ->
  let ms := matchPatterns text (patterns d) in
  text <> []
  /\ Binary64.calculateConfidence ms d text
     = rounded_confidence_formula ms text (priority_filter_hits d text)
  /\ (intent <> View -> priority_filter_hits d text = 0%nat)
  /\ (intent = View ->
      priority_filter_hits d text
      = hits (map snd view_priority_filters) text).
Proof.
  intros Hin Hms. cbv zeta.
  split.
  { intros ->. apply Hms. now apply (no_pattern_matches_empty_text intent). }
  split; [apply calculateConfidence_rounded |].
  unfold intentPatterns in Hin. cbn [In] in Hin.
  split.
  - intros Hne.
    repeat (destruct Hin as [Hin | Hin];
            [injection Hin as <- <-; try reflexivity; now destruct Hne |]).
    destruct Hin.
  - intros ->.
    repeat (destruct Hin as [Hin | Hin];
            [try discriminate Hin; injection Hin as <- |]);
      try destruct Hin.
    unfold priority_filter_hits, hits, view_data. cbn [priority_filters].
    clear. induction view_priority_filters as [| f fs IH]; [reflexivity |].
    cbn [filter map]. destruct (test (snd f) text); cbn [List.length];
      now rewrite IH.
Qed.

Lemma confidence_counts_priority_filters_witness :
  let text := u "list my tasks, urgent ones" in
  let ms := matchPatterns text (patterns view_data) in
  text <> []
  /\ Binary64.calculateConfidence ms view_data text
     = rounded_confidence_formula ms text (priority_filter_hits view_data text)
  /\ (View <> View -> priority_filter_hits view_data text = 0%nat)
  /\ (View = View ->
      priority_filter_hits view_data text
      = hits (map snd view_priority_filters) text).
Proof.
  apply (confidence_counts_priority_filters View view_data
           (u "list my tasks, urgent ones")).
  - left. reflexivity.
  - vm_compute. discriminate.
Defined.

(** ** The rounds of the matcher are never exhausted *)

Lemma later_refl (st : mstate) : later st st.
Proof. split; lia. Qed.

Lemma later_trans (a b c : mstate) : later a b -> later b c -> later a c.
Proof. unfold later. intros [? ?] [? ?]. split; lia. Qed.

Lemma later_advance (st : mstate) (c : N) (tl : jsstring) :
  rest st = c :: tl -> later st (advance c tl st).
Proof. unfold later, advance. intros ->. cbn. split; lia. Qed.

Lemma later_set_cap (st st' : mstate) (n a b : nat) :
  later st st' -> later st (set_cap n a b st').
Proof. exact (fun H => H). Qed.

(** The matcher calls its continuation on later positions only. *)
Lemma rmatch_cont_ext (ci : bool) (r : regex) :
  forall (k1 k2 : cont) (st : mstate),
    (forall st', later st st' -> k1 st' = k2 st') ->
    rmatch ci r k1 st = rmatch ci r k2 st.
Proof.
  induction r as [| | neg items | a IHa b IHb | a IHa b IHb | g a IHa
                  | n a IHa | | |]; intros k1 k2 st Hk; cbn [rmatch].
  - apply Hk, later_refl.
  - destruct (rest st) as [| c tl] eqn:E; [reflexivity |].
    destruct (is_line_terminator c); [reflexivity |].
    now apply Hk, later_advance.
  - destruct (rest st) as [| c tl] eqn:E; [reflexivity |].
    destruct (xorb neg (in_class ci items c)); [| reflexivity].
    now apply Hk, later_advance.
  - apply IHa. intros st' H'. apply IHb. intros st'' H''.
    apply Hk. now apply (later_trans st st' st'').
  - now rewrite (IHa k1 k2 st Hk), (IHb k1 k2 st Hk).
  - generalize (S (List.length (rest st))). intros fuel.
    revert st Hk. induction fuel as [| f IHf]; intros st Hk.
    + apply Hk, later_refl.
    + cbn [star_loop].
      assert (Hagain :
        rmatch ci a (fun st' => if (pos st <? pos st')%nat
                                then star_loop (rmatch ci a) g k1 f st'
                                else None) st
        = rmatch ci a (fun st' => if (pos st <? pos st')%nat
                                  then star_loop (rmatch ci a) g k2 f st'
                                  else None) st).
      { apply IHa. intros st' H'.
        destruct (pos st <? pos st')%nat; [| reflexivity].
        apply IHf. intros st'' H''. apply Hk.
        now apply (later_trans st st' st''). }
      now rewrite Hagain, (Hk st (later_refl st)).
  - apply IHa. intros st' H'. apply Hk. now apply later_set_cap.
  - destruct (pos st =? 0)%nat; [apply Hk, later_refl | reflexivity].
  - destruct (rest st); [apply Hk, later_refl | reflexivity].
  - destruct (xorb _ _); [apply Hk, later_refl | reflexivity].
Qed.

(** More rounds than the text has code units left change nothing. *)
Lemma star_loop_fuel (ci g : bool) (a : regex) (k : cont) :
  forall (f1 f2 : nat) (st : mstate),
    (List.length (rest st) < f1)%nat ->
    (List.length (rest st) < f2)%nat ->
    star_loop (rmatch ci a) g k f1 st = star_loop (rmatch ci a) g k f2 st.
Proof.
  induction f1 as [| f1 IH]; intros f2 st H1 H2; [lia |].
  destruct f2 as [| f2]; [lia |]. cbn [star_loop].
  assert (Hagain :
    rmatch ci a (fun st' => if (pos st <? pos st')%nat
                            then star_loop (rmatch ci a) g k f1 st'
                            else None) st
    = rmatch ci a (fun st' => if (pos st <? pos st')%nat
                              then star_loop (rmatch ci a) g k f2 st'
                              else None) st).
  { apply rmatch_cont_ext. intros st' [Hle Hsum].
    destruct (pos st <? pos st')%nat eqn:E; [| reflexivity].
    apply Nat.ltb_lt in E. apply IH; lia. }
  now rewrite Hagain.
Qed.

Lemma star_fuel_adequate (ci g : bool) (a : regex) (k : cont) (st : mstate)
    (fuel : nat) :
  (List.length (rest st) < fuel)%nat ->
  star_loop (rmatch ci a) g k fuel st = rmatch ci (Star g a) k st.
Proof. intros H. cbn [rmatch]. apply star_loop_fuel; lia. Qed.

(** A match ends at or after the position where it starts. *)
Lemma rmatch_result_later (ci : bool) (r : regex) :
  forall (k : cont) (st x : mstate),
    rmatch ci r k st = Some x ->
    exists st', later st st' /\ k st' = Some x.
Proof.
  induction r as [| | neg items | a IHa b IHb | a IHa b IHb | g a IHa
                  | n a IHa | | |]; intros k st x H; cbn [rmatch] in H.
  - exists st. split; [apply later_refl | exact H].
  - destruct (rest st) as [| c tl] eqn:E; [discriminate |].
    destruct (is_line_terminator c); [discriminate |].
    exists (advance c tl st). split; [now apply later_advance | exact H].
  - destruct (rest st) as [| c tl] eqn:E; [discriminate |].
    destruct (xorb neg (in_class ci items c)); [| discriminate].
    exists (advance c tl st). split; [now apply later_advance | exact H].
  - apply IHa in H as (st1 & H1 & H). apply IHb in H as (st2 & H2 & H).
    exists st2. split; [now apply (later_trans st st1 st2) | exact H].
  - unfold orelse in H. destruct (rmatch ci a k st) eqn:Ea.
    + injection H as <-. now apply IHa.
    + now apply IHb.
  - assert (Hloop : forall fuel st x,
              star_loop (rmatch ci a) g k fuel st = Some x ->
              exists st', later st st' /\ k st' = Some x).
    { clear st x H. induction fuel as [| f IHf]; intros st x H.
      - exists st. split; [apply later_refl | exact H].
      - cbn [star_loop] in H.
        assert (Hagain : forall y,
          rmatch ci a (fun st' => if (pos st <? pos st')%nat
                                  then star_loop (rmatch ci a) g k f st'
                                  else None) st = Some y ->
          exists st', later st st' /\ k st' = Some y).
        { intros y Hy. apply IHa in Hy as (st1 & H1 & Hy).
          destruct (pos st <? pos st1)%nat; [| discriminate].
          apply IHf in Hy as (st2 & H2 & Hy).
          exists st2. split; [now apply (later_trans st st1 st2) | exact Hy]. }
        unfold orelse in H. destruct g.
        + destruct (rmatch ci a _ st) eqn:Ea.
          * injection H as <-. now apply Hagain.
          * exists st. split; [apply later_refl | exact H].
        + destruct (k st) eqn:Ek.
          * injection H as <-. exists st.
            split; [apply later_refl | exact Ek].
          * now apply Hagain. }
    now apply Hloop in H.
  - apply IHa in H as (st1 & H1 & H). eexists.
    split; [apply later_set_cap, H1 | exact H].
  - destruct (pos st =? 0)%nat; [| discriminate].
    exists st. split; [apply later_refl | exact H].
  - destruct (rest st); [| discriminate].
    exists st. split; [apply later_refl | exact H].
  - destruct (xorb _ _); [| discriminate].
    exists st. split; [apply later_refl | exact H].
Qed.

Lemma search_from_later (p : pattern) (s : jsstring) :
  forall (i : nat) (pv : option N) (m : rmatch_result),
    search_from p i pv s = Some m ->
    (i <= m_index m)%nat /\ (m_index m <= pos (m_final m))%nat
    /\ (pos (m_final m) + List.length (rest (m_final m))
        = i + List.length s)%nat.
Proof.
  induction s as [| c tl IH]; intros i pv m H; cbn [search_from] in H;
    destruct (match_at p i pv _) as [fin |] eqn:E;
    try discriminate;
    try (injection H as <-; unfold match_at in E;
         apply rmatch_result_later in E as (st' & [Hle Hsum] & Hfin);
         injection Hfin as ->; cbn in *; lia).
  apply IH in H. cbn [List.length]. lia.
Qed.

(** The rounds of a global search suffice. *)
Lemma exec_all_from_fuel (p : pattern) :
  forall (f1 f2 i : nat) (pv : option N) (s : jsstring),
    (List.length s < f1)%nat -> (List.length s < f2)%nat ->
    exec_all_from f1 p i pv s = exec_all_from f2 p i pv s.
Proof.
  induction f1 as [| f1 IH]; intros f2 i pv s H1 H2; [lia |].
  destruct f2 as [| f2]; [lia |]. cbn [exec_all_from].
  destruct (search_from p i pv s) as [m |] eqn:E; [| reflexivity].
  apply search_from_later in E as (Hi & Hm & Hsum). f_equal.
  destruct (pos (m_final m) =? m_index m)%nat eqn:Eempty.
  - destruct (rest (m_final m)) as [| c tl] eqn:Er; [reflexivity |].
    cbn [List.length] in Hsum. apply IH; lia.
  - apply Nat.eqb_neq in Eempty. apply IH; lia.
Qed.

(** ** Number extraction *)

Lemma span_spec (p : N -> bool) (s : jsstring) :
  s = fst (span p s) ++ snd (span p s)
  /\ forallb p (fst (span p s)) = true
  /\ match snd (span p s) with [] => True | c :: _ => p c = false end.
Proof.
  induction s as [| c tl IH]; [now cbn |].
  cbn [span]. destruct (p c) eqn:Hc.
  - destruct (span p tl) as [a b]. cbn [fst snd] in *.
    destruct IH as (-> & Ha & Hb). cbn. rewrite Hc, Ha. auto.
  - cbn. rewrite Hc. auto.
Qed.

Lemma dropWhile_span (p : N -> bool) (s : jsstring) :
  dropWhile p s = snd (span p s).
Proof.
  induction s as [| c tl IH]; [reflexivity |].
  cbn. destruct (p c); [| reflexivity].
  rewrite IH. now destruct (span p tl).
Qed.

Lemma is_digit_word (c : N) : is_digit c = true -> is_word c = true.
Proof. unfold is_word. now intros ->. Qed.

Lemma rmatch_cset_nil ci neg items k i pv cs :
  rmatch ci (CSet neg items) k (MState i pv [] cs) = None.
Proof. reflexivity. Qed.

Lemma rmatch_cset_cons ci neg items k i pv c tl cs :
  rmatch ci (CSet neg items) k (MState i pv (c :: tl) cs)
  = if xorb neg (in_class ci items c) then k (MState (S i) (Some c) tl cs)
    else None.
Proof. reflexivity. Qed.

Lemma rmatch_wordb ci k i pv s cs :
  rmatch ci WordB k (MState i pv s cs)
  = if xorb (is_word_opt pv) (is_word_opt (hd_error s))
    then k (MState i pv s cs) else None.
Proof. reflexivity. Qed.

Lemma rmatch_seq ci a b k st :
  rmatch ci (Seq a b) k st = rmatch ci a (rmatch ci b k) st.
Proof. reflexivity. Qed.

Lemma rmatch_star ci g a k st :
  rmatch ci (Star g a) k st
  = star_loop (rmatch ci a) g k (S (List.length (rest st))) st.
Proof. reflexivity. Qed.

Lemma rmatch_group ci n a k st :
  rmatch ci (Group n a) k st
  = rmatch ci a (fun st' => k (set_cap n (pos st) (pos st') st')) st.
Proof. reflexivity. Qed.

Lemma progress_succ (i : nat) : (i <? S i)%nat = true.
Proof. apply Nat.ltb_lt. lia. Qed.

(** The equations that unfold the matcher on a sequence and a group. *)
Create Rewrite HintDb matcher.
#[local] Hint Rewrite rmatch_seq rmatch_group progress_succ : matcher.

Lemma star_loop_greedy body k f st :
  star_loop body true k (S f) st
  = orelse (body (fun st' => if (pos st <? pos st')%nat
                             then star_loop body true k f st' else None) st)
           (fun _ => k st).
Proof. reflexivity. Qed.

Lemma in_class_digit ci c : in_class ci [CDigit] c = is_digit c.
Proof. cbn. now rewrite orb_false_r. Qed.

Lemma digits_loop (ds : jsstring) :
  forall (r : jsstring) (fuel i : nat) (pv : N) (cs : list (nat * (nat * nat))),
    forallb is_digit ds = true ->
    match r with [] => True | c :: _ => is_digit c = false end ->
    is_word pv = true ->
    (List.length ds < fuel)%nat ->
    star_loop (rmatch false (CSet false [CDigit])) true
      (rmatch false WordB (fun st => Some st))
      fuel (MState i (Some pv) (ds ++ r) cs)
    = if is_word_opt (hd_error r) then None
      else Some (MState (i + List.length ds) (Some (last (pv :: ds) 0%N)) r cs).
Proof.
  induction ds as [| d ds IH]; intros r fuel i pv cs Hds Hr Hpv Hfuel;
    (spend fuel f Hfuel);
    rewrite star_loop_greedy.
  - cbn [app]. 
    assert (Hagain : forall k, rmatch false (CSet false [CDigit]) k
                       (MState i (Some pv) r cs) = None).
    { intros k. destruct r as [| c tl]; [reflexivity |].
      now rewrite rmatch_cset_cons, in_class_digit, Hr. }
    rewrite Hagain. cbn [orelse].
    rewrite rmatch_wordb. cbn [is_word_opt List.length last].
    rewrite Hpv, Nat.add_0_r.
    now destruct (is_word_opt (hd_error r)).
  - cbn [forallb] in Hds. andb_hyp Hds as [Hd Hds].
    cbn [List.length] in Hfuel. cbn [app].
    rewrite rmatch_cset_cons, in_class_digit, Hd. cbn [xorb pos].
    rewrite progress_succ.
    rewrite (IH r f (S i) d cs Hds Hr (is_digit_word d Hd)) by lia.
    destruct (is_word_opt (hd_error r)); cbn [orelse].
    + rewrite rmatch_wordb. cbn [hd_error is_word_opt].
      now rewrite Hpv, (is_digit_word d Hd).
    + cbn [List.length]. now rewrite Nat.add_succ_r.
Qed.

Lemma numbers_match_at (i : nat) (pv : option N) (s : jsstring) :
  match_at numbers_re i pv s
  = match span is_digit s with
    | (d :: ds, r) =>
        if is_word_opt pv || is_word_opt (hd_error r) then None
        else Some (MState (i + S (List.length ds))
                          (Some (last (d :: ds) 0%N)) r [])
    | ([], _) => None
    end.
Proof.
  unfold match_at, numbers_re, re, digit, plus. cbn [p_re p_ci cat].
  rewrite rmatch_seq, rmatch_wordb.
  destruct s as [| c tl].
  - cbn [span hd_error is_word_opt]. rewrite xorb_false_r.
    destruct (is_word_opt pv); [| reflexivity].
    now rewrite !rmatch_seq.
  - cbn [span hd_error is_word_opt].
    destruct (is_digit c) eqn:Hc.
    + pose proof (span_spec is_digit tl) as (Htl & Hds & Hr).
      destruct (span is_digit tl) as [ds r]. cbn [fst snd] in *.
      rewrite (is_digit_word c Hc), xorb_true_r.
      destruct (is_word_opt pv); [reflexivity |]. cbn [negb orb].
      rewrite !rmatch_seq.
      rewrite rmatch_cset_cons, in_class_digit, Hc. cbn [xorb].
      rewrite rmatch_star. cbn [rest]. subst tl.
      rewrite (digits_loop ds r _ (S i) c [] Hds Hr (is_digit_word c Hc))
        by (rewrite length_app; lia).
      destruct (is_word_opt (hd_error r)); [reflexivity |].
      now rewrite Nat.add_succ_r.
    + destruct (xorb (is_word_opt pv) (is_word c)); [| reflexivity].
      rewrite !rmatch_seq.
      now rewrite rmatch_cset_cons, in_class_digit, Hc.
Qed.

Lemma span_app (p : N -> bool) (a b : jsstring) :
  forallb p a = true ->
  span p (a ++ b) = (a ++ fst (span p b), snd (span p b)).
Proof.
  induction a as [| c a IH]; cbn [forallb app span]; intros Ha.
  - now destruct (span p b).
  - andb_hyp Ha as [Hc Ha]. rewrite Hc, (IH Ha). reflexivity.
Qed.

Lemma forallb_last (p : N -> bool) (l : jsstring) (c d : N) :
  forallb p (c :: l) = true -> p (last (c :: l) d) = true.
Proof.
  revert c. induction l as [| x l IH]; intros c H.
  - cbn in *. now rewrite andb_true_r in H.
  - cbn [forallb] in H. andb_hyp H as [_ H].
    change (last (c :: x :: l) d) with (last (x :: l) d). now apply IH.
Qed.

Lemma forallb_digit_word (l : jsstring) :
  forallb is_digit l = true -> forallb is_word l = true.
Proof.
  induction l as [| c l IH]; [reflexivity |]. cbn [forallb].
  intros H. andb_hyp H as [Hc Hl].
  now rewrite (is_digit_word c Hc), IH.
Qed.

Lemma dropWhile_stops (p : N -> bool) (r : jsstring) :
  match r with [] => True | c :: _ => p c = false end -> dropWhile p r = r.
Proof. destruct r as [| c r]; [reflexivity |]. cbn. now intros ->. Qed.

Lemma word_runs_run (w : jsstring) :
  forall (r cur : jsstring),
    forallb is_word w = true ->
    match r with [] => True | c :: _ => is_word c = false end ->
    word_runs_from (w ++ r) cur
    = match rev cur ++ w with
      | [] => word_runs_from r []
      | run => run :: word_runs_from r []
      end.
Proof.
  induction w as [| c w IH]; intros r cur Hw Hr.
  - cbn [app]. rewrite app_nil_r.
    destruct r as [| x r].
    + cbn. destruct cur as [| y cur]; [reflexivity |].
      destruct (rev (y :: cur)) eqn:E; [| reflexivity].
      apply (f_equal (@List.length N)) in E. rewrite length_rev in E.
      discriminate E.
    + cbn [word_runs_from]. rewrite Hr.
      destruct cur as [| y cur]; [reflexivity |].
      destruct (rev (y :: cur)) eqn:E; [| reflexivity].
      apply (f_equal (@List.length N)) in E. rewrite length_rev in E.
      discriminate E.
  - cbn [forallb] in Hw. andb_hyp Hw as [Hc Hw].
    cbn [app word_runs_from]. rewrite Hc, (IH r (c :: cur) Hw Hr).
    cbn [rev]. now rewrite <- app_assoc.
Qed.

Lemma digit_words_run (c : N) (w r : jsstring) :
  forallb is_word (c :: w) = true ->
  match r with [] => True | x :: _ => is_word x = false end ->
  digit_words ((c :: w) ++ r)
  = (if forallb is_digit (c :: w) then [c :: w] else []) ++ digit_words r.
Proof.
  intros Hw Hr. unfold digit_words.
  rewrite (word_runs_run (c :: w) r [] Hw Hr). cbn [rev app filter].
  now destruct (forallb is_digit (c :: w)).
Qed.

Lemma digit_words_skip (c : N) (tl : jsstring) :
  is_word c = false -> digit_words (c :: tl) = digit_words tl.
Proof. intros H. unfold digit_words. cbn [word_runs_from]. now rewrite H. Qed.

Lemma digit_words_rejected (c : N) (tl : jsstring) :
  is_word c = true ->
  forallb is_digit (c :: fst (span is_word tl)) = false ->
  digit_words (c :: tl) = digit_words (dropWhile is_word tl).
Proof.
  intros Hc Hrun.
  pose proof (span_spec is_word tl) as (Htl & Hw & Hr).
  rewrite dropWhile_span.
  rewrite Htl at 1.
  change (c :: fst (span is_word tl) ++ snd (span is_word tl))
    with ((c :: fst (span is_word tl)) ++ snd (span is_word tl)).
  rewrite digit_words_run; [now rewrite Hrun | | exact Hr].
  cbn [forallb]. now rewrite Hc, Hw.
Qed.

Lemma exec_all_from_skip (f i : nat) (p : pattern) (pv : option N) (c : N)
    (tl : jsstring) :
  match_at p i pv (c :: tl) = None ->
  exec_all_from (S f) p i pv (c :: tl) = exec_all_from (S f) p (S i) (Some c) tl.
Proof. intros H. cbn [exec_all_from search_from]. now rewrite H. Qed.

Lemma numbers_exec_all (n : nat) :
  forall (s : jsstring), (List.length s <= n)%nat ->
  forall (fuel i : nat) (pv : option N) (text : jsstring),
    (List.length s < fuel)%nat ->
    skipn i text = s ->
    map (m_text text) (exec_all_from fuel numbers_re i pv s)
    = digit_words (if is_word_opt pv then dropWhile is_word s else s).
Proof.
  induction n as [| n IH]; intros s Hn fuel i pv text Hfuel Hskip;
    (spend fuel f Hfuel);
    destruct s as [| c tl]; try (cbn in Hn; lia).
  1, 2: cbn [exec_all_from search_from]; rewrite numbers_match_at;
        cbn; now destruct (is_word_opt pv).
  cbn [List.length] in Hn, Hfuel.
  assert (Hskip' : skipn (S i) text = tl).
  { rewrite <- Nat.add_1_l, <- skipn_skipn, Hskip. reflexivity. }
  pose proof (numbers_match_at i pv (c :: tl)) as Hm.
  cbn [span] in Hm.
  destruct (is_digit c) eqn:Hc.
  - pose proof (span_spec is_digit tl) as (Htl & Hds & Hr).
    destruct (span is_digit tl) as [ds r]. cbn [fst snd] in Htl, Hds, Hr.
    destruct (is_word_opt pv) eqn:Hpv; cbn [orb] in Hm.
    + rewrite (exec_all_from_skip f i numbers_re pv c tl Hm).
      rewrite (IH tl ltac:(lia) (S f) (S i) (Some c) text ltac:(lia) Hskip').
      cbn [is_word_opt dropWhile]. now rewrite (is_digit_word c Hc).
    + destruct (is_word_opt (hd_error r)) eqn:Hnext.
      * rewrite (exec_all_from_skip f i numbers_re pv c tl Hm).
        rewrite (IH tl ltac:(lia) (S f) (S i) (Some c) text ltac:(lia) Hskip').
        cbn [is_word_opt]. rewrite (is_digit_word c Hc).
        symmetry. apply digit_words_rejected; [now apply is_digit_word |].
        destruct r as [| x r]; [discriminate Hnext |].
        cbn [hd_error is_word_opt] in Hnext.
        rewrite Htl, (span_app is_word ds (x :: r) (forallb_digit_word ds Hds)).
        cbn [fst span]. rewrite Hnext.
        destruct (span is_word r) as [a b]. cbn [fst forallb].
        rewrite forallb_app. cbn [forallb]. rewrite Hr.
        now rewrite andb_false_r, andb_false_r.
      * cbn [exec_all_from search_from]. rewrite Hm.
        cbn [m_final m_index pos prev rest map].
        replace (i + S (List.length ds) =? i)%nat with false
          by (symmetry; apply Nat.eqb_neq; lia).
        assert (Hrn : match r with [] => True | x :: _ => is_word x = false end).
        { destruct r as [| x r]; [exact I | exact Hnext]. }
        assert (Hlen : List.length tl = (List.length ds + List.length r)%nat).
        { now rewrite Htl, length_app. }
        rewrite (IH r ltac:(lia) f (i + S (List.length ds))%nat
                    (Some (last (c :: ds) 0%N)) text ltac:(lia)).
        -- cbn [is_word_opt].
           rewrite (is_digit_word _ (forallb_last is_digit ds c 0%N
                      ltac:(cbn [forallb]; now rewrite Hc, Hds))).
           rewrite (dropWhile_stops is_word r Hrn).
           unfold m_text, m_end, substring. cbn [m_index m_final pos].
           replace (i + S (List.length ds) - i)%nat
             with (List.length (c :: ds)) by (cbn [List.length]; lia).
           rewrite Hskip, Htl.
           change (c :: ds ++ r) with ((c :: ds) ++ r).
           rewrite firstn_app, Nat.sub_diag, firstn_all. cbn [firstn].
           rewrite app_nil_r.
           rewrite digit_words_run; [| | exact Hrn].
           ++ cbn [forallb]. now rewrite Hc, Hds.
           ++ apply forallb_digit_word. cbn [forallb]. now rewrite Hc, Hds.
        -- rewrite Nat.add_comm, <- skipn_skipn, Hskip, Htl.
           change (c :: ds ++ r) with ((c :: ds) ++ r).
           change (S (List.length ds)) with (List.length (c :: ds)).
           rewrite skipn_app, Nat.sub_diag, skipn_all. reflexivity.
  - rewrite (exec_all_from_skip f i numbers_re pv c tl Hm).
    rewrite (IH tl ltac:(lia) (S f) (S i) (Some c) text ltac:(lia) Hskip').
    cbn [is_word_opt dropWhile].
    destruct (is_word c) eqn:Hw.
    + destruct (is_word_opt pv); [reflexivity |].
      symmetry. apply digit_words_rejected; [exact Hw |].
      cbn [forallb]. now rewrite Hc.
    + destruct (is_word_opt pv); now rewrite digit_words_skip.
Qed.

(** C8, amended.  The numbers entity holds, in left-to-right order and
    each parsed as an integer, the digit runs of the original text that
    are whole words: maximal runs of word characters (letters, digits,
    underscore) made of digits only.  A digit run next to a letter or an
    underscore, like the 7 of "todo7", is not extracted.  (A run is parsed
    to its exact value, which is the JavaScript number for runs below
    2^53.) *)
Theorem extractNumbers_digit_words (text : jsstring) :
  extractNumbers text = map digits_value (digit_words text)
  /\ extractNumbers (u "todo7") = []
  /\ extractNumbers (u "todo 7, 12") = [7; 12]%N.
Proof.
  split; [| split; vm_compute; reflexivity].
  unfold extractNumbers, match_g, exec_all. f_equal.
  now rewrite (numbers_exec_all (List.length text) text (le_n _)
                 (S (List.length text)) 0 None text (Nat.lt_succ_diag_r _)).
Qed.

(** C8 as stated fails: 7 is a maximal digit run of "todo7" and is not
    among the numbers extracted. *)
Lemma todo7_not_extracted :
  maximal_digit_runs (u "todo7") = [u "7"]
  /\ extractNumbers (u "todo7")
     <> map digits_value (maximal_digit_runs (u "todo7")).
Proof. split; [reflexivity |]. vm_compute. discriminate. Qed.

(** ** The call notation parser *)

Lemma str_eqb_eq (a b : jsstring) : str_eqb a b = true -> a = b.
Proof.
  revert b. induction a as [| x a IH]; intros [| y b]; cbn; try discriminate;
    [reflexivity |].
  intros H. andb_hyp H as [Hx Hab].
  apply N.eqb_eq in Hx. subst. f_equal. now apply IH.
Qed.

Lemma rev_last (s : jsstring) (c d : N) :
  rev (c :: s) = last (c :: s) d :: rev (removelast (c :: s)).
Proof.
  rewrite (app_removelast_last d (l := c :: s)) at 1 by discriminate.
  now rewrite rev_app_distr.
Qed.

Lemma trim_tight (s : jsstring) : tight s = true -> trim s = s.
Proof.
  destruct s as [| c s]; [discriminate |]. unfold tight.
  intros H. andb_hyp H as [Hc Hl].
  apply negb_true_iff in Hc, Hl.
  unfold trim, trimStart, trimEnd. cbn [dropWhile]. rewrite Hc.
  rewrite (rev_last s c 0%N). cbn [dropWhile]. rewrite Hl.
  now rewrite <- (rev_last s c 0%N), rev_involutive.
Qed.

Lemma trim_space_tight (s : jsstring) : tight s = true -> trim (32%N :: s) = s.
Proof. intros H. rewrite <- (trim_tight s H) at 2. reflexivity. Qed.

Lemma split_lacks (s : jsstring) : lacks 44 s = true -> split 44 s = [s].
Proof.
  induction s as [| c s IH]; [reflexivity |]. cbn [lacks forallb split].
  intros H. andb_hyp H as [Hc Hs]. apply negb_true_iff in Hc.
  rewrite Hc, (IH Hs). reflexivity.
Qed.

Lemma split_app_comma (s r : jsstring) :
  lacks 44 s = true -> split 44 (s ++ 44%N :: r) = s :: split 44 r.
Proof.
  induction s as [| c s IH]; [reflexivity |]. cbn [lacks forallb split app].
  intros H. andb_hyp H as [Hc Hs]. apply negb_true_iff in Hc.
  rewrite Hc, (IH Hs). reflexivity.
Qed.

Lemma split_join (t : jsstring) (ts : list jsstring) :
  forallb (lacks 44) (t :: ts) = true ->
  split 44 (join (u ", ") (t :: ts)) = t :: map (cons 32%N) ts.
Proof.
  revert t. induction ts as [| t' ts IH]; intros t H;
    cbn [forallb] in H; andb_hyp H as [Ht Hts].
  - cbn [join map]. now apply split_lacks.
  - change (join (u ", ") (t :: t' :: ts))
      with (t ++ 44%N :: 32%N :: join (u ", ") (t' :: ts)).
    rewrite (split_app_comma _ _ Ht). cbn [split].
    change (32 =? 44)%N with false. cbv iota.
    rewrite (IH t' Hts). reflexivity.
Qed.

Lemma paramParts_join (ts : list jsstring) :
  ts <> [] ->
  forallb (lacks 44) ts = true ->
  forallb tight ts = true ->
  paramParts (join (u ", ") ts) = ts.
Proof.
  destruct ts as [| t ts]; [congruence |]. intros _ Hc Ht.
  unfold paramParts. rewrite (split_join t ts Hc).
  cbn [forallb] in Ht. andb_hyp Ht as [Ht Hts].
  cbn [map]. rewrite (trim_tight t Ht). f_equal.
  rewrite map_map. induction ts as [| t' ts IH]; [reflexivity |].
  cbn [forallb] in Hts. andb_hyp Hts as [Ht' Hts].
  cbn [map]. rewrite (trim_space_tight t' Ht'). f_equal.
  apply IH; [| exact Hts].
  cbn [forallb] in Hc |- *. andb_hyp Hc as [H1 H2].
  andb_hyp H2 as [_ H2]. now rewrite H1, H2.
Qed.

Lemma includes_single (c : N) (s : jsstring) :
  lacks c s = true -> includes s [c] = false.
Proof.
  induction s as [| x s IH]; [reflexivity |]. cbn [lacks forallb includes].
  intros H. andb_hyp H as [Hx Hs]. apply negb_true_iff in Hx.
  cbn [startsWith]. rewrite N.eqb_sym, Hx, (IH Hs). reflexivity.
Qed.

Lemma lacks_app (c : N) (a b : jsstring) :
  lacks c (a ++ b) = lacks c a && lacks c b.
Proof. apply forallb_app. Qed.

Lemma lacks_join (c : N) (ts : list jsstring) :
  (c =? 44)%N = false -> (c =? 32)%N = false ->
  forallb (lacks c) ts = true -> lacks c (join (u ", ") ts) = true.
Proof.
  intros H44 H32. induction ts as [| t ts IH]; [reflexivity |].
  cbn [forallb]. intros H. andb_hyp H as [Ht Hts].
  destruct ts as [| t' ts]; [exact Ht |].
  change (join (u ", ") (t :: t' :: ts))
    with (t ++ 44%N :: 32%N :: join (u ", ") (t' :: ts)).
  rewrite lacks_app, Ht. cbn [lacks forallb andb].
  rewrite (N.eqb_sym 44), H44, (N.eqb_sym 32), H32. apply (IH Hts).
Qed.

Lemma last_app_cons (a b : jsstring) (x d : N) :
  last (a ++ x :: b) d = last (x :: b) d.
Proof.
  induction a as [| y a IH]; [reflexivity |].
  cbn [app]. rewrite <- IH. destruct (a ++ x :: b) eqn:E; [| reflexivity].
  now destruct a.
Qed.

Lemma tight_join (ts : list jsstring) :
  ts <> [] -> forallb tight ts = true -> tight (join (u ", ") ts) = true.
Proof.
  destruct ts as [| t ts]; [congruence |]. intros _.
  revert t. induction ts as [| t' ts IH]; intros t H;
    cbn [forallb] in H; andb_hyp H as [Ht Hts]; [exact Ht |].
  change (join (u ", ") (t :: t' :: ts))
    with (t ++ 44%N :: 32%N :: join (u ", ") (t' :: ts)).
  specialize (IH t' Hts).
  destruct t as [| c t]; [discriminate |].
  unfold tight in Ht |- *. andb_hyp Ht as [Hc _].
  cbn [app]. rewrite Hc. cbn [andb].
  destruct (join (u ", ") (t' :: ts)) as [| x j] eqn:Ej; [discriminate |].
  unfold tight in IH. andb_hyp IH as [_ Hl].
  replace (c :: t ++ 44%N :: 32%N :: x :: j)
    with ((c :: t ++ [44%N; 32%N]) ++ x :: j)
    by (cbn; now rewrite <- app_assoc).
  now rewrite last_app_cons.
Qed.

(** *** The matcher on a call span *)

Lemma functionCallRegex_shape :
  p_re functionCallRegex
  = Seq (Group 1 (Seq wordc (Star true wordc))) (Seq (Star true ws) call_tail).
Proof. reflexivity. Qed.

Lemma is_word_not_space (c : N) : is_word c = true -> is_space c = false.
Proof.
  unfold is_word, is_space, is_digit, is_upper, is_lower, between.
  intros H.
  repeat (apply orb_false_intro);
    try apply andb_false_iff; try apply N.eqb_neq;
    repeat (apply orb_prop in H as [H | H]);
    try (andb_hyp H as [H1 H2];
         apply N.leb_le in H1; apply N.leb_le in H2);
    try apply N.eqb_eq in H;
    try (intros E; lia);
    try (destruct (N.leb_spec 9 c); [right; apply N.leb_gt; lia | now left]);
    try (destruct (N.leb_spec 8192 c); [right; apply N.leb_gt; lia | now left]).
Qed.

Lemma is_word_not_paren (c : N) : is_word c = true -> (40 =? c)%N = false.
Proof.
  intros H. destruct (N.eqb_spec 40 c) as [<- |]; [discriminate H | reflexivity].
Qed.

Lemma prev_after_last (o : option N) (c : N) (s : jsstring) :
  prev_after o (c :: s) = Some (last (c :: s) 0%N).
Proof.
  revert o c. induction s as [| d s IH]; intros o c; [reflexivity |].
  change (prev_after o (c :: d :: s)) with (prev_after (Some c) (d :: s)).
  now rewrite IH.
Qed.

Lemma substring_at (text a b c : jsstring) (i j : nat) :
  text = a ++ b ++ c -> i = List.length a -> j = (i + List.length b)%nat ->
  substring text i j = b.
Proof.
  intros -> -> ->. unfold substring.
  rewrite skipn_app, skipn_all, Nat.sub_diag. cbn [skipn app].
  replace (List.length a + List.length b - List.length a)%nat
    with (List.length b) by lia.
  rewrite firstn_app, firstn_all, Nat.sub_diag. cbn [firstn].
  apply app_nil_r.
Qed.

(** A greedy run over a character class reads the whole run when the
    continuation rejects every shorter one. *)
Lemma star_class_greedy ci neg items (p : N -> bool) (k : cont) :
  (forall c, xorb neg (in_class ci items c) = p c) ->
  forall (w r : jsstring) (fuel i : nat) (pv : option N)
         (cs : list (nat * (nat * nat))),
    forallb p w = true ->
    match r with [] => True | c :: _ => p c = false end ->
    (List.length w < fuel)%nat ->
    (forall w1 c w2, w = w1 ++ c :: w2 ->
       k (MState (i + List.length w1) (prev_after pv w1) (c :: w2 ++ r) cs)
       = None) ->
    star_loop (rmatch ci (CSet neg items)) true k fuel (MState i pv (w ++ r) cs)
    = k (MState (i + List.length w) (prev_after pv w) r cs).
Proof.
  intros Hp.
  induction w as [| c w IH]; intros r fuel i pv cs Hw Hr Hfuel Hk;
    (spend fuel f Hfuel);
    rewrite star_loop_greedy.
  - cbn [app List.length prev_after fold_left]. rewrite Nat.add_0_r.
    destruct r as [| c r].
    + rewrite rmatch_cset_nil. reflexivity.
    + rewrite rmatch_cset_cons, Hp, Hr. reflexivity.
  - cbn [forallb] in Hw. andb_hyp Hw as [Hc Hw].
    cbn [List.length] in Hfuel. cbn [app].
    rewrite rmatch_cset_cons, Hp, Hc. cbn [pos].
    rewrite progress_succ.
    rewrite (IH r f (S i) (Some c) cs Hw Hr); [| lia |].
    + cbn [List.length prev_after fold_left]. rewrite Nat.add_succ_r.
      cbn [Nat.add].
      destruct (k (MState (S (i + List.length w)) _ r cs)) as [x |] eqn:E;
        [reflexivity |].
      cbn [orelse].
      specialize (Hk [] c w eq_refl).
      cbn [List.length prev_after fold_left] in Hk.
      rewrite Nat.add_0_r in Hk. exact Hk.
    + intros w1 c' w2 ->.
      specialize (Hk (c :: w1) c' w2 eq_refl).
      cbn [List.length prev_after fold_left] in Hk.
      rewrite Nat.add_succ_r in Hk. exact Hk.
Qed.

Lemma word_class_test (c : N) :
  xorb false (in_class false [CWord] c) = is_word c.
Proof. cbn. apply orb_false_r. Qed.

Lemma space_class_test (c : N) :
  xorb false (in_class false [CSpace] c) = is_space c.
Proof. cbn. apply orb_false_r. Qed.

Lemma open_class_test (c : N) :
  xorb false (in_class false [CChar 40%N] c) = (c =? 40)%N.
Proof.
  unfold in_class, item_matches, canon. cbn [existsb andb xorb].
  now rewrite orb_false_r, N.eqb_sym.
Qed.

Lemma close_class_test (c : N) :
  xorb false (in_class false [CChar 41%N] c) = (c =? 41)%N.
Proof.
  unfold in_class, item_matches, canon. cbn [existsb andb xorb].
  now rewrite orb_false_r, N.eqb_sym.
Qed.

Lemma not_close_class_test (c : N) :
  xorb true (in_class false [CChar 41%N] c) = negb (c =? 41)%N.
Proof.
  unfold in_class, item_matches, canon. cbn [existsb andb xorb].
  now rewrite orb_false_r, N.eqb_sym.
Qed.

Lemma is_space_not_paren (c : N) : is_space c = true -> (c =? 40)%N = false.
Proof.
  intros H. destruct (N.eqb_spec c 40) as [-> |]; [discriminate H | reflexivity].
Qed.

Lemma call_tail_needs_paren (k : cont) (i : nat) (pv : option N) (c : N)
    (tl : jsstring) (cs : list (nat * (nat * nat))) :
  (c =? 40)%N = false ->
  rmatch false call_tail k (MState i pv (c :: tl) cs) = None.
Proof.
  intros H. unfold call_tail, chr.
  now rewrite rmatch_seq, rmatch_cset_cons, open_class_test, H.
Qed.

(** After the name: white space, then the parenthesized text. *)
Lemma spaces_and_tail (i : nat) (pv : option N) (r1 : jsstring)
    (cs : list (nat * (nat * nat))) :
  rmatch false (Seq (Star true ws) call_tail) (fun st => Some st)
    (MState i pv r1 cs)
  = let (sp, r2) := span is_space r1 in
    match r2 with
    | c :: r3 =>
        if (c =? 40)%N then
          let (a, r4) := span (fun x => negb (x =? 41)%N) r3 in
          match r4 with
          | _ :: r5 =>
              Some (MState (S (S (i + List.length sp) + List.length a))
                      (Some 41%N) r5
                      ((2%nat, (S (i + List.length sp),
                                (S (i + List.length sp) + List.length a)%nat))
                       :: cs))
          | [] => None
          end
        else None
    | [] => None
    end.
Proof.
  rewrite rmatch_seq, rmatch_star. cbn [rest].
  pose proof (span_spec is_space r1) as (Hs & Hsp & Hr2).
  destruct (span is_space r1) as [sp r2]. cbn [fst snd] in Hs, Hsp, Hr2.
  subst r1. unfold ws.
  rewrite (star_class_greedy false false [CSpace] is_space _ space_class_test
             sp r2 _ i pv cs Hsp Hr2).
  - destruct r2 as [| c r3].
    + reflexivity.
    + destruct (c =? 40)%N eqn:Ec;
        [| now apply call_tail_needs_paren].
      unfold call_tail, chr.
      rewrite rmatch_seq, rmatch_cset_cons, open_class_test, Ec.
      rewrite rmatch_seq, rmatch_group, rmatch_star. cbn [rest pos].
      pose proof (span_spec (fun x => negb (x =? 41)%N) r3) as (Ha & Hargs & Hr4).
      destruct (span (fun x => negb (x =? 41)%N) r3) as [a r4].
      cbn [fst snd] in Ha, Hargs, Hr4. subst r3.
      unfold none_of. cbn [map].
      rewrite (star_class_greedy false true [CChar 41%N]
                 (fun x => negb (x =? 41)%N) _ not_close_class_test
                 a r4 _ (S (i + List.length sp)) (Some c) _ Hargs Hr4).
      * unfold set_cap. cbn [pos prev rest caps].
        destruct r4 as [| d r5]; [reflexivity |].
        rewrite rmatch_cset_cons, close_class_test.
        apply negb_false_iff in Hr4. rewrite Hr4.
        apply N.eqb_eq in Hr4. now subst d.
      * rewrite length_app. lia.
      * intros w1 d w2 ->. unfold set_cap. cbn [pos prev rest caps].
        rewrite rmatch_cset_cons, close_class_test.
        rewrite forallb_app in Hargs. andb_hyp Hargs as [_ Hargs].
        cbn [forallb] in Hargs. andb_hyp Hargs as [Hd _].
        apply negb_true_iff in Hd. now rewrite Hd.
  - rewrite length_app. lia.
  - intros w1 d w2 ->.
    rewrite forallb_app in Hsp. andb_hyp Hsp as [_ Hsp].
    cbn [forallb] in Hsp. andb_hyp Hsp as [Hd _].
    apply call_tail_needs_paren. now apply is_space_not_paren.
Qed.

(** The pattern matches at the start of a text exactly the span that
    [call_at] reads there. *)
Lemma match_at_spec (i : nat) (pv : option N) (s : jsstring) :
  match_at functionCallRegex i pv s
  = match call_at s with
    | Some (w, sp, a, r) =>
        Some (MState (S (S (i + List.length w + List.length sp)
                         + List.length a))
                (Some 41%N) r
                [(2%nat, (S (i + List.length w + List.length sp),
                          (S (i + List.length w + List.length sp)
                           + List.length a)%nat));
                 (1%nat, (i, (i + List.length w)%nat))])
    | None => None
    end.
Proof.
  unfold match_at. rewrite functionCallRegex_shape.
  change (p_ci functionCallRegex) with false.
  rewrite rmatch_seq, rmatch_group, rmatch_seq. unfold wordc at 1.
  unfold call_at.
  destruct s as [| c tl]; [reflexivity |].
  rewrite rmatch_cset_cons, word_class_test. cbn [span].
  destruct (is_word c) eqn:Hc; [| reflexivity].
  rewrite rmatch_star. cbn [rest pos].
  pose proof (span_spec is_word tl) as (Hs & Hw & Hr1).
  destruct (span is_word tl) as [w r1]. cbn [fst snd] in Hs, Hw, Hr1.
  subst tl. unfold wordc.
  rewrite (star_class_greedy false false [CWord] is_word _ word_class_test
             w r1 _ (S i) (Some c) [] Hw Hr1).
  - unfold set_cap. cbn [pos prev rest caps].
    rewrite spaces_and_tail.
    destruct (span is_space r1) as [sp r2].
    destruct r2 as [| d r3]; [reflexivity |].
    destruct (d =? 40)%N; [| reflexivity].
    destruct (span (fun x => negb (x =? 41)%N) r3) as [a r4].
    destruct r4 as [| e r5]; [reflexivity |].
    cbn [List.length]. rewrite !Nat.add_succ_r. reflexivity.
  - rewrite length_app. lia.
  - intros w1 d w2 ->. unfold set_cap. cbn [pos prev rest caps].
    rewrite forallb_app in Hw. andb_hyp Hw as [_ Hw].
    cbn [forallb] in Hw. andb_hyp Hw as [Hd _].
    rewrite spaces_and_tail.
    cbn [span]. rewrite (is_word_not_space d Hd).
    now rewrite N.eqb_sym, (is_word_not_paren d Hd).
Qed.

Lemma call_at_some (s w sp a r : jsstring) :
  call_at s = Some (w, sp, a, r) ->
  s = w ++ sp ++ 40%N :: a ++ 41%N :: r
  /\ w <> [] /\ forallb is_word w = true
  /\ forallb is_space sp = true /\ lacks 41 a = true.
Proof.
  unfold call_at.
  pose proof (span_spec is_word s) as (Hs & Hw & _).
  destruct (span is_word s) as [w0 r1]. cbn [fst snd] in Hs, Hw.
  destruct w0 as [| c w0]; [discriminate |].
  pose proof (span_spec is_space r1) as (Hr1 & Hsp & _).
  destruct (span is_space r1) as [sp0 r2]. cbn [fst snd] in Hr1, Hsp.
  destruct r2 as [| d r3]; [discriminate |].
  destruct (N.eqb_spec d 40) as [-> |]; [| discriminate].
  pose proof (span_spec (fun x => negb (x =? 41)%N) r3) as (Hr3 & Ha & Hr4).
  destruct (span (fun x => negb (x =? 41)%N) r3) as [a0 r4].
  cbn [fst snd] in Hr3, Ha, Hr4.
  destruct r4 as [| e r5]; [discriminate |].
  intros H. injection H as <- <- <- <-.
  apply negb_false_iff, N.eqb_eq in Hr4. subst e.
  repeat split; try assumption; [| discriminate].
  now rewrite Hs, Hr1, Hr3.
Qed.

Lemma call_at_nil : call_at [] = None.
Proof. reflexivity. Qed.

(** More rounds than the text has code units change nothing. *)
Lemma scan_calls_fuel (f1 : nat) :
  forall (f2 : nat) (s : jsstring),
    (List.length s < f1)%nat -> (List.length s < f2)%nat ->
    scan_calls f1 s = scan_calls f2 s.
Proof.
  induction f1 as [| f1 IH]; intros f2 s H1 H2; [lia |].
  destruct f2 as [| f2]; [lia |]. cbn [scan_calls].
  destruct (call_at s) as [[[[w sp] a] r] |] eqn:E.
  - apply call_at_some in E as (-> & _). f_equal.
    rewrite !length_app in H1, H2. cbn [List.length] in H1, H2.
    rewrite !length_app in H1, H2. cbn [List.length] in H1, H2.
    apply IH; lia.
  - destruct s as [| c tl]; [reflexivity |].
    cbn [List.length] in H1, H2. apply IH; lia.
Qed.

Lemma scan_calls_S (f : nat) (s : jsstring) :
  scan_calls (S f) s
  = match call_at s with
    | Some (w, _, a, r) => (w, a) :: scan_calls f r
    | None => match s with
              | [] => []
              | _ :: tl => scan_calls f tl
              end
    end.
Proof. reflexivity. Qed.

Lemma scan_calls_match (fuel : nat) (s w sp a r : jsstring) :
  (List.length s < fuel)%nat ->
  call_at s = Some (w, sp, a, r) ->
  scan_calls fuel s = (w, a) :: scan_calls fuel r.
Proof.
  intros Hf E. destruct fuel as [| f]; [lia |].
  rewrite scan_calls_S, E. f_equal.
  apply call_at_some in E as (-> & _).
  rewrite !length_app in Hf. cbn [List.length] in Hf.
  rewrite !length_app in Hf. cbn [List.length] in Hf.
  apply scan_calls_fuel; lia.
Qed.

Lemma scan_calls_skip (fuel : nat) (c : N) (tl : jsstring) :
  (List.length (c :: tl) < fuel)%nat ->
  call_at (c :: tl) = None ->
  scan_calls fuel (c :: tl) = scan_calls fuel tl.
Proof.
  intros Hf E. destruct fuel as [| f]; [lia |].
  rewrite scan_calls_S, E.
  cbn [List.length] in Hf. apply scan_calls_fuel; lia.
Qed.

Lemma scan_calls_nil (fuel : nat) : scan_calls fuel [] = [].
Proof. destruct fuel; reflexivity. Qed.

(** The captures of a match are the name and the argument text. *)
Lemma call_of_match_at (js_eval : jsstring -> evalOutcome)
    (done w sp a r : jsstring) (pv : option N) :
  call_of_match js_eval (done ++ w ++ sp ++ 40%N :: a ++ 41%N :: r)
    (Match (List.length done)
       (MState (S (S (List.length done + List.length w + List.length sp)
                   + List.length a))
          pv r
          [(2%nat, (S (List.length done + List.length w + List.length sp),
                    (S (List.length done + List.length w + List.length sp)
                     + List.length a)%nat));
           (1%nat, (List.length done,
                    (List.length done + List.length w)%nat))]))
  = emit js_eval (w, a).
Proof.
  unfold call_of_match, capture, emit.
  cbn [m_final caps lookup_cap Nat.eqb fst snd].
  rewrite (substring_at _ done w (sp ++ 40%N :: a ++ 41%N :: r)
             _ _ eq_refl eq_refl eq_refl).
  rewrite (substring_at _ (done ++ w ++ sp ++ [40%N]) a (41%N :: r)).
  - reflexivity.
  - rewrite <- !app_assoc. reflexivity.
  - rewrite !length_app. cbn [List.length]. lia.
  - reflexivity.
Qed.

(** The first match from a position on is the first call the scan finds
    there. *)
Lemma search_scan (js_eval : jsstring -> evalOutcome) (s : jsstring) :
  forall (done : jsstring) (pv : option N) (fuel : nat),
    (List.length s < fuel)%nat ->
    match search_from functionCallRegex (List.length done) pv s with
    | None => scan_calls fuel s = []
    | Some m =>
        exists (w a done' : jsstring),
          call_of_match js_eval (done ++ s) m = emit js_eval (w, a)
          /\ scan_calls fuel s = (w, a) :: scan_calls fuel (rest (m_final m))
          /\ done ++ s = done' ++ rest (m_final m)
          /\ pos (m_final m) = List.length done'
          /\ (List.length (rest (m_final m)) < List.length s)%nat
          /\ (m_index m < pos (m_final m))%nat
    end.
Proof.
  induction s as [| c tl IH]; intros done pv fuel Hf.
  - cbn [search_from]. rewrite match_at_spec, call_at_nil.
    apply scan_calls_nil.
  - cbn [search_from]. rewrite match_at_spec.
    destruct (call_at (c :: tl)) as [[[[w sp] a] r] |] eqn:E.
    + exists w, a, (done ++ w ++ sp ++ 40%N :: a ++ [41%N]).
      cbn [m_final m_index rest pos].
      pose proof (call_at_some _ _ _ _ _ E) as (Hs & _).
      rewrite Hs.
      split; [apply call_of_match_at |].
      split; [rewrite <- Hs; now apply (scan_calls_match fuel _ w sp a r) |].
      split; [rewrite <- !app_assoc; cbn [app]; rewrite <- !app_assoc;
              reflexivity |].
      split; [rewrite !length_app; cbn [List.length]; rewrite !length_app;
              cbn [List.length]; lia |].
      split; [rewrite !length_app; cbn [List.length]; rewrite !length_app;
              cbn [List.length]; lia | lia].
    + cbn [List.length] in Hf.
      specialize (IH (done ++ [c]) (Some c) fuel ltac:(lia)).
      rewrite length_app in IH. cbn [List.length] in IH.
      rewrite Nat.add_1_r in IH.
      rewrite (scan_calls_skip fuel c tl) by (cbn [List.length]; lia || exact E).
      destruct (search_from functionCallRegex (S (List.length done)) (Some c) tl)
        as [m |]; [| exact IH].
      destruct IH as (w & a & done' & Hc & Hsc & Hd & Hp & Hl & Hi).
      exists w, a, done'. rewrite <- app_assoc in Hc, Hd. cbn [app] in Hc, Hd.
      repeat split; try assumption. cbn [List.length]. lia.
Qed.

Lemma exec_scan (js_eval : jsstring -> evalOutcome) (fuel : nat) :
  forall (s done : jsstring) (pv : option N),
    (List.length s < fuel)%nat ->
    flat_map (call_of_match js_eval (done ++ s))
      (exec_all_from fuel functionCallRegex (List.length done) pv s)
    = flat_map (emit js_eval) (scan_calls fuel s).
Proof.
  induction fuel as [| f IH]; intros s done pv Hf; [lia |].
  cbn [exec_all_from].
  pose proof (search_scan js_eval s done pv (S f) Hf) as H.
  destruct (search_from functionCallRegex (List.length done) pv s) as [m |].
  - destruct H as (w & a & done' & Hc & Hsc & Hd & Hp & Hl & Hi).
    rewrite Hsc. cbn [flat_map]. rewrite Hc. f_equal.
    replace (pos (m_final m) =? m_index m)%nat with false
      by (symmetry; apply Nat.eqb_neq; lia).
    rewrite Hd, Hp, (IH (rest (m_final m)) done' _) by lia.
    f_equal. apply scan_calls_fuel; lia.
  - now rewrite H.
Qed.

(** The parser emits the calls of the scan, in its order. *)
Lemma parseToolCall_scan (js_eval : jsstring -> evalOutcome)
    (text : jsstring) :
  parseToolCall js_eval text
  = flat_map (emit js_eval) (scan_calls (S (List.length text)) text).
Proof.
  unfold parseToolCall, exec_all.
  apply (exec_scan js_eval (S (List.length text)) text [] None). lia.
Qed.

(** *** Calls one after the other *)

Lemma closed_suffix (a b : jsstring) :
  parentheses_closed (a ++ b) = true -> parentheses_closed b = true.
Proof.
  induction a as [| c a IH]; [auto |]. cbn [app parentheses_closed].
  intros H. andb_hyp H as [_ H]. auto.
Qed.

Lemma closed_open (a b : jsstring) :
  parentheses_closed (a ++ 40%N :: b) = true -> lacks 41 b = false.
Proof.
  intros H. apply closed_suffix in H. cbn [parentheses_closed] in H.
  andb_hyp H as [H _]. cbn in H. now apply negb_true_iff in H.
Qed.

Lemma ends_suffix (a b : jsstring) :
  is_word_opt (prev_after None (a ++ b)) = false ->
  is_word_opt (prev_after None b) = false.
Proof.
  destruct b as [| c b]; [reflexivity |].
  rewrite prev_after_last.
  destruct a as [| d a]; cbn [app].
  - now rewrite prev_after_last.
  - rewrite prev_after_last.
    change (d :: a ++ c :: b) with ((d :: a) ++ c :: b).
    now rewrite last_app_cons.
Qed.

Lemma span_stop (p : N -> bool) (a b : jsstring) :
  forallb p a = true ->
  match b with [] => True | c :: _ => p c = false end ->
  span p (a ++ b) = (a, b).
Proof.
  intros Ha Hb. rewrite (span_app p a b Ha).
  destruct b as [| c b]; cbn [span fst snd].
  - now rewrite app_nil_r.
  - rewrite Hb. cbn [fst snd]. now rewrite app_nil_r.
Qed.

(** Before a name, a text whose parentheses are closed and which does not
    end in a word character holds the same spans as by itself. *)
Lemma call_at_before (pre : jsstring) (x : N) (tl : jsstring) :
  pre <> [] ->
  parentheses_closed pre = true ->
  is_word_opt (prev_after None pre) = false ->
  is_word x = true ->
  call_at (pre ++ x :: tl)
  = match call_at pre with
    | Some (w, sp, a, r) => Some (w, sp, a, r ++ x :: tl)
    | None => None
    end.
Proof.
  intros Hne Hclosed Hend Hx.
  unfold call_at.
  pose proof (span_spec is_word pre) as (Hs & Hw & Hr1).
  destruct (span is_word pre) as [w r1]. cbn [fst snd] in Hs, Hw, Hr1.
  destruct r1 as [| y q].
  { exfalso. rewrite app_nil_r in Hs. subst w.
    destruct pre as [| c pre]; [congruence |].
    rewrite prev_after_last in Hend. cbn [is_word_opt] in Hend.
    now rewrite (forallb_last is_word pre c 0%N Hw) in Hend. }
  rewrite Hs at 1. rewrite <- app_assoc.
  rewrite (span_stop is_word w ((y :: q) ++ x :: tl) Hw Hr1).
  destruct w as [| c w]; [reflexivity |].
  pose proof (span_spec is_space (y :: q)) as (Hq & Hsp & Hr2).
  destruct (span is_space (y :: q)) as [sp r2]. cbn [fst snd] in Hq, Hsp, Hr2.
  rewrite Hq, <- app_assoc.
  destruct r2 as [| d r3].
  { cbn [app].
    rewrite (span_stop is_space sp (x :: tl) Hsp (is_word_not_space x Hx)).
    now rewrite N.eqb_sym, (is_word_not_paren x Hx). }
  rewrite (span_stop is_space sp ((d :: r3) ++ x :: tl) Hsp Hr2).
  cbn [app].
  destruct (N.eqb_spec d 40) as [-> |]; [| reflexivity].
  assert (Hopen : lacks 41 r3 = false).
  { apply (closed_open ((c :: w) ++ sp)). now rewrite <- app_assoc, <- Hq, <- Hs. }
  pose proof (span_spec (fun z => negb (z =? 41)%N) r3) as (Hr3 & Ha & Hr4).
  destruct (span (fun z => negb (z =? 41)%N) r3) as [a r4].
  cbn [fst snd] in Hr3, Ha, Hr4.
  destruct r4 as [| e r5].
  { exfalso. rewrite app_nil_r in Hr3. subst a.
    unfold lacks in Hopen. congruence. }
  rewrite Hr3 at 1. rewrite <- app_assoc.
  rewrite (span_stop _ a ((e :: r5) ++ x :: tl) Ha Hr4).
  reflexivity.
Qed.

Lemma scan_calls_before (x : N) (tl : jsstring) (fuel : nat) :
  is_word x = true ->
  forall (n : nat) (pre : jsstring),
    (List.length pre <= n)%nat ->
    parentheses_closed pre = true ->
    is_word_opt (prev_after None pre) = false ->
    (List.length (pre ++ x :: tl) < fuel)%nat ->
    scan_calls fuel (pre ++ x :: tl)
    = scan_calls fuel pre ++ scan_calls fuel (x :: tl).
Proof.
  intros Hx.
  induction n as [| n IH]; intros pre Hn Hclosed Hend Hf.
  - destruct pre; [| cbn in Hn; lia]. now rewrite scan_calls_nil.
  - destruct pre as [| c pre]; [now rewrite scan_calls_nil |].
    pose proof (call_at_before (c :: pre) x tl ltac:(discriminate) Hclosed
                  Hend Hx) as Hat.
    assert (Hf' : (List.length (c :: pre) < fuel)%nat)
      by (rewrite length_app in Hf; lia).
    destruct (call_at (c :: pre)) as [[[[w sp] a] r] |] eqn:E.
    + rewrite (scan_calls_match fuel _ w sp a (r ++ x :: tl) Hf Hat).
      rewrite (scan_calls_match fuel _ w sp a r Hf' E).
      cbn [app]. f_equal.
      apply call_at_some in E as (Hs & _).
      assert (Hs' : c :: pre = (w ++ sp ++ 40%N :: a ++ [41%N]) ++ r).
      { rewrite Hs, <- !app_assoc. cbn [app]. now rewrite <- !app_assoc. }
      apply IH.
      * apply (f_equal (@List.length N)) in Hs'.
        rewrite !length_app in Hs'. cbn [List.length] in Hs'.
        rewrite !length_app in Hs'. cbn [List.length] in Hs', Hn. lia.
      * apply (closed_suffix (w ++ sp ++ 40%N :: a ++ [41%N])).
        now rewrite <- Hs'.
      * apply (ends_suffix (w ++ sp ++ 40%N :: a ++ [41%N])).
        now rewrite <- Hs'.
      * apply (f_equal (@List.length N)) in Hs'.
        rewrite !length_app in Hf, Hs' |- *. cbn [List.length] in Hf, Hs' |- *.
        rewrite !length_app in Hs'. cbn [List.length] in Hs'. lia.
    + cbn [app] in Hat |- *.
      rewrite (scan_calls_skip fuel c (pre ++ x :: tl) Hf Hat).
      rewrite (scan_calls_skip fuel c pre Hf' E).
      apply IH.
      * cbn [List.length] in Hn. lia.
      * cbn [parentheses_closed] in Hclosed. now andb_hyp Hclosed as [_ H].
      * apply (ends_suffix [c]). exact Hend.
      * cbn [app List.length] in Hf. lia.
Qed.

Lemma call_at_span (name A post : jsstring) :
  name <> [] -> forallb is_word name = true -> lacks 41 A = true ->
  call_at (name ++ 40%N :: A ++ 41%N :: post) = Some (name, [], A, post).
Proof.
  intros Hne Hw HA. unfold call_at.
  rewrite (span_stop is_word name (40%N :: A ++ 41%N :: post) Hw eq_refl).
  destruct name as [| c name]; [congruence |].
  cbn [span is_space]. change (is_space 40) with false. cbv iota.
  change (40 =? 40)%N with true. cbv iota.
  now rewrite (span_stop _ A (41%N :: post) HA eq_refl).
Qed.

(** A span after a text whose parentheses are closed: the calls before
    it, the span's own, and the calls after it. *)
Lemma parseToolCall_span (js_eval : jsstring -> evalOutcome)
    (pre name A post : jsstring) :
  name <> [] -> forallb is_word name = true -> lacks 41 A = true ->
  parentheses_closed pre = true ->
  is_word_opt (prev_after None pre) = false ->
  parseToolCall js_eval (pre ++ call_span name A ++ post)
  = parseToolCall js_eval pre ++ emit js_eval (name, A)
    ++ parseToolCall js_eval post.
Proof.
  intros Hne Hw HA Hclosed Hend.
  assert (Htext : pre ++ call_span name A ++ post
                  = pre ++ name ++ 40%N :: A ++ 41%N :: post).
  { unfold call_span. change (u "(") with [40%N].
    change (u ")") with [41%N]. f_equal. rewrite <- !app_assoc. reflexivity. }
  rewrite Htext, !parseToolCall_scan.
  set (fuel := S (List.length (pre ++ name ++ 40%N :: A ++ 41%N :: post))).
  assert (Hlen : List.length (pre ++ name ++ 40%N :: A ++ 41%N :: post)
                 = (List.length pre + (List.length name
                    + S (List.length A + S (List.length post))))%nat).
  { rewrite !length_app. cbn [List.length]. rewrite length_app. reflexivity. }
  destruct name as [| x name]; [congruence |].
  cbn [forallb] in Hw. pose proof Hw as Hw'. andb_hyp Hw' as [Hx _].
  change (pre ++ (x :: name) ++ 40%N :: A ++ 41%N :: post)
    with (pre ++ x :: (name ++ 40%N :: A ++ 41%N :: post)).
  rewrite (scan_calls_before x _ fuel Hx (List.length pre) pre (le_n _)
             Hclosed Hend)
    by (unfold fuel; cbn [app]; lia).
  change (x :: name ++ 40%N :: A ++ 41%N :: post)
    with ((x :: name) ++ 40%N :: A ++ 41%N :: post).
  assert (Hspan : (List.length ((x :: name) ++ 40%N :: A ++ 41%N :: post)
                   < fuel)%nat).
  { unfold fuel. rewrite Hlen, length_app. cbn [List.length].
    rewrite length_app. cbn [List.length]. lia. }
  rewrite (scan_calls_match fuel _ (x :: name) [] A post Hspan
             (call_at_span (x :: name) A post Hne Hw HA)).
  rewrite flat_map_app. cbn [flat_map].
  rewrite (scan_calls_fuel (S (List.length pre)) fuel pre)
    by (unfold fuel; lia).
  rewrite (scan_calls_fuel (S (List.length post)) fuel post)
    by (unfold fuel; lia).
  reflexivity.
Qed.

(** *** Tokens of the notation *)

Lemma plain_lacks (c : N) (s : jsstring) :
  is_delimiter c = true -> plain_text s = true -> lacks c s = true.
Proof.
  intros Hc. unfold plain_text, lacks.
  induction s as [| x s IH]; [reflexivity |]. cbn [forallb].
  intros H. andb_hyp H as [Hx Hs]. rewrite (IH Hs), andb_true_r.
  destruct (N.eqb_spec x c) as [-> |]; [| reflexivity].
  now rewrite Hc in Hx.
Qed.

Lemma quote_cases (q : N) :
  ((q =? DQ)%N || (q =? SQ)%N) = true -> q = DQ \/ q = SQ.
Proof.
  intros H. apply orb_prop in H as [H | H]; apply N.eqb_eq in H; auto.
Qed.

Lemma starts_number_not (c x : N) :
  starts_number c = true -> starts_number x = false -> (x =? c)%N = false.
Proof.
  intros Hc Hx. destruct (N.eqb_spec x c) as [-> |]; [congruence | reflexivity].
Qed.

Lemma starts_number_not_space (c : N) :
  starts_number c = true -> is_space c = false.
Proof.
  unfold starts_number. intros H.
  destruct (is_digit c) eqn:Hd.
  - apply is_word_not_space, is_digit_word, Hd.
  - cbn [orb] in H.
    repeat (apply orb_prop in H as [H | H]);
      apply N.eqb_eq in H; subst; reflexivity.
Qed.

Lemma render_lacks (c : N) (a : argument) :
  is_delimiter c = true -> well_formed a = true -> lacks c (render a) = true.
Proof.
  intros Hc Ha. destruct a as [q s | | b | lexeme]; cbn [render well_formed] in *.
  - andb_hyp Ha as [Hq Hs].
    pose proof (plain_lacks c s Hc Hs) as Hl.
    change (q :: s ++ [q]) with ([q] ++ s ++ [q]).
    rewrite !lacks_app, Hl. cbn [lacks forallb].
    assert (Hqc : (q =? c)%N = false).
    { destruct (N.eqb_spec q c) as [<- |]; [| reflexivity].
      destruct (quote_cases q Hq) as [-> | ->]; discriminate Hc. }
    now rewrite Hqc.
  - revert Hc. unfold is_delimiter.
    intros H. repeat (apply orb_prop in H as [H | H]);
      apply N.eqb_eq in H; subst; reflexivity.
  - revert Hc. unfold is_delimiter.
    intros H. repeat (apply orb_prop in H as [H | H]);
      apply N.eqb_eq in H; subst; destruct b; reflexivity.
  - andb_hyp Ha as [Ha _]. andb_hyp Ha as [Ha _].
    now apply plain_lacks.
Qed.

Lemma render_tight (a : argument) : well_formed a = true -> tight (render a) = true.
Proof.
  intros Ha. destruct a as [q s | | b | lexeme]; cbn [render well_formed] in *.
  - andb_hyp Ha as [Hq _]. unfold tight.
    change (q :: s ++ [q]) with ((q :: s) ++ [q]). rewrite last_last.
    cbn [app]. destruct (quote_cases q Hq) as [-> | ->]; reflexivity.
  - reflexivity.
  - destruct b; reflexivity.
  - andb_hyp Ha as [_ Ha].
    destruct lexeme as [| c l]; [discriminate |].
    andb_hyp Ha as [Hc Hl]. unfold tight.
    now rewrite (starts_number_not_space c Hc), Hl.
Qed.

Lemma startsWith_nil (s : jsstring) : startsWith s [] = true.
Proof. now destruct s. Qed.

Lemma quoted_token (q : N) (s : jsstring) :
  quoted_by q (q :: s ++ [q]) = true /\ slice_1_m1 (q :: s ++ [q]) = s.
Proof.
  split.
  - unfold quoted_by, endsWith. cbn [startsWith rev]. rewrite N.eqb_refl.
    rewrite rev_app_distr. cbn [rev app startsWith].
    now rewrite N.eqb_refl, !startsWith_nil.
  - cbn [slice_1_m1]. apply removelast_last.
Qed.

Lemma coerce_render (a : argument) (v : value) :
  well_formed a = true -> denotes a = Some v -> coerce (render a) = [v].
Proof.
  intros Ha Hv. destruct a as [q s | | b | lexeme];
    cbn [render well_formed denotes] in *.
  - injection Hv as <-. andb_hyp Ha as [Hq _].
    destruct (quoted_token q s) as [Hquoted Hslice].
    unfold coerce. destruct (quote_cases q Hq) as [-> | ->].
    + now rewrite Hquoted, Hslice.
    + change (quoted_by DQ (SQ :: s ++ [SQ])) with false. cbv iota.
      now rewrite Hquoted, Hslice.
  - injection Hv as <-. reflexivity.
  - injection Hv as <-. now destruct b.
  - andb_hyp Ha as [Ha Hshape]. andb_hyp Ha as [_ Hnum].
    destruct lexeme as [| c l]; [discriminate |].
    andb_hyp Hshape as [Hc _].
    unfold isNaN in Hnum.
    destruct (StringToNumber (c :: l)) as [n |] eqn:En; [| discriminate].
    cbn [option_map] in Hv. injection Hv as <-.
    unfold coerce, quoted_by. cbn [startsWith str_eqb u].
    rewrite (starts_number_not c DQ Hc eq_refl).
    rewrite (starts_number_not c SQ Hc eq_refl).
    rewrite !(fun x H => eq_trans (N.eqb_sym c x) (starts_number_not c x Hc H))
      by reflexivity.
    cbn [andb orb]. now rewrite En.
Qed.

Lemma denotes_values (args : list argument) (vals : list value) :
  forallb well_formed args = true ->
  map denotes args = map Some vals ->
  flat_map coerce (map render args) = vals.
Proof.
  revert vals. induction args as [| a args IH]; intros [| v vals] Hwf Hv;
    try discriminate; [reflexivity |].
  cbn [forallb] in Hwf. andb_hyp Hwf as [Ha Hargs].
  cbn [map] in Hv. injection Hv as Hv Hvs.
  cbn [map flat_map]. rewrite (coerce_render a v Ha Hv), (IH vals Hargs Hvs).
  reflexivity.
Qed.

Lemma forallb_render (p : jsstring -> bool) (args : list argument) :
  (forall a, well_formed a = true -> p (render a) = true) ->
  forallb well_formed args = true ->
  forallb p (map render args) = true.
Proof.
  intros Hp. induction args as [| a args IH]; [reflexivity |].
  cbn [forallb map]. intros H. andb_hyp H as [Ha Hargs].
  now rewrite (Hp a Ha), (IH Hargs).
Qed.

(** The parameters read back from a rendered argument list. *)
Lemma parse_params_rendered (js_eval : jsstring -> evalOutcome)
    (args : list argument) (vals : list value) :
  forallb well_formed args = true ->
  map denotes args = map Some vals ->
  parse_params js_eval (trim (join (u ", ") (map render args))) = vals.
Proof.
  intros Hwf Hv.
  destruct args as [| a args].
  - destruct vals; [reflexivity | discriminate].
  - assert (Hne : map render (a :: args) <> []) by discriminate.
    pose proof (forallb_render tight (a :: args) render_tight Hwf) as Htight.
    pose proof (fun c Hc => forallb_render (lacks c) (a :: args)
                              (fun a => render_lacks c a Hc) Hwf) as Hlacks.
    rewrite (trim_tight _ (tight_join _ Hne Htight)).
    pose proof (tight_join _ Hne Htight) as Hj.
    unfold parse_params.
    destruct (join (u ", ") (map render (a :: args))) as [| c j] eqn:Ej;
      [discriminate Hj |].
    rewrite <- Ej. unfold try_params.
    change (u "[") with [91%N]. change (u "{") with [123%N].
    rewrite (includes_single 91), (includes_single 123);
      try (apply lacks_join; [reflexivity | reflexivity |];
           apply Hlacks; reflexivity).
    cbn [orb]. rewrite (paramParts_join _ Hne (Hlacks 44%N eq_refl) Htight).
    now apply denotes_values.
Qed.

(** *** The registry *)

Lemma registered_name (name : jsstring) (d : toolDescriptor) :
  own_property name AVAILABLE_TOOLS = Some d ->
  forallb is_word name = true /\ name <> []
  /\ lookup_tool name = Some (Registered d).
Proof.
  intros H. split; [| split].
  - unfold AVAILABLE_TOOLS in H. cbn [map own_property Parser.name] in H.
    repeat match type of H with
           | (if str_eqb ?k name then _ else _) = _ =>
               destruct (str_eqb k name) eqn:E;
               [apply str_eqb_eq in E; subst name; reflexivity | clear E]
           end.
    discriminate H.
  - intros ->. discriminate H.
  - unfold lookup_tool. now rewrite H.
Qed.

Lemma emit_registered (js_eval : jsstring -> evalOutcome) (name : jsstring)
    (d : toolDescriptor) (A : jsstring) :
  own_property name AVAILABLE_TOOLS = Some d ->
  emit js_eval (name, A)
  = [Call name (parse_params js_eval (trim A)) (Registered d)].
Proof.
  intros H. unfold emit. cbn [fst snd].
  now destruct (registered_name name d H) as (_ & _ & ->).
Qed.

Lemma scan_calls_no_open (fuel : nat) :
  forall s : jsstring, lacks 40 s = true -> scan_calls fuel s = [].
Proof.
  induction fuel as [| f IH]; intros s Hl; [reflexivity |].
  rewrite scan_calls_S.
  destruct (call_at s) as [[[[w sp] a] r] |] eqn:E.
  - apply call_at_some in E as (-> & _).
    rewrite !lacks_app in Hl. andb_hyp Hl as [_ Hl]. andb_hyp Hl as [_ Hl].
    discriminate Hl.
  - destruct s as [| c tl]; [reflexivity |].
    cbn [lacks forallb] in Hl. andb_hyp Hl as [_ Hl]. now apply IH.
Qed.

Lemma lacks_closed (s : jsstring) :
  lacks 40 s = true -> parentheses_closed s = true.
Proof.
  induction s as [| c s IH]; [reflexivity |].
  cbn [lacks forallb parentheses_closed]. intros H. andb_hyp H as [Hc Hs].
  apply negb_true_iff in Hc. rewrite Hc. now apply IH.
Qed.

Lemma first_call_of_span (js_eval : jsstring -> evalOutcome) (name : jsstring)
    (d : toolDescriptor) (A pre post : jsstring) :
  own_property name AVAILABLE_TOOLS = Some d ->
  lacks 41 A = true ->
  lacks 40 pre = true ->
  is_word_opt (prev_after None pre) = false ->
  exists more,
    parseToolCall js_eval (pre ++ call_span name A ++ post)
    = Call name (parse_params js_eval (trim A)) (Registered d) :: more.
Proof.
  intros Hreg HA Hpre Hlast.
  destruct (registered_name name d Hreg) as (Hword & Hne & _).
  rewrite (parseToolCall_span js_eval pre name A post Hne Hword HA
             (lacks_closed pre Hpre) Hlast).
  rewrite (parseToolCall_scan js_eval pre), (scan_calls_no_open _ pre Hpre).
  rewrite (emit_registered js_eval name d A Hreg).
  eexists. reflexivity.
Qed.

Lemma only_call_of_span (js_eval : jsstring -> evalOutcome) (name : jsstring)
    (d : toolDescriptor) (A : jsstring) :
  own_property name AVAILABLE_TOOLS = Some d ->
  lacks 41 A = true ->
  parseToolCall js_eval (call_span name A)
  = [Call name (parse_params js_eval (trim A)) (Registered d)].
Proof.
  intros Hreg HA.
  destruct (registered_name name d Hreg) as (Hword & Hne & _).
  pose proof (parseToolCall_span js_eval [] name A [] Hne Hword HA eq_refl
                eq_refl) as H.
  cbn [app] in H. rewrite app_nil_r in H. rewrite H.
  now rewrite (emit_registered js_eval name d A Hreg).
Qed.

Lemma rendered_lacks_paren (args : list argument) :
  forallb well_formed args = true ->
  lacks 41 (join (u ", ") (map render args)) = true.
Proof.
  intros Hwf. apply lacks_join; [reflexivity | reflexivity |].
  apply forallb_render; [| exact Hwf].
  intros a Ha. now apply render_lacks.
Qed.

Lemma emitted_calls_are_properties (js_eval : jsstring -> evalOutcome)
    (text : jsstring) (call : ParsedCall) :
  In call (parseToolCall js_eval text) ->
  lookup_tool (functionName call) = Some (tool call).
Proof.
  unfold parseToolCall. intros H. apply in_flat_map in H as (m & _ & H).
  unfold call_of_match in H.
  destruct (capture text m 1) as [fname |]; [| destruct H].
  destruct (capture text m 2) as [a |]; [| destruct H].
  destruct (lookup_tool fname) as [t |] eqn:E; [| destruct H].
  destruct H as [<- | []]. exact E.
Qed.

Lemma lookup_tool_cases (fname : jsstring) (t : toolRef) :
  lookup_tool fname = Some t ->
  is_registered fname = true \/ In fname Object_prototype_names.
Proof.
  unfold lookup_tool, is_registered.
  destruct (own_property fname AVAILABLE_TOOLS); [now left |].
  destruct (existsb (str_eqb fname) Object_prototype_names) eqn:E;
    [| discriminate].
  intros _. right. apply existsb_exists in E as (x & Hin & Hx).
  apply str_eqb_eq in Hx. now subst.
Qed.

(** C1, amended.  For a registered tool name and arguments that are quoted
    strings free of commas, closing parentheses, square brackets and
    braces, the keywords [null], [true], [false], or decimal numbers: in
    any text where [name(arg, ...)] is not preceded by a word character
    and every opening parenthesis before it is followed by a closing one
    before it, the parser emits the calls of the text before the span,
    then one call with exactly that name and the argument values in order,
    then the calls of the text after the span; on the text
    [name(arg, ...)] alone that call is the only one.  For an argument
    list with a square bracket, the parameters are the elements of the
    array the evaluator returns for the bracketed list.  A span whose
    identifier is not a property of the registry object contributes no
    call: the parser emits the calls before it and the calls after it.
    Every call emitted carries an identifier that is a property of the
    registry object: a registered name or a name inherited from
    [Object.prototype]; [foo(1,2)] parses to the empty sequence. *)
Theorem parseToolCall_recovers_call (js_eval : jsstring -> evalOutcome)
    (name : jsstring) (d : toolDescriptor) (args : list argument)
    (vals : list value) (pre post : jsstring) :
  own_property name AVAILABLE_TOOLS = Some d ->
  forallb well_formed args = true ->
  map denotes args = map Some vals ->
  parentheses_closed pre = true ->
  is_word_opt (prev_after None pre) = false ->
  parseToolCall js_eval (pre ++ call_notation name args ++ post)
  = parseToolCall js_eval pre
    ++ Call name vals (Registered d) :: parseToolCall js_eval post
  /\ parseToolCall js_eval (call_notation name args)
     = [Call name vals (Registered d)]
  /\ (forall (argsText : jsstring) (items : list value),
        lacks 41 argsText = true ->
        includes (trim argsText) (u "[") = true ->
        js_eval (u "[" ++ trim argsText ++ u "]") = Evaluated (VArr items) ->
        parseToolCall js_eval (pre ++ call_span name argsText ++ post)
        = parseToolCall js_eval pre
          ++ Call name items (Registered d) :: parseToolCall js_eval post)
  /\ (forall (identifier argsText : jsstring),
        identifier <> [] ->
        forallb is_word identifier = true ->
        lookup_tool identifier = None ->
        lacks 41 argsText = true ->
        parseToolCall js_eval (pre ++ call_span identifier argsText ++ post)
        = parseToolCall js_eval pre ++ parseToolCall js_eval post)
  /\ (forall text call,
        In call (parseToolCall js_eval text) ->
        lookup_tool (functionName call) = Some (tool call)
        /\ (is_registered (functionName call) = true
            \/ In (functionName call) Object_prototype_names))
  /\ parseToolCall js_eval (u "foo(1,2)") = [].
Proof.
  intros Hreg Hwf Hv Hpre Hlast.
  pose proof (rendered_lacks_paren args Hwf) as HA.
  pose proof (parse_params_rendered js_eval args vals Hwf Hv) as Hparams.
  destruct (registered_name name d Hreg) as (Hword & Hne & _).
  split; [| split; [| split; [| split; [| split]]]].
  - unfold call_notation.
    rewrite (parseToolCall_span js_eval pre name _ post Hne Hword HA Hpre
               Hlast).
    now rewrite (emit_registered js_eval name d _ Hreg), Hparams.
  - unfold call_notation.
    now rewrite (only_call_of_span js_eval name d _ Hreg HA), Hparams.
  - intros argsText items Hparen Hbracket Heval.
    rewrite (parseToolCall_span js_eval pre name argsText post Hne Hword
               Hparen Hpre Hlast).
    rewrite (emit_registered js_eval name d argsText Hreg).
    cbn [app]. do 3 f_equal.
    unfold parse_params, try_params.
    destruct (trim argsText) as [| c t] eqn:Et; [discriminate Hbracket |].
    now rewrite Hbracket, Heval.
  - intros identifier argsText Hi Hw Hnone Hparen.
    rewrite (parseToolCall_span js_eval pre identifier argsText post Hi Hw
               Hparen Hpre Hlast).
    unfold emit. cbn [fst]. now rewrite Hnone.
  - intros text call Hin.
    pose proof (emitted_calls_are_properties js_eval text call Hin) as H.
    split; [exact H |]. now apply (lookup_tool_cases _ _ H).
  - vm_compute. reflexivity.
Qed.

Lemma parseToolCall_recovers_call_witness :
  let pre := u "First getTodoStats() then " in
  let post := u " and deleteTodoById(1), done (2)" in
  let args := [AString DQ (u "buy milk"); AString SQ (u "high");
               ANumber (u "3.5"); ANull; ABool true] in
  let vals := [VStr (u "buy milk"); VStr (u "high"); VNum (7 # 2); VNull;
               VBool true] in
  parseToolCall literal_eval
    (pre ++ call_notation (u "createTodo") args ++ post)
  = parseToolCall literal_eval pre
    ++ Call (u "createTodo") vals (Registered createTodo_tool)
       :: parseToolCall literal_eval post
  /\ parseToolCall literal_eval (call_notation (u "createTodo") args)
     = [Call (u "createTodo") vals (Registered createTodo_tool)]
  /\ (forall (argsText : jsstring) (items : list value),
        lacks 41 argsText = true ->
        includes (trim argsText) (u "[") = true ->
        literal_eval (u "[" ++ trim argsText ++ u "]")
        = Evaluated (VArr items) ->
        parseToolCall literal_eval
          (pre ++ call_span (u "createTodo") argsText ++ post)
        = parseToolCall literal_eval pre
          ++ Call (u "createTodo") items (Registered createTodo_tool)
             :: parseToolCall literal_eval post)
  /\ (forall (identifier argsText : jsstring),
        identifier <> [] ->
        forallb is_word identifier = true ->
        lookup_tool identifier = None ->
        lacks 41 argsText = true ->
        parseToolCall literal_eval
          (pre ++ call_span identifier argsText ++ post)
        = parseToolCall literal_eval pre ++ parseToolCall literal_eval post)
  /\ (forall text call,
        In call (parseToolCall literal_eval text) ->
        lookup_tool (functionName call) = Some (tool call)
        /\ (is_registered (functionName call) = true
            \/ In (functionName call) Object_prototype_names))
  /\ parseToolCall literal_eval (u "foo(1,2)") = [].
Proof.
  apply (parseToolCall_recovers_call literal_eval (u "createTodo")
           createTodo_tool
           [AString DQ (u "buy milk"); AString SQ (u "high");
            ANumber (u "3.5"); ANull; ABool true]
           [VStr (u "buy milk"); VStr (u "high"); VNum (7 # 2); VNull;
            VBool true]
           (u "First getTodoStats() then ")
           (u " and deleteTodoById(1), done (2)"));
    vm_compute; reflexivity.
Defined.

(** The calls around the span of the example are parsed as well. *)
Lemma calls_before_and_after :
  parseToolCall literal_eval (u "First getTodoStats() then ")
  = [Call (u "getTodoStats") [] (Registered (Tool (u "getTodoStats") []
                                              fn_getTodoStats))]
  /\ parseToolCall literal_eval (u " and deleteTodoById(1), done (2)")
     = [Call (u "deleteTodoById") [VNum 1]
          (Registered (Tool (u "deleteTodoById") [req "id" "number"]
                         fn_deleteTodoById))].
Proof. split; vm_compute; reflexivity. Qed.

(** C1 as stated fails: a comma inside a quoted string splits the
    argument in two, a name that follows a word character is read as
    part of a longer, unregistered identifier, and a span that follows an
    opening parenthesis left open is read as the argument text of the
    identifier before that parenthesis. *)
Lemma comma_in_string_splits_argument :
  parseToolCall literal_eval
    (u "createTodo(" ++ quoted (u "milk, eggs") ++ u ")")
  = [Call (u "createTodo") [VStr (DQ :: u "milk"); VStr (u "eggs" ++ [DQ])]
       (Registered createTodo_tool)]
  /\ parseToolCall literal_eval
       (u "createTodo(" ++ quoted (u "milk, eggs") ++ u ")")
     <> [Call (u "createTodo") [VStr (u "milk, eggs")]
           (Registered createTodo_tool)]
  /\ parseToolCall literal_eval (u "xgetTodoStats()") = []
  /\ parseToolCall literal_eval (u "see (getTodoStats()") = [].
Proof.
  split; [vm_compute; reflexivity |].
  split; [vm_compute; discriminate |].
  split; vm_compute; reflexivity.
Qed.

(** A name inherited from [Object.prototype] passes the registry check:
    the span [toString(1)] is turned into a call. *)
Lemma inherited_name_is_parsed :
  is_registered (u "toString") = false
  /\ parseToolCall literal_eval (u "toString(1)")
     = [Call (u "toString") [VNum 1] (Inherited (u "toString"))].
Proof. split; vm_compute; reflexivity. Qed.

(** *** List literals and the fallback *)

Lemma parse_params_fallback (js_eval : jsstring -> evalOutcome)
    (paramsStr : jsstring) :
  paramsStr <> [] ->
  includes paramsStr (u "[") || includes paramsStr (u "{") = true ->
  js_eval (u "[" ++ paramsStr ++ u "]") = Raised
  \/ (exists v, js_eval (u "[" ++ paramsStr ++ u "]") = Evaluated v
                /\ spread v = None) ->
  parse_params js_eval paramsStr = map coerce_fallback (paramParts paramsStr).
Proof.
  intros Hne Hbr Hev. unfold parse_params, try_params.
  destruct paramsStr as [| c s]; [congruence |]. rewrite Hbr.
  destruct Hev as [-> | (v & -> & ->)]; reflexivity.
Qed.

(** The fallback of the parser.  When the evaluator yields the list for
    [[1, 2, 3]], the argument list [[1, 2, 3]] parses to one parameter,
    the ordered list of the three integers.  When evaluating a bracketed
    argument list raises, or yields something that cannot be spread, the
    parser does not raise: it splits the whole argument list on commas,
    trims each token and coerces it by the rule of the [catch] branch: a
    token in double quotes becomes the string between them, a non-empty
    numeric token its number, a token that is not a number the raw
    string. *)
Lemma list_literal_and_fallback (js_eval : jsstring -> evalOutcome) :
  (js_eval (u "[[1, 2, 3]]")
   = Evaluated (VArr [VArr [VNum 1; VNum 2; VNum 3]]) ->
   parseToolCall js_eval (u "deleteTodosByIds([1, 2, 3])")
   = [Call (u "deleteTodosByIds") [VArr [VNum 1; VNum 2; VNum 3]]
        (Registered deleteTodosByIds_tool)])
  /\ (forall paramsStr,
        paramsStr <> [] ->
        includes paramsStr (u "[") || includes paramsStr (u "{") = true ->
        js_eval (u "[" ++ paramsStr ++ u "]") = Raised
        \/ (exists v, js_eval (u "[" ++ paramsStr ++ u "]") = Evaluated v
                      /\ spread v = None) ->
        parse_params js_eval paramsStr
        = map coerce_fallback (map trim (split 44 paramsStr)))
  /\ (forall part,
        (quoted_by DQ part = true ->
         coerce_fallback part = VStr (slice_1_m1 part))
        /\ (quoted_by DQ part = false -> part <> [] ->
            forall n, StringToNumber part = Some n ->
                      coerce_fallback part = num_value n)
        /\ (quoted_by DQ part = false -> isNaN part = true ->
            coerce_fallback part = VStr part)).
Proof.
  split; [| split].
  - intros Hev. vm_compute in Hev. vm_compute. rewrite Hev. reflexivity.
  - intros paramsStr. apply parse_params_fallback.
  - intros part. unfold coerce_fallback, isNaN. repeat split.
    + now intros ->.
    + intros -> _ n ->. reflexivity.
    + intros ->. now destruct (StringToNumber part).
Qed.

(** C7.  The list literal [[1, 2, 3]] parses to the ordered list of the
    three integers.  On the malformed list of
    [deleteTodosByIds([1, null, 'a')] the evaluator raises and the parser
    falls back without raising, but not to the coercion of a bracket-free
    argument list: that coercion yields the null value and the string [a]
    for the last two tokens, the fallback keeps [null] and ['a'] as raw
    strings. *)
Theorem malformed_list_fallback_differs :
  parseToolCall literal_eval (u "deleteTodosByIds([1, 2, 3])")
  = [Call (u "deleteTodosByIds") [VArr [VNum 1; VNum 2; VNum 3]]
       (Registered deleteTodosByIds_tool)]
  /\ literal_eval (u "[[1, null, 'a']") = Raised
  /\ parseToolCall literal_eval malformed_list_call
     = [Call (u "deleteTodosByIds")
          [VStr (u "[1"); VStr (u "null"); VStr (u "'a'")]
          (Registered deleteTodosByIds_tool)]
  /\ flat_map coerce (paramParts (u "[1, null, 'a'"))
     = [VStr (u "[1"); VNull; VStr (u "a")]
  /\ parse_params literal_eval (u "[1, null, 'a'")
     <> flat_map coerce (paramParts (u "[1, null, 'a'")).
Proof.
  repeat split; try (vm_compute; reflexivity). vm_compute. discriminate.
Qed.

(** ** What a match reads *)

Lemma reads_refl (st : mstate) : reads st [] st.
Proof. split; [reflexivity | cbn; lia]. Qed.

Lemma reads_trans (a b c : mstate) (w v : jsstring) :
  reads a w b -> reads b v c -> reads a (w ++ v) c.
Proof.
  unfold reads. intros [Hr Hp] [Hr' Hp']. split.
  - rewrite Hr, Hr', app_assoc. reflexivity.
  - rewrite length_app. lia.
Qed.

Lemma reads_advance (st : mstate) (c : N) (tl : jsstring) :
  rest st = c :: tl -> reads st [c] (advance c tl st).
Proof. unfold reads, advance. intros ->. cbn. split; [reflexivity | lia]. Qed.

Lemma reads_set_cap (st st' : mstate) (w : jsstring) (n a b : nat) :
  reads st w st' -> reads st w (set_cap n a b st').
Proof. exact (fun H => H). Qed.

(** A successful match hands its continuation the state reached by reading
    a prefix of the text that is left, a non-empty one when the expression
    consumes. *)
Lemma rmatch_reads (ci : bool) (r : regex) :
  forall (k : cont) (st x : mstate),
    rmatch ci r k st = Some x ->
    exists w st', reads st w st' /\ (consumes r = true -> w <> [])
                  /\ k st' = Some x.
Proof.
  induction r as [| | neg items | a IHa b IHb | a IHa b IHb | g a IHa
                  | n a IHa | | |]; intros k st x H; cbn [rmatch] in H;
    cbn [consumes].
  - exists [], st. split; [apply reads_refl | split; [discriminate | exact H]].
  - destruct (rest st) as [| c tl] eqn:E; [discriminate |].
    destruct (is_line_terminator c); [discriminate |].
    exists [c], (advance c tl st).
    split; [now apply reads_advance | split; [discriminate | exact H]].
  - destruct (rest st) as [| c tl] eqn:E; [discriminate |].
    destruct (xorb neg (in_class ci items c)); [| discriminate].
    exists [c], (advance c tl st).
    split; [now apply reads_advance | split; [discriminate | exact H]].
  - apply IHa in H as (w1 & st1 & H1 & C1 & H).
    apply IHb in H as (w2 & st2 & H2 & C2 & H).
    exists (w1 ++ w2), st2. split; [now apply (reads_trans st st1 st2) |].
    split; [| exact H].
    intros Hc Happ. apply app_eq_nil in Happ as [-> ->].
    apply orb_prop in Hc as [Hc | Hc]; [now apply C1 | now apply C2].
  - unfold orelse in H. destruct (rmatch ci a k st) eqn:Ea.
    + injection H as <-. apply IHa in Ea as (w & st' & Hr & C & Hk).
      exists w, st'. split; [exact Hr | split; [| exact Hk]].
      intros Hc. apply andb_prop in Hc as [Hc _]. now apply C.
    + apply IHb in H as (w & st' & Hr & C & Hk).
      exists w, st'. split; [exact Hr | split; [| exact Hk]].
      intros Hc. apply andb_prop in Hc as [_ Hc]. now apply C.
  - assert (Hloop : forall fuel st x,
              star_loop (rmatch ci a) g k fuel st = Some x ->
              exists w st', reads st w st' /\ k st' = Some x).
    { clear st x H. induction fuel as [| f IHf]; intros st x H.
      - exists [], st. split; [apply reads_refl | exact H].
      - cbn [star_loop] in H.
        assert (Hagain : forall y,
          rmatch ci a (fun st' => if (pos st <? pos st')%nat
                                  then star_loop (rmatch ci a) g k f st'
                                  else None) st = Some y ->
          exists w st', reads st w st' /\ k st' = Some y).
        { intros y Hy. apply IHa in Hy as (w1 & st1 & H1 & _ & Hy).
          destruct (pos st <? pos st1)%nat; [| discriminate].
          apply IHf in Hy as (w2 & st2 & H2 & Hy).
          exists (w1 ++ w2), st2.
          split; [now apply (reads_trans st st1 st2) | exact Hy]. }
        unfold orelse in H. destruct g.
        + destruct (rmatch ci a _ st) eqn:Ea.
          * injection H as <-. now apply Hagain.
          * exists [], st. split; [apply reads_refl | exact H].
        + destruct (k st) eqn:Ek.
          * injection H as <-. exists [], st.
            split; [apply reads_refl | exact Ek].
          * now apply Hagain. }
    apply Hloop in H as (w & st' & Hr & Hk).
    exists w, st'. split; [exact Hr | split; [discriminate | exact Hk]].
  - apply IHa in H as (w & st1 & H1 & C & H). exists w. eexists.
    split; [apply reads_set_cap, H1 | split; [exact C | exact H]].
  - destruct (pos st =? 0)%nat; [| discriminate].
    exists [], st. split; [apply reads_refl | split; [discriminate | exact H]].
  - destruct (rest st); [| discriminate].
    exists [], st. split; [apply reads_refl | split; [discriminate | exact H]].
  - destruct (xorb _ _); [| discriminate].
    exists [], st. split; [apply reads_refl | split; [discriminate | exact H]].
Qed.

(** A match of a consuming pattern is not empty, and lies within the text. *)
Lemma search_from_consumes (p : pattern) (s : jsstring) :
  consumes (p_re p) = true ->
  forall (i : nat) (pv : option N) (m : rmatch_result),
    search_from p i pv s = Some m ->
    (i <= m_index m < m_end m)%nat /\ (m_end m <= i + List.length s)%nat.
Proof.
  intros Hc. induction s as [| c tl IH]; intros i pv m H;
    cbn [search_from] in H;
    destruct (match_at p i pv _) as [fin |] eqn:E; try discriminate.
  - injection H as <-. unfold match_at in E.
    apply rmatch_reads in E as (w & st' & [Hr Hp] & C & Hk).
    injection Hk as ->. cbn [rest pos] in *. unfold m_end. cbn [m_index m_final].
    destruct w as [| x w]; [exfalso; now apply C |]. discriminate Hr.
  - injection H as <-. unfold match_at in E.
    apply rmatch_reads in E as (w & st' & [Hr Hp] & C & Hk).
    injection Hk as ->. cbn [rest pos] in *. unfold m_end. cbn [m_index m_final].
    destruct w as [| x w]; [exfalso; now apply C |].
    apply (f_equal (@List.length N)) in Hr. rewrite length_app in Hr.
    cbn [List.length] in *. lia.
  - apply IH in H. cbn [List.length]. lia.
Qed.

(** ** Decimal digits *)

Lemma digits_acc (d : Decimal.uint) :
  forall acc : positive,
    fold_left (fun acc c => (10 * acc + (c - 48))%N)
      (u (NilEmpty.string_of_uint d)) (Npos acc)
    = Npos (Pos.of_uint_acc d acc).
Proof.
  induction d as [| d IH | d IH | d IH | d IH | d IH | d IH | d IH | d IH
                  | d IH | d IH]; intros acc;
    [reflexivity | ..];
    cbn [NilEmpty.string_of_uint u fold_left Pos.of_uint_acc];
    rewrite <- IH; f_equal;
    try (match goal with
         | |- context [N_of_ascii ?c] =>
             let v := eval vm_compute in (N_of_ascii c) in
             change (N_of_ascii c) with v
         end; lia).
Qed.

Lemma digits_of_uint (d : Decimal.uint) :
  digits_value (u (NilEmpty.string_of_uint d)) = N.of_uint d.
Proof.
  unfold digits_value, N.of_uint.
  induction d as [| d IH | d IH | d IH | d IH | d IH | d IH | d IH | d IH
                  | d IH | d IH];
    [reflexivity | exact IH | ..];
    cbn [NilEmpty.string_of_uint u fold_left Pos.of_uint];
    rewrite <- digits_acc; reflexivity.
Qed.

Lemma uint_digits (d : Decimal.uint) :
  forallb is_digit (u (NilEmpty.string_of_uint d)) = true.
Proof.
  induction d; cbn [NilEmpty.string_of_uint u forallb]; try reflexivity;
    rewrite IHd; reflexivity.
Qed.

(** [String(n)] is a non-empty run of digits whose value is [n]. *)
Lemma Number_toString_digits (n : N) :
  forallb is_digit (Number_toString n) = true
  /\ Number_toString n <> []
  /\ digits_value (Number_toString n) = n.
Proof.
  unfold Number_toString, NilZero.string_of_uint.
  pose proof (DecimalN.Unsigned.of_to n) as Hn.
  destruct (N.to_uint n) as [| d | d | d | d | d | d | d | d | d | d] eqn:E.
  1: { cbn in Hn. subst n.
       split; [reflexivity | split; [discriminate | reflexivity]]. }
  all: rewrite <- Hn, <- digits_of_uint;
    (split; [apply uint_digits | split; [discriminate | reflexivity]]).
Qed.

Lemma Qred_integer (z : Z) : Qred (inject_Z z) = inject_Z z.
Proof.
  unfold Qred, inject_Z.
  pose proof (Z.ggcd_gcd z 1) as Hg.
  pose proof (Z.ggcd_correct_divisors z 1) as Hd.
  destruct (Z.ggcd z 1) as [g [a b]]. cbn [fst snd] in *.
  rewrite Z.gcd_1_r in Hg. subst g. destruct Hd as [Ha Hb].
  rewrite Z.mul_1_l in Ha, Hb. subst a b. reflexivity.
Qed.

Lemma span_all (p : N -> bool) (s : jsstring) :
  forallb p s = true -> span p s = (s, []).
Proof.
  induction s as [| c s IH]; [reflexivity |].
  cbn [forallb span]. intros H. andb_hyp H as [Hc Hs].
  rewrite Hc, (IH Hs). reflexivity.
Qed.

Lemma is_digit_not_space (c : N) : is_digit c = true -> is_space c = false.
Proof. intros H. apply is_word_not_space, is_digit_word, H. Qed.

Lemma digits_tight (c : N) (s : jsstring) :
  forallb is_digit (c :: s) = true -> tight (c :: s) = true.
Proof.
  intros H. unfold tight.
  rewrite (is_digit_not_space (last (c :: s) 0%N))
    by (apply forallb_last; exact H).
  cbn [forallb] in H. andb_hyp H as [Hc _].
  rewrite (is_digit_not_space c Hc). reflexivity.
Qed.

Lemma is_digit_range (c : N) : is_digit c = true -> (48 <= c <= 57)%N.
Proof.
  unfold is_digit, between. intros H. andb_hyp H as [H1 H2].
  apply N.leb_le in H1, H2. lia.
Qed.

Lemma digit_cases (c : N) :
  is_digit c = true ->
  c = 48%N \/ c = 49%N \/ c = 50%N \/ c = 51%N \/ c = 52%N \/ c = 53%N
  \/ c = 54%N \/ c = 55%N \/ c = 56%N \/ c = 57%N.
Proof. intros H. apply is_digit_range in H. lia. Qed.

Lemma str_decimal_digits (c : N) (s : jsstring) :
  forallb is_digit (c :: s) = true ->
  str_decimal (c :: s)
  = Some (Finite (inject_Z (Z.of_N (digits_value (c :: s))))).
Proof.
  intros H.
  assert (Hu : unsigned_decimal (c :: s)
               = Some (inject_Z (Z.of_N (digits_value (c :: s))))).
  { unfold unsigned_decimal. rewrite (span_all is_digit (c :: s) H).
    cbn [exponent_part]. rewrite app_nil_r. cbn [List.length Z.of_nat].
    unfold scale10. cbn [Z.sub Z.opp Z.add Z.leb Z.compare].
    change (10 ^ 0)%Z with 1%Z. rewrite Z.mul_1_r, Qred_integer.
    reflexivity. }
  assert (Hc : is_digit c = true)
    by (cbn [forallb] in H; andb_hyp H as [Hc _]; exact Hc).
  unfold str_decimal.
  destruct (digit_cases c Hc) as [-> | [-> | [-> | [-> | [-> | [-> | [-> | [->
    | [-> | ->]]]]]]]]]; cbn [u str_eqb N.eqb Pos.eqb andb N_of_ascii];
    rewrite Hu; reflexivity.
Qed.

(** [Number] of a run of digits. *)
Lemma StringToNumber_digits (c : N) (s : jsstring) :
  forallb is_digit (c :: s) = true ->
  StringToNumber (c :: s)
  = Some (Finite (inject_Z (Z.of_N (digits_value (c :: s))))).
Proof.
  intros H. pose proof (digits_tight c s H) as Ht.
  pose proof (str_decimal_digits c s H) as Hdec.
  assert (Hc : is_digit c = true)
    by (cbn [forallb] in H; andb_hyp H as [Hc _]; exact Hc).
  unfold StringToNumber. rewrite (trim_tight _ Ht).
  destruct (digit_cases c Hc) as [-> | [-> | [-> | [-> | [-> | [-> | [-> | [->
    | [-> | ->]]]]]]]]]; try exact Hdec.
  destruct s as [| d ds]; [exact Hdec |].
  assert (Hd : (48 <= d <= 57)%N).
  { cbn [forallb] in H. andb_hyp H as [_ H]. andb_hyp H as [Hd _].
    exact (is_digit_range d Hd). }
  replace ((d =? 120)%N || (d =? 88)%N) with false
    by (symmetry; apply orb_false_intro; apply N.eqb_neq; lia).
  replace ((d =? 111)%N || (d =? 79)%N) with false
    by (symmetry; apply orb_false_intro; apply N.eqb_neq; lia).
  replace ((d =? 98)%N || (d =? 66)%N) with false
    by (symmetry; apply orb_false_intro; apply N.eqb_neq; lia).
  exact Hdec.
Qed.

(** A run of digits is an argument the notation carries, and denotes its
    value. *)
Lemma digits_argument (lexeme : jsstring) :
  forallb is_digit lexeme = true -> lexeme <> [] ->
  well_formed (ANumber lexeme) = true
  /\ denotes (ANumber lexeme)
     = Some (VNum (inject_Z (Z.of_N (digits_value lexeme)))).
Proof.
  intros H Hne. destruct lexeme as [| c s]; [congruence |].
  pose proof (StringToNumber_digits c s H) as Hn.
  split.
  - cbn [well_formed]. unfold isNaN. rewrite Hn. cbn [negb].
    pose proof (digits_tight c s H) as Ht. unfold tight in Ht.
    andb_hyp Ht as [_ Hl]. rewrite Hl.
    assert (Hc : is_digit c = true)
      by (cbn [forallb] in H; andb_hyp H as [Hc _]; exact Hc).
    unfold starts_number. rewrite Hc. cbn [orb andb].
    rewrite !andb_true_r. unfold plain_text.
    clear Hn Hl Hne Hc. revert H. generalize (c :: s). intros l.
    induction l as [| x l IH]; [reflexivity |].
    cbn [forallb]. intros H. andb_hyp H as [Hx Hl]. rewrite (IH Hl).
    rewrite andb_true_r. apply is_digit_range in Hx.
    unfold is_delimiter.
    replace (x =? 44)%N with false by (symmetry; apply N.eqb_neq; lia).
    replace (x =? 41)%N with false by (symmetry; apply N.eqb_neq; lia).
    replace (x =? 91)%N with false by (symmetry; apply N.eqb_neq; lia).
    replace (x =? 123)%N with false by (symmetry; apply N.eqb_neq; lia).
    reflexivity.
  - cbn [denotes]. rewrite Hn. reflexivity.
Qed.

Lemma lacks_digits (c : N) (s : jsstring) :
  is_digit c = false -> forallb is_digit s = true -> lacks c s = true.
Proof.
  intros Hc. induction s as [| x s IH]; [reflexivity |].
  cbn [forallb]. intros H. andb_hyp H as [Hx Hs].
  change (lacks c (x :: s)) with (negb (x =? c)%N && lacks c s).
  rewrite (IH Hs), andb_true_r. apply negb_true_iff, N.eqb_neq.
  intros ->. congruence.
Qed.

(** ** The choice of the classifier *)

Lemma intent_patterns_consume (intent : intentKind) (d : intentData)
    (p : pattern) :
  In (intent, d) intentPatterns -> In p (patterns d) ->
  consumes (p_re p) = true.
Proof.
  intros Hd Hp.
  assert (Hall : forallb (fun e => forallb (fun p => consumes (p_re p))
                                     (patterns (snd e))) intentPatterns = true)
    by (vm_compute; reflexivity).
  rewrite forallb_forall in Hall. specialize (Hall _ Hd). cbn [snd] in Hall.
  rewrite forallb_forall in Hall. exact (Hall _ Hp).
Qed.

Lemma matchPatterns_lengths (text : jsstring) (ps : list pattern) :
  (forall p, In p ps -> consumes (p_re p) = true) ->
  forall m, In m (matchPatterns text ps) ->
    (0 < pm_length m)%nat /\ (0 < List.length text)%nat.
Proof.
  induction ps as [| p ps IH]; intros Hc m Hin; [destruct Hin |].
  cbn [matchPatterns] in Hin.
  assert (Hps : forall q, In q ps -> consumes (p_re q) = true)
    by (intros q Hq; apply Hc; right; exact Hq).
  destruct (exec p text) as [r |] eqn:E; [| exact (IH Hps m Hin)].
  destruct Hin as [<- | Hin]; [| exact (IH Hps m Hin)].
  cbn [pm_length]. unfold exec in E.
  apply search_from_consumes in E; [| apply Hc; left; reflexivity].
  unfold m_length. lia.
Qed.

Lemma list_sum_positive (l : list nat) :
  l <> [] -> (forall n, In n l -> (0 < n)%nat) -> (0 < list_sum l)%nat.
Proof.
  destruct l as [| n l]; [congruence |]. intros _ H.
  change (list_sum (n :: l)) with (n + list_sum l)%nat.
  specialize (H n (or_introl eq_refl)). lia.
Qed.

(** The confidence of an intent of the table that has a match. *)
Lemma matched_confidence_range (intent : intentKind) (d : intentData)
    (text : jsstring) :
  In (intent, d) intentPatterns ->
  matchPatterns text (patterns d) <> [] ->
  (3 # 10 < calculateConfidence (matchPatterns text (patterns d)) d text)%Q
  /\ (calculateConfidence (matchPatterns text (patterns d)) d text <= 1)%Q.
Proof.
  intros Hd Hne. set (ms := matchPatterns text (patterns d)) in *.
  split; [| unfold calculateConfidence; apply Q.le_min_r].
  rewrite calculateConfidence_formula. unfold confidence_formula.
  assert (Hlen : forall m, In m ms ->
                   (0 < pm_length m)%nat /\ (0 < List.length text)%nat).
  { apply matchPatterns_lengths. intros p Hp.
    exact (intent_patterns_consume intent d p Hd Hp). }
  assert (Hms : (1 <= Qlen ms)%Q).
  { unfold Qlen. destruct ms as [| m ms']; [congruence |].
    cbn [List.length]. unfold Qle. cbn. lia. }
  assert (Htext : (0 < Qlen text)%Q).
  { destruct ms as [| m ms'] eqn:Ems; [congruence |].
    destruct (Hlen m (or_introl eq_refl)) as [_ Ht].
    unfold Qlen, Qlt. cbn. lia. }
  assert (Hsum : (0 < inject_Z (Z.of_nat (list_sum (map pm_length ms))))%Q).
  { assert (0 < list_sum (map pm_length ms))%nat.
    { apply list_sum_positive.
      - destruct ms; [congruence | discriminate].
      - intros n Hn. apply in_map_iff in Hn as [m [<- Hm]].
        apply (Hlen m Hm). }
    unfold Qlt. cbn. lia. }
  assert (Havg : (0 < averageMatchedSpanLength ms / Qlen text)%Q).
  { unfold averageMatchedSpanLength.
    apply Qlt_shift_div_l; [exact Htext |]. rewrite Qmult_0_l.
    apply Qlt_shift_div_l; [lra |]. rewrite Qmult_0_l. exact Hsum. }
  assert (Hk : (0 <= inject_Z (Z.of_nat (priority_filter_hits d text)))%Q).
  { unfold Qle. cbn. lia. }
  apply Q.min_glb_lt; [reflexivity |].
  assert (Hmin : (0 < Qmin (4 # 10) (averageMatchedSpanLength ms / Qlen text))%Q).
  { apply Q.min_glb_lt; [reflexivity | exact Havg]. }
  nra.
Qed.

Lemma classify_spec (text : jsstring) (table : list (intentKind * intentData)) :
  forall best : option intentKind * Q * list patternMatch,
    (classify text table best = best
     /\ (forall i d, In (i, d) table -> matched text d ->
           (intent_confidence text d <= snd (fst best))%Q))
    \/ (exists pre i d post,
          table = pre ++ (i, d) :: post
          /\ matched text d
          /\ classify text table best
             = (Some i, intent_confidence text d,
                matchPatterns text (patterns d))
          /\ (snd (fst best) < intent_confidence text d)%Q
          /\ (forall j dj, In (j, dj) pre -> matched text dj ->
                (intent_confidence text dj < intent_confidence text d)%Q)
          /\ (forall j dj, In (j, dj) post -> matched text dj ->
                (intent_confidence text dj <= intent_confidence text d)%Q)).
Proof.
  induction table as [| [i d] tl IH]; intros best.
  - left. split; [reflexivity | intros i d []].
  - cbn [classify].
    destruct (matchPatterns text (patterns d)) as [| m ms] eqn:Ems.
    + destruct (IH best) as [[Heq Hall] | (pre & k & dk & post & Ht & Hm & Heq & Hlt & Hpre & Hpost)].
      * left. split; [exact Heq |].
        intros j dj [[= <- <-] | Hin] Hj; [unfold matched in Hj; congruence |].
        exact (Hall j dj Hin Hj).
      * right. exists ((i, d) :: pre), k, dk, post.
        split; [rewrite Ht; reflexivity |].
        split; [exact Hm |]. split; [exact Heq |]. split; [exact Hlt |].
        split; [| exact Hpost].
        intros j dj [[= <- <-] | Hin] Hj; [unfold matched in Hj; congruence |].
        exact (Hpre j dj Hin Hj).
    + rewrite <- Ems. fold (intent_confidence text d).
      assert (Hmd : matched text d) by (unfold matched; rewrite Ems; discriminate).
      destruct (Qle_bool (intent_confidence text d) (snd (fst best))) eqn:Ele.
      * apply Qle_bool_iff in Ele.
        destruct (IH best) as [[Heq Hall] | (pre & k & dk & post & Ht & Hm & Heq & Hlt & Hpre & Hpost)].
        -- left. split; [exact Heq |].
           intros j dj [[= <- <-] | Hin] Hj; [exact Ele |].
           exact (Hall j dj Hin Hj).
        -- right. exists ((i, d) :: pre), k, dk, post.
           split; [rewrite Ht; reflexivity |].
           split; [exact Hm |]. split; [exact Heq |]. split; [exact Hlt |].
           split; [| exact Hpost].
           intros j dj [[= <- <-] | Hin] Hj; [lra |].
           exact (Hpre j dj Hin Hj).
      * assert (Hgt : (snd (fst best) < intent_confidence text d)%Q).
        { apply Qnot_le_lt. intros Hle. apply Qle_bool_iff in Hle. congruence. }
        destruct (IH (Some i, intent_confidence text d,
                      matchPatterns text (patterns d)))
          as [[Heq Hall] | (pre & k & dk & post & Ht & Hm & Heq & Hlt & Hpre & Hpost)].
        -- right. exists [], i, d, tl. cbn [snd fst] in Hall.
           split; [reflexivity |]. split; [exact Hmd |].
           split; [exact Heq |]. split; [exact Hgt |].
           split; [intros j dj [] | exact Hall].
        -- right. exists ((i, d) :: pre), k, dk, post. cbn [snd fst] in Hlt.
           split; [rewrite Ht; reflexivity |].
           split; [exact Hm |]. split; [exact Heq |]. split; [lra |].
           split; [| exact Hpost].
           intros j dj [[= <- <-] | Hin] Hj; [exact Hlt |].
           exact (Hpre j dj Hin Hj).
Qed.

Lemma specific_entities_keep (a : analysis) :
  primaryIntent (extractIntentSpecificEntities a) = primaryIntent a
  /\ confidence (extractIntentSpecificEntities a) = confidence a
  /\ matches (extractIntentSpecificEntities a) = matches a
  /\ normalizedText (extractIntentSpecificEntities a) = normalizedText a
  /\ originalText (extractIntentSpecificEntities a) = originalText a
  /\ numbers (ents (extractIntentSpecificEntities a)) = numbers (ents a)
  /\ priorities (ents (extractIntentSpecificEntities a)) = priorities (ents a)
  /\ categories (ents (extractIntentSpecificEntities a)) = categories (ents a).
Proof.
  unfold extractIntentSpecificEntities.
  destruct (primaryIntent a) as [[] |] eqn:E;
    try destruct (exec update_text_re (originalText a));
    cbn; rewrite ?E; repeat split; reflexivity.
Qed.

Lemma analyzeIntent_classify (text : jsstring) :
  let a := analyzeIntent text in
  let norm := trim (toLowerCase text) in
  (primaryIntent a, confidence a, matches a)
  = classify norm intentPatterns (None, 0%Q, [])
  /\ normalizedText a = norm.
Proof.
  cbn zeta. unfold analyzeIntent.
  destruct (classify (trim (toLowerCase text)) intentPatterns (None, 0%Q, []))
    as [[intent c] ms].
  destruct (specific_entities_keep
              (Analysis text (trim (toLowerCase text)) intent c
                 (Entities (extractNumbers text) (extractPriority text)
                    (extractCategory text) None None)
                 (Context (isQuestion text) (isCommand text) (isPolite text)
                    (hasTimeReference text)) ms))
    as (-> & -> & -> & -> & _).
  split; reflexivity.
Qed.

(** X1.  Every match that [matchPatterns] reports for an intent of the
    table is the first match of one of the intent's patterns, is not
    empty and lies within the text; there are at most as many matches as
    patterns. *)
Theorem matches_are_spans (intent : intentKind) (d : intentData)
    (text : jsstring) (m : patternMatch) :
  In (intent, d) intentPatterns ->
  In m (matchPatterns text (patterns d)) ->
  In (pm_pattern m) (patterns d)
  /\ exec (pm_pattern m) text = Some (pm_match m)
  /\ pm_index m = m_index (pm_match m)
  /\ (0 < pm_length m)%nat
  /\ (pm_index m + pm_length m <= List.length text)%nat
  /\ (List.length (matchPatterns text (patterns d))
      <= List.length (patterns d))%nat.
Proof.
  intros Hd Hm.
  assert (Hc : forall p, In p (patterns d) -> consumes (p_re p) = true)
    by (intros p Hp; exact (intent_patterns_consume intent d p Hd Hp)).
  revert Hc Hm. generalize (patterns d). intros ps.
  induction ps as [| p ps IH]; intros Hc Hm; [destruct Hm |].
  assert (Hps : forall q, In q ps -> consumes (p_re q) = true)
    by (intros q Hq; apply Hc; right; exact Hq).
  cbn [matchPatterns] in *.
  destruct (exec p text) as [r |] eqn:E.
  - destruct Hm as [<- | Hm].
    + cbn [pm_pattern pm_match pm_index pm_length List.length].
      unfold exec in E.
      pose proof (search_from_consumes p text (Hc p (or_introl eq_refl))
                    0 None r E) as Hs.
      unfold m_length.
      split; [left; reflexivity |]. split; [exact E |].
      split; [reflexivity |]. split; [lia |]. split; [lia |].
      clear. induction ps as [| q ps IH]; [cbn; lia |].
      cbn [matchPatterns List.length] in *.
      destruct (exec q text); cbn [List.length] in *; lia.
    + destruct (IH Hps Hm) as (H1 & H2 & H3 & H4 & H5 & H6).
      split; [right; exact H1 |]. repeat split; try assumption.
      cbn [List.length]. lia.
  - destruct (IH Hps Hm) as (H1 & H2 & H3 & H4 & H5 & H6).
    split; [right; exact H1 |]. repeat split; try assumption.
    cbn [List.length]. lia.
Qed.

Lemma matches_are_spans_witness :
  let m := PatternMatch
             (re_i (cat [lit "my"; plus ws;
                         alt [plural "todo"; plural "task"; lit "list"]]))
             (Match 5 (MState 13 (Some 115%N) [] [])) 5 8 in
  In (pm_pattern m) (patterns view_data)
  /\ exec (pm_pattern m) (u "show my todos") = Some (pm_match m)
  /\ pm_index m = m_index (pm_match m)
  /\ (0 < pm_length m)%nat
  /\ (pm_index m + pm_length m <= List.length (u "show my todos"))%nat
  /\ (List.length (matchPatterns (u "show my todos") (patterns view_data))
      <= List.length (patterns view_data))%nat.
Proof.
  apply (matches_are_spans View view_data (u "show my todos")
           (PatternMatch
              (re_i (cat [lit "my"; plus ws;
                          alt [plural "todo"; plural "task"; lit "list"]]))
              (Match 5 (MState 13 (Some 115%N) [] [])) 5 8)).
  - left. reflexivity.
  - vm_compute. right. left. reflexivity.
Defined.

(** An intent that was chosen has a match, and its confidence passes the
    thresholds of the callers. *)
Lemma classified_intent (text : jsstring) (i : intentKind) :
  let a := analyzeIntent text in
  let norm := trim (toLowerCase text) in
  primaryIntent a = Some i ->
  (exists d, In (i, d) intentPatterns
             /\ matchPatterns norm (patterns d) <> []
             /\ confidence a = intent_confidence norm d)
  /\ (3 # 10 < confidence a)%Q /\ (confidence a <= 1)%Q
  /\ Qle_bool (3 # 10) (confidence a) = true
  /\ Qle_bool (confidence a) (3 # 10) = false
  /\ (0 < List.length norm)%nat.
Proof.
  cbn zeta. destruct (analyzeIntent_classify text) as [Hc _]. cbn zeta in Hc.
  set (norm := trim (toLowerCase text)) in *. intros Hi.
  destruct (classify_spec norm intentPatterns (None, 0%Q, []))
    as [[Heq Hall] | (pre & k & dk & post & Ht & Hm & Heq & Hlt & Hpre & Hpost)];
    rewrite Heq in Hc; injection Hc as Hi' Hcf Hms; [congruence |].
  assert (Hin : In (k, dk) intentPatterns)
    by (rewrite Ht; apply in_or_app; right; left; reflexivity).
  destruct (matched_confidence_range k dk norm Hin Hm) as [Hgt Hle].
  fold (intent_confidence norm dk) in Hgt, Hle.
  rewrite Hi in Hi'. injection Hi' as ->. rewrite Hcf.
  split; [exists dk; repeat split; assumption |].
  split; [exact Hgt |]. split; [exact Hle |].
  split; [apply Qle_bool_iff; lra |].
  split.
  - destruct (Qle_bool (intent_confidence norm dk) (3 # 10)) eqn:E;
      [| reflexivity].
    apply Qle_bool_iff in E. lra.
  - unfold matched in Hm.
    destruct (matchPatterns norm (patterns dk)) as [| m ms'] eqn:E;
      [congruence |].
    apply (matchPatterns_lengths norm (patterns dk)
             (fun p Hp => intent_patterns_consume k dk p Hin Hp) m).
    rewrite E. left. reflexivity.
Qed.



Lemma analyzeIntent_entities (text : jsstring) :
  numbers (ents (analyzeIntent text)) = extractNumbers text
  /\ priorities (ents (analyzeIntent text)) = extractPriority text
  /\ categories (ents (analyzeIntent text)) = extractCategory text.
Proof.
  unfold analyzeIntent.
  destruct (classify (trim (toLowerCase text)) intentPatterns (None, 0%Q, []))
    as [[intent c] ms].
  destruct (specific_entities_keep
              (Analysis text (trim (toLowerCase text)) intent c
                 (Entities (extractNumbers text) (extractPriority text)
                    (extractCategory text) None None)
                 (Context (isQuestion text) (isCommand text) (isPolite text)
                    (hasTimeReference text)) ms))
    as (_ & _ & _ & _ & _ & -> & -> & ->).
  repeat split.
Qed.

(** ** Literal words in patterns *)

Lemma lit_reads (ci : bool) (s : jsstring) :
  forall (k : cont) (st x : mstate),
    rmatch ci (lit_units s) k st = Some x ->
    exists w st', reads st w st'
                  /\ map (canon ci) w = map (canon ci) s
                  /\ k st' = Some x.
Proof.
  induction s as [| c s IH]; intros k st x H.
  - exists [], st. split; [apply reads_refl | split; [reflexivity | exact H]].
  - assert (Hone : forall k st x,
              rmatch ci (chr c) k st = Some x ->
              exists d tl, rest st = d :: tl /\ canon ci c = canon ci d
                           /\ k (advance d tl st) = Some x).
    { clear. intros k st x H. unfold chr in H. cbn [rmatch] in H.
      destruct (rest st) as [| d tl]; [discriminate |].
      unfold in_class in H. cbn [existsb item_matches xorb] in H.
      rewrite orb_false_r in H.
      destruct (canon ci c =? canon ci d)%N eqn:E; [| discriminate].
      exists d, tl. apply N.eqb_eq in E. repeat split; assumption. }
    destruct s as [| c' s].
    + cbn [lit_units] in H. apply Hone in H as (d & tl & Hr & Hd & Hk).
      exists [d], (advance d tl st).
      split; [now apply reads_advance |]. split; [| exact Hk].
      cbn [map]. now rewrite Hd.
    + change (lit_units (c :: c' :: s))
        with (Seq (chr c) (lit_units (c' :: s))) in H.
      rewrite rmatch_seq in H. apply Hone in H as (d & tl & Hr & Hd & Hk).
      apply IH in Hk as (w & st' & Hw & Hcan & Hk).
      exists (d :: w), st'.
      split; [exact (reads_trans st _ st' [d] w (reads_advance st d tl Hr) Hw) |].
      split; [| exact Hk]. cbn [map]. now rewrite Hd, Hcan.
Qed.

Lemma alt_reads (ci : bool) (rs : list regex) :
  forall (k : cont) (st x : mstate),
    rs <> [] ->
    rmatch ci (alt rs) k st = Some x ->
    exists r, In r rs /\ rmatch ci r k st = Some x.
Proof.
  induction rs as [| r rs IH]; intros k st x Hne H; [congruence |].
  destruct rs as [| r' rs].
  - exists r. split; [left; reflexivity | exact H].
  - change (alt (r :: r' :: rs)) with (Alt r (alt (r' :: rs))) in H.
    cbn [rmatch] in H. unfold orelse in H.
    destruct (rmatch ci r k st) eqn:E.
    + injection H as <-. exists r. split; [left; reflexivity | exact E].
    + apply IH in H as (r0 & Hin & H); [| discriminate].
      exists r0. split; [right; exact Hin | exact H].
Qed.

(** Where a search finds its match. *)
Lemma search_from_found (p : pattern) (s : jsstring) :
  forall (i : nat) (pv : option N) (m : rmatch_result),
    search_from p i pv s = Some m ->
    exists pre s' pv',
      s = pre ++ s' /\ m_index m = (i + List.length pre)%nat
      /\ match_at p (m_index m) pv' s' = Some (m_final m).
Proof.
  induction s as [| c s IH]; intros i pv m H; cbn [search_from] in H.
  - destruct (match_at p i pv []) as [fin |] eqn:E; [| discriminate].
    injection H as <-. exists [], [], pv. cbn [m_index m_final List.length].
    rewrite Nat.add_0_r. split; [reflexivity | split; [reflexivity | exact E]].
  - destruct (match_at p i pv (c :: s)) as [fin |] eqn:E.
    + injection H as <-. exists [], (c :: s), pv.
      cbn [m_index m_final List.length]. rewrite Nat.add_0_r.
      split; [reflexivity | split; [reflexivity | exact E]].
    + apply IH in H as (pre & s' & pv' & Hs & Hi & Hm).
      exists (c :: pre), s', pv'. cbn [List.length app].
      split; [now rewrite Hs | split; [lia | exact Hm]].
Qed.

Lemma includes_middle (pre w post : jsstring) :
  includes (pre ++ w ++ post) w = true.
Proof.
  assert (Hs : forall w post, startsWith (w ++ post) w = true).
  { clear. induction w as [| c w IH]; intros post;
      [apply startsWith_nil |].
    cbn [app startsWith]. rewrite N.eqb_refl. apply IH. }
  assert (Hi : forall s sub, startsWith s sub = true -> includes s sub = true).
  { clear. intros [| c s] sub H; cbn [includes]; rewrite H; reflexivity. }
  induction pre as [| c pre IH].
  - cbn [app]. apply Hi, Hs.
  - cbn [app includes]. rewrite IH. apply orb_true_r.
Qed.

Lemma canon_lower (c x : N) :
  is_upper x = false -> canon true c = canon true x -> lower_char c = x.
Proof.
  unfold canon, lower_char, is_upper, is_lower, between. cbn [andb].
  intros Hx H.
  destruct ((97 <=? c)%N && (c <=? 122)%N) eqn:Ec,
           ((97 <=? x)%N && (x <=? 122)%N) eqn:Ex,
           ((65 <=? c)%N && (c <=? 90)%N) eqn:Eu;
    rewrite ?andb_true_iff, ?andb_false_iff, ?N.leb_le, ?N.leb_gt in *; lia.
Qed.

Lemma canon_lower_word (w word : jsstring) :
  forallb (fun x => negb (is_upper x)) word = true ->
  map (canon true) w = map (canon true) word ->
  toLowerCase w = word.
Proof.
  revert w. induction word as [| x word IH]; intros [| c w] Hu H;
    try discriminate; [reflexivity |].
  cbn [map forallb] in *. andb_hyp Hu as [Hx Hw].
  injection H as Hc Hrest. unfold toLowerCase. cbn [map].
  rewrite (canon_lower c x) by (try apply negb_true_iff; assumption).
  f_equal. exact (IH w Hw Hrest).
Qed.

Lemma lowered_includes (text a w b word : jsstring) :
  text = a ++ w ++ b -> toLowerCase w = word ->
  includes (toLowerCase text) word = true.
Proof.
  intros -> <-. unfold toLowerCase. rewrite !map_app. apply includes_middle.
Qed.

Lemma test_found (p : pattern) (text : jsstring) :
  test p text = true ->
  exists pre s' i pv fin,
    text = pre ++ s'
    /\ rmatch (p_ci p) (p_re p) (fun st => Some st) (MState i pv s' [])
       = Some fin.
Proof.
  unfold test, exec. destruct (search_from p 0 None text) as [m |] eqn:E;
    [| discriminate].
  intros _. apply search_from_found in E as (pre & s' & pv' & Hs & _ & Hm).
  exists pre, s', (m_index m), pv', (m_final m). split; [exact Hs | exact Hm].
Qed.

(** A literal word that matches without regard to case occurs in the
    lower-cased text. *)
Lemma lit_found (word : string) (k : cont) (pre s' : jsstring) (i : nat)
    (pv : option N) (cs : list (nat * (nat * nat))) (x : mstate)
    (text : jsstring) :
  forallb (fun c => negb (is_upper c)) (u word) = true ->
  text = pre ++ s' ->
  rmatch true (lit word) k (MState i pv s' cs) = Some x ->
  includes (toLowerCase text) (u word) = true.
Proof.
  intros Hu Ht H. unfold lit in H.
  apply lit_reads in H as (w & st' & [Hr _] & Hcan & _).
  cbn [rest] in Hr.
  apply (lowered_includes text pre w (rest st')).
  - rewrite Ht, Hr. reflexivity.
  - apply canon_lower_word; assumption.
Qed.

(** X4.  [extractPriority] always yields [high], [medium] or [low].  It
    yields [low] exactly when the keyword table does: the pattern that is
    tried for [low] after the table never decides, since each of its words
    is a keyword of the table.  A text that contains "urgent" is [high],
    also when it says "not urgent". *)
Theorem extractPriority_levels (text : jsstring) :
  (extractPriority text = u "high" \/ extractPriority text = u "medium"
   \/ extractPriority text = u "low")
  /\ (extractPriority text = u "low" <->
      first_keyword (toLowerCase text) priority_keywords = Some (u "low"))
  /\ (includes (toLowerCase text) (u "urgent") = true ->
      extractPriority text = u "high").
Proof.
  unfold extractPriority.
  set (lowered := toLowerCase text).
  unfold priority_keywords. cbn [first_keyword].
  match goal with
  | |- context [if ?b then Some (u "high") else _] => destruct b eqn:Ehigh
  end.
  { split; [left; reflexivity |].
    split; [split; discriminate | reflexivity]. }
  match goal with
  | |- context [if ?b then Some (u "medium") else _] => destruct b eqn:Emed
  end.
  { split; [right; left; reflexivity |].
    split; [split; discriminate |].
    intros Hu. cbn [map existsb] in Ehigh. rewrite Hu in Ehigh.
    discriminate Ehigh. }
  match goal with
  | |- context [if ?b then Some (u "low") else _] => destruct b eqn:Elow
  end.
  { split; [right; right; reflexivity |].
    split; [split; reflexivity |].
    intros Hu. cbn [map existsb] in Ehigh. rewrite Hu in Ehigh.
    discriminate Ehigh. }
  match goal with
  | |- context [if ?b then u "high" else _] => destruct b eqn:Tfirst
  end.
  { split; [left; reflexivity |].
    split; [split; discriminate |].
    intros Hu. cbn [map existsb] in Ehigh. rewrite Hu in Ehigh.
    discriminate Ehigh. }
  match goal with
  | |- context [if ?b then u "low" else _] => destruct b eqn:Tsecond
  end.
  - exfalso.
    apply test_found in Tsecond as (pre & s' & i & pv & fin & Ht & H).
    cbn [p_ci p_re re_i] in H.
    apply alt_reads in H as (r & Hin & H); [| discriminate].
    cbn [In] in Hin.
    assert (Hl : forall w, In (u w) (map u ["low"; "minor"; "small";
                              "least"; "whenever"; "eventually"; "someday";
                              "later"]%string) ->
                 forallb (fun c => negb (is_upper c)) (u w) = true ->
                 rmatch true (lit w) (fun st => Some st) (MState i pv s' [])
                 = Some fin -> False).
    { intros w Hw Hup Hm.
      pose proof (lit_found w _ pre s' i pv [] fin text Hup Ht Hm) as Hinc.
      fold lowered in Hinc.
      assert (existsb (fun k => includes lowered k)
                (map u ["low"; "minor"; "small"; "least"; "whenever";
                        "eventually"; "someday"; "later"]%string) = true).
      { apply existsb_exists. exists (u w). split; assumption. }
      congruence. }
    destruct Hin as [<- | [<- | [<- | [<- | [<- | []]]]]].
    + apply (Hl "eventually"%string); [cbn; tauto | reflexivity | exact H].
    + apply (Hl "someday"%string); [cbn; tauto | reflexivity | exact H].
    + apply (Hl "later"%string); [cbn; tauto | reflexivity | exact H].
    + apply (Hl "whenever"%string); [cbn; tauto | reflexivity | exact H].
    + change (cat [lit "not"; plus ws; lit "urgent"])
        with (Seq (lit "not") (Seq (plus ws) (lit "urgent"))) in H.
      rewrite rmatch_seq in H.
      apply rmatch_reads in H as (w1 & st1 & [R1 _] & _ & H).
      rewrite rmatch_seq in H.
      apply rmatch_reads in H as (w2 & st2 & [R2 _] & _ & H).
      cbn [rest] in R1. destruct st2 as [i2 pv2 s2 cs2]. cbn [rest] in R2.
      assert (Ht' : text = (pre ++ w1 ++ w2) ++ s2)
        by (rewrite Ht, R1, R2, <- !app_assoc; reflexivity).
      pose proof (lit_found "urgent" _ _ s2 i2 pv2 cs2 fin text eq_refl Ht' H)
        as Hinc.
      fold lowered in Hinc. cbn [map existsb] in Ehigh.
      rewrite Hinc in Ehigh. discriminate Ehigh.
  - split; [right; left; reflexivity |].
    split; [split; discriminate |].
    intros Hu. cbn [map existsb] in Ehigh. rewrite Hu in Ehigh.
    discriminate Ehigh.
Qed.

Lemma extractPriority_range (text : jsstring) :
  extractPriority text = u "high" \/ extractPriority text = u "medium"
  \/ extractPriority text = u "low".
Proof.
  unfold extractPriority, priority_keywords. cbn [first_keyword].
  repeat match goal with
         | |- context [if ?b then _ else _] => destruct b
         end; tauto.
Qed.

(** ** The payload of a creation *)

Lemma dropWhile_head (p : N -> bool) (s : jsstring) :
  match dropWhile p s with [] => True | c :: _ => p c = false end.
Proof.
  induction s as [| c s IH]; [exact I |].
  cbn [dropWhile]. destruct (p c) eqn:E; [exact IH | exact E].
Qed.

Lemma dropWhile_snoc (p : N -> bool) (l : jsstring) (c : N) :
  p c = false -> dropWhile p (l ++ [c]) = dropWhile p l ++ [c].
Proof.
  intros Hc. induction l as [| x l IH]; cbn [app dropWhile].
  - rewrite Hc. reflexivity.
  - destruct (p x); [exact IH | reflexivity].
Qed.

(** [trim] yields the empty text or one without white space at its ends. *)
Lemma trim_cases (s : jsstring) : trim s = [] \/ tight (trim s) = true.
Proof.
  unfold trim, trimStart, trimEnd.
  pose proof (dropWhile_head is_space s) as Hh.
  destruct (dropWhile is_space s) as [| c t]; [left; reflexivity |].
  right. cbn [rev]. rewrite (dropWhile_snoc _ _ _ Hh), rev_app_distr.
  cbn [rev app]. unfold tight. rewrite Hh. cbn [negb andb].
  pose proof (dropWhile_head is_space (rev t)) as Hd.
  destruct (dropWhile is_space (rev t)) as [| d r].
  - cbn [rev last]. rewrite Hh. reflexivity.
  - cbn [rev]. rewrite app_comm_cons, last_last, Hd. reflexivity.
Qed.

Lemma trim_idempotent (s : jsstring) : trim (trim s) = trim s.
Proof.
  destruct (trim_cases s) as [-> | H]; [reflexivity | now apply trim_tight].
Qed.

Lemma dropWhile_map (p : N -> bool) (f : N -> N) (s : jsstring) :
  (forall c, p (f c) = p c) ->
  dropWhile p (map f s) = map f (dropWhile p s).
Proof.
  intros H. induction s as [| c s IH]; [reflexivity |].
  cbn [map dropWhile]. rewrite H. destruct (p c); [exact IH | reflexivity].
Qed.

Lemma is_space_lower (c : N) : is_space (lower_char c) = is_space c.
Proof.
  unfold lower_char. destruct (is_upper c) eqn:E; [| reflexivity].
  unfold is_upper, between in E. andb_hyp E as [H1 H2].
  apply N.leb_le in H1, H2.
  assert (Hc : forall x, (65 <= x <= 122)%N -> is_space x = false).
  { intros x Hx. unfold is_space, between.
    repeat match goal with
           | |- context [(?a <=? ?b)%N] =>
               destruct (N.leb_spec a b); try lia
           | |- context [(?a =? ?b)%N] =>
               destruct (N.eqb_spec a b); try lia
           end; reflexivity. }
  rewrite !Hc by lia. reflexivity.
Qed.

Lemma trim_lowered (s : jsstring) :
  trim (toLowerCase s) = toLowerCase (trim s).
Proof.
  unfold trim, trimStart, trimEnd, toLowerCase.
  rewrite (dropWhile_map _ _ _ is_space_lower), <- map_rev.
  rewrite (dropWhile_map _ _ _ is_space_lower), map_rev. reflexivity.
Qed.



(** ** From the synthesized call to the parsed call *)

Lemma parse_id_call (js_eval : jsstring -> evalOutcome) (name : jsstring)
    (d : toolDescriptor) (n : N) :
  own_property name AVAILABLE_TOOLS = Some d ->
  parseToolCall js_eval (name ++ u "(" ++ Number_toString n ++ u ")")
  = [Call name [integer_id (Z.of_N n)] (Registered d)].
Proof.
  intros Hd. destruct (Number_toString_digits n) as (Hdig & Hne & Hval).
  destruct (digits_argument _ Hdig Hne) as [Hwf Hden].
  change (name ++ u "(" ++ Number_toString n ++ u ")")
    with (call_span name (Number_toString n)).
  rewrite (only_call_of_span js_eval name d (Number_toString n) Hd)
    by (apply lacks_digits; [reflexivity | exact Hdig]).
  f_equal. f_equal.
  change (Number_toString n)
    with (join (u ", ") (map render [ANumber (Number_toString n)])).
  rewrite (parse_params_rendered js_eval [ANumber (Number_toString n)]
             [integer_id (Z.of_N n)]).
  - reflexivity.
  - cbn [forallb]. rewrite Hwf. reflexivity.
  - cbn [map]. rewrite Hden, Hval. reflexivity.
Qed.

(** X6.  The call synthesized for completing, reopening or deleting one
    todo parses back to one call of [markTodoCompleted],
    [markTodoIncomplete] or [deleteTodoById] whose only argument is the
    first number of the request. *)
Theorem numbered_call_round_trip (js_eval : jsstring -> evalOutcome)
    (a : analysis) (n : N) (more : list N) :
  (3 # 10 <= confidence a)%Q ->
  numbers (ents a) = n :: more ->
  let parsed := option_map (parseToolCall js_eval) (generateFunctionCall a) in
  let arg := [integer_id (Z.of_N n)] in
  (primaryIntent a = Some Complete ->
   parsed = Some [Call (u "markTodoCompleted") arg
                    (Registered (id_tool "markTodoCompleted"
                                   fn_markTodoCompleted))])
  /\ (primaryIntent a = Some Incomplete ->
      parsed = Some [Call (u "markTodoIncomplete") arg
                       (Registered (id_tool "markTodoIncomplete"
                                      fn_markTodoIncomplete))])
  /\ (primaryIntent a = Some Delete -> more = [] ->
      parsed = Some [Call (u "deleteTodoById") arg
                       (Registered (id_tool "deleteTodoById"
                                      fn_deleteTodoById))]).
Proof.
  intros Hc Hn. cbn zeta. apply Qle_bool_iff in Hc.
  unfold generateFunctionCall. rewrite Hc, Hn. cbn [negb].
  split; [| split].
  - intros ->. cbn [option_map]. f_equal.
    exact (parse_id_call js_eval (u "markTodoCompleted") _ n eq_refl).
  - intros ->. cbn [option_map]. f_equal.
    exact (parse_id_call js_eval (u "markTodoIncomplete") _ n eq_refl).
  - intros -> ->. cbn [option_map]. f_equal.
    exact (parse_id_call js_eval (u "deleteTodoById") _ n eq_refl).
Qed.

Lemma numbered_call_round_trip_witness :
  let a := analyzeIntent (u "complete todo 5") in
  let parsed := option_map (parseToolCall literal_eval) (generateFunctionCall a) in
  let arg := [integer_id 5] in
  (primaryIntent a = Some Complete ->
   parsed = Some [Call (u "markTodoCompleted") arg
                    (Registered (id_tool "markTodoCompleted"
                                   fn_markTodoCompleted))])
  /\ (primaryIntent a = Some Incomplete ->
      parsed = Some [Call (u "markTodoIncomplete") arg
                       (Registered (id_tool "markTodoIncomplete"
                                      fn_markTodoIncomplete))])
  /\ (primaryIntent a = Some Delete -> @nil N = [] ->
      parsed = Some [Call (u "deleteTodoById") arg
                       (Registered (id_tool "deleteTodoById"
                                      fn_deleteTodoById))]).
Proof.
  apply (numbered_call_round_trip literal_eval
           (analyzeIntent (u "complete todo 5")) 5 []).
  - vm_compute. intros H. discriminate H.
  - vm_compute. reflexivity.
Defined.

Lemma parse_rendered_call (js_eval : jsstring -> evalOutcome) (name : jsstring)
    (d : toolDescriptor) (args : list argument) (vals : list value) :
  own_property name AVAILABLE_TOOLS = Some d ->
  forallb well_formed args = true ->
  map denotes args = map Some vals ->
  parseToolCall js_eval (call_notation name args)
  = [Call name vals (Registered d)].
Proof.
  intros Hd Hwf Hden. unfold call_notation.
  rewrite (only_call_of_span js_eval name d _ Hd)
    by (apply rendered_lacks_paren; exact Hwf).
  rewrite (parse_params_rendered js_eval args vals Hwf Hden). reflexivity.
Qed.

(** What the call synthesized for an update with a new text and a
    priority parses to. *)
Lemma update_call_parses (js_eval : jsstring -> evalOutcome)
    (a : analysis) (n : N) (more : list N) (t p : jsstring) :
  Qle_bool (3 # 10) (confidence a) = true ->
  primaryIntent a = Some Update ->
  numbers (ents a) = n :: more ->
  todoText (ents a) = Some t -> t <> [] -> plain_text t = true ->
  priorities (ents a) = p -> str_eqb p (u "medium") = false ->
  plain_text p = true ->
  plain_text (show_opt (categories (ents a))) = true ->
  exists c call,
    generateFunctionCall a = Some (c :: call)
    /\ parseToolCall js_eval (c :: call)
       = [Call (u "updateTodo")
            ([integer_id (Z.of_N n); VStr t; VNull; VStr p]
             ++ category_arguments (categories (ents a)))
            (Registered updateTodo_tool)].
Proof.
  intros Hc Hi Hn Ht Hne Hplain Hp Hmed Hpp Hcat.
  unfold generateFunctionCall. rewrite Hc, Hi, Hn, Ht, Hp, Hmed.
  cbn [negb show_opt].
  assert (Htruthy : truthy (Some t) = true)
    by (destruct t; [congruence | reflexivity]).
  rewrite Htruthy.
  exists 117%N. eexists. split; [reflexivity |].
  destruct (Number_toString_digits n) as (Hdig & Hnz & Hval).
  destruct (digits_argument _ Hdig Hnz) as [Hwf Hden].
  rewrite Hval in Hden.
  set (cargs := match categories (ents a) with
                | Some (x :: s) => [ANull; ANull; AString DQ (x :: s)]
                | _ => []
                end).
  rewrite <- (parse_rendered_call js_eval (u "updateTodo") updateTodo_tool
                ([ANumber (Number_toString n); AString DQ t; ANull;
                  AString DQ p] ++ cargs)
                ([integer_id (Z.of_N n); VStr t; VNull; VStr p]
                 ++ category_arguments (categories (ents a)))).
  - f_equal. unfold call_notation, call_span, cargs.
    change (u "updateTodo(") with (u "updateTodo" ++ u "(").
    rewrite <- app_assoc. f_equal. f_equal. f_equal.
    destruct (categories (ents a)) as [[| x s] |]; cbn [truthy];
      cbn [app map render join quoted u show_opt];
      rewrite <- ?app_assoc; reflexivity.
  - reflexivity.
  - unfold cargs. cbn [app forallb]. rewrite Hwf.
    change (well_formed (AString DQ t)) with (plain_text t).
    change (well_formed (AString DQ p)) with (plain_text p).
    rewrite Hplain, Hpp.
    destruct (categories (ents a)) as [[| x s] |]; cbn [forallb];
      try reflexivity.
    change (well_formed (AString DQ (x :: s))) with (plain_text (x :: s)).
    cbn [show_opt] in Hcat. rewrite Hcat. reflexivity.
  - unfold cargs. cbn [app map]. rewrite Hden.
    destruct (categories (ents a)) as [[| x s] |]; reflexivity.
Qed.

(** X7.  For an analysis classified as an update with confidence at
    least 0.3, a number, a non-empty new text and a priority other than
    [medium], where the text, the priority and the category hold no comma,
    closing parenthesis, square bracket or brace, the synthesized call
    parses to [updateTodo] with the id, the text, [null] and the priority,
    followed by [null], [null] and the category when there is one: the
    priority is the fourth argument, where [updateTodo] takes the
    category, and the third, where it takes the priority, is [null]. *)
Theorem update_priority_argument_shifts (js_eval : jsstring -> evalOutcome)
    (a : analysis) (n : N) (more : list N) (t p : jsstring) :
  (3 # 10 <= confidence a)%Q ->
  primaryIntent a = Some Update ->
  numbers (ents a) = n :: more ->
  todoText (ents a) = Some t -> t <> [] -> plain_text t = true ->
  priorities (ents a) = p -> str_eqb p (u "medium") = false ->
  plain_text p = true ->
  plain_text (show_opt (categories (ents a))) = true ->
  option_map (parseToolCall js_eval) (generateFunctionCall a)
  = Some [Call (u "updateTodo")
            ([integer_id (Z.of_N n); VStr t; VNull; VStr p]
             ++ category_arguments (categories (ents a)))
            (Registered updateTodo_tool)]
  /\ map ps_name (parameters updateTodo_tool)
     = [u "id"; u "newText"; u "priority"; u "category"].
Proof.
  intros Hc Hi Hn Ht Hne Hplain Hp Hmed Hpp Hcat.
  split; [| reflexivity].
  apply Qle_bool_iff in Hc.
  destruct (update_call_parses js_eval a n more t p Hc Hi Hn Ht Hne Hplain Hp
              Hmed Hpp Hcat) as (c & call & -> & Hparse).
  cbn [option_map]. now rewrite Hparse.
Qed.

Lemma update_priority_argument_shifts_witness :
  let a := analyzeIntent (u "change task 4 to call the bank asap") in
  option_map (parseToolCall literal_eval) (generateFunctionCall a)
  = Some [Call (u "updateTodo")
            ([integer_id 4; VStr (u "call the bank asap"); VNull;
              VStr (u "high")]
             ++ category_arguments (categories (ents a)))
            (Registered updateTodo_tool)]
  /\ map ps_name (parameters updateTodo_tool)
     = [u "id"; u "newText"; u "priority"; u "category"].
Proof.
  apply (update_priority_argument_shifts literal_eval
           (analyzeIntent (u "change task 4 to call the bank asap"))
           4 [] (u "call the bank asap") (u "high")).
  - vm_compute. intros H. discriminate H.
  - vm_compute. reflexivity.
  - vm_compute. reflexivity.
  - vm_compute. reflexivity.
  - vm_compute. intros H. discriminate H.
  - vm_compute. reflexivity.
  - vm_compute. reflexivity.
  - vm_compute. reflexivity.
  - vm_compute. reflexivity.
  - vm_compute. reflexivity.
Defined.

Lemma lacks_number_list (c : N) (ns : list N) :
  is_digit c = false -> (c =? 44)%N = false -> (c =? 32)%N = false ->
  lacks c (join (u ", ") (map Number_toString ns)) = true.
Proof.
  intros Hd Hc Hs. apply lacks_join; [exact Hc | exact Hs |].
  induction ns as [| n ns IH]; [reflexivity |].
  cbn [map forallb]. rewrite IH, andb_true_r.
  apply lacks_digits; [exact Hd |]. apply Number_toString_digits.
Qed.

(** X8.  The call synthesized for deleting several todos parses back to
    one call of [deleteTodosByIds] whose argument is the list of the
    numbers of the request, given that the evaluator yields that list for
    the list literal. *)
Theorem listed_delete_round_trip (js_eval : jsstring -> evalOutcome)
    (a : analysis) (ns : list N) :
  (3 # 10 <= confidence a)%Q ->
  primaryIntent a = Some Delete ->
  numbers (ents a) = ns ->
  (1 < List.length ns)%nat ->
  let ids := VArr (map (fun n => integer_id (Z.of_N n)) ns) in
  js_eval (u "[[" ++ join (u ", ") (map Number_toString ns) ++ u "]]")
  = Evaluated (VArr [ids]) ->
  option_map (parseToolCall js_eval) (generateFunctionCall a)
  = Some [Call (u "deleteTodosByIds") [ids] (Registered deleteTodosByIds_tool)].
Proof.
  intros Hc Hi Hn Hlen ids Heval. apply Qle_bool_iff in Hc.
  unfold generateFunctionCall. rewrite Hc, Hi, Hn. cbn [negb].
  destruct ns as [| n [| n' ns]]; [cbn in Hlen; lia | cbn in Hlen; lia |].
  cbn [option_map]. f_equal.
  set (J := join (u ", ") (map Number_toString (n :: n' :: ns))) in *.
  replace (u "deleteTodosByIds([" ++ J ++ u "])")
    with (call_span (u "deleteTodosByIds") (91%N :: J ++ [93%N]))
    by (unfold call_span; cbn [u app]; rewrite <- app_assoc; reflexivity).
  assert (Hparen : lacks 41 (91%N :: J ++ [93%N]) = true).
  { change (91%N :: J ++ [93%N]) with ([91%N] ++ J ++ [93%N]).
    rewrite !lacks_app. unfold J.
    rewrite lacks_number_list by reflexivity. reflexivity. }
  rewrite (only_call_of_span js_eval (u "deleteTodosByIds")
             deleteTodosByIds_tool _ eq_refl Hparen).
  f_equal. f_equal.
  assert (Htight : tight (91%N :: J ++ [93%N]) = true).
  { unfold tight. change (91%N :: J ++ [93%N]) with (([91%N] ++ J) ++ [93%N]).
    rewrite last_last. reflexivity. }
  rewrite (trim_tight _ Htight).
  unfold parse_params, try_params.
  replace (includes (91%N :: J ++ [93%N]) (u "[")) with true
    by (symmetry; change (u "[") with [91%N]; cbn [includes startsWith];
        rewrite N.eqb_refl, startsWith_nil; reflexivity).
  cbn [orb].
  replace (u "[" ++ (91%N :: J ++ [93%N]) ++ u "]") with (u "[[" ++ J ++ u "]]")
    by (cbn [u app]; rewrite <- app_assoc; reflexivity).
  rewrite Heval. reflexivity.
Qed.

Lemma listed_delete_round_trip_witness :
  option_map (parseToolCall literal_eval)
    (generateFunctionCall (analyzeIntent delete_2_3_5))
  = Some [Call (u "deleteTodosByIds")
            [VArr (map (fun n => integer_id (Z.of_N n)) [2; 3; 5]%N)]
            (Registered deleteTodosByIds_tool)].
Proof.
  apply (listed_delete_round_trip literal_eval (analyzeIntent delete_2_3_5)
           [2; 3; 5]%N).
  - vm_compute. intros H. discriminate H.
  - vm_compute. reflexivity.
  - vm_compute. reflexivity.
  - vm_compute. lia.
  - vm_compute. reflexivity.
Defined.

Lemma parse_no_argument_call (js_eval : jsstring -> evalOutcome)
    (name : jsstring) (d : toolDescriptor) :
  own_property name AVAILABLE_TOOLS = Some d ->
  parseToolCall js_eval (name ++ u "()") = [Call name [] (Registered d)].
Proof.
  intros Hd. change (name ++ u "()") with (call_span name []).
  rewrite (only_call_of_span js_eval name d [] Hd eq_refl). reflexivity.
Qed.

(** ** The parser on texts without brackets or parentheses *)

Lemma forallb_firstn (p : N -> bool) (n : nat) (s : jsstring) :
  forallb p s = true -> forallb p (firstn n s) = true.
Proof.
  revert n. induction s as [| c s IH]; intros [| n] H; try reflexivity.
  cbn [forallb firstn] in *. andb_hyp H as [Hc Hs]. now rewrite Hc, IH.
Qed.

Lemma forallb_skipn (p : N -> bool) (n : nat) (s : jsstring) :
  forallb p s = true -> forallb p (skipn n s) = true.
Proof.
  revert n. induction s as [| c s IH]; intros [| n] H; try reflexivity;
    [exact H |].
  cbn [forallb skipn] in *. andb_hyp H as [Hc Hs]. now apply IH.
Qed.

Lemma forallb_substring (p : N -> bool) (a b : nat) (s : jsstring) :
  forallb p s = true -> forallb p (substring s a b) = true.
Proof. intros H. apply forallb_firstn, forallb_skipn, H. Qed.

Lemma forallb_dropWhile (p q : N -> bool) (s : jsstring) :
  forallb p s = true -> forallb p (dropWhile q s) = true.
Proof.
  induction s as [| c s IH]; [reflexivity |].
  intros H. cbn [dropWhile]. destruct (q c); [| exact H].
  cbn [forallb] in H. andb_hyp H as [_ Hs]. now apply IH.
Qed.

Lemma forallb_rev (p : N -> bool) (s : jsstring) :
  forallb p s = true -> forallb p (rev s) = true.
Proof.
  intros H. rewrite forallb_forall in *. intros x Hx.
  apply H. now apply in_rev.
Qed.

Lemma forallb_trim (p : N -> bool) (s : jsstring) :
  forallb p s = true -> forallb p (trim s) = true.
Proof.
  intros H. unfold trim, trimEnd, trimStart.
  now apply forallb_rev, forallb_dropWhile, forallb_rev, forallb_dropWhile.
Qed.

(** Without a bracket or a brace the evaluator is not asked. *)
Lemma parse_params_plain (js_eval : jsstring -> evalOutcome)
    (paramsStr : jsstring) :
  lacks 91 paramsStr = true -> lacks 123 paramsStr = true ->
  parse_params js_eval paramsStr = flat_map coerce (paramParts paramsStr).
Proof.
  intros H1 H2. unfold parse_params, try_params.
  destruct paramsStr as [| c s]; [reflexivity |].
  change (u "[") with [91%N]. change (u "{") with [123%N].
  rewrite (includes_single 91 _ H1), (includes_single 123 _ H2). reflexivity.
Qed.

Lemma coerce_scalar (part : jsstring) : forallb scalar (coerce part) = true.
Proof.
  unfold coerce.
  destruct (quoted_by DQ part); [reflexivity |].
  destruct (quoted_by SQ part); [reflexivity |].
  destruct (str_eqb part (u "null")); [reflexivity |].
  destruct (str_eqb part (u "true") || str_eqb part (u "false"));
    [reflexivity |].
  destruct (StringToNumber part) as [[q | neg] |], part; reflexivity.
Qed.

Lemma call_of_match_plain (js_eval : jsstring -> evalOutcome)
    (text : jsstring) (m : rmatch_result) :
  lacks 91 text = true -> lacks 123 text = true ->
  call_of_match js_eval text m
  = match capture text m 1, capture text m 2 with
    | Some functionName, Some args =>
        match lookup_tool functionName with
        | Some t => [Call functionName
                       (flat_map coerce (paramParts (trim args))) t]
        | None => []
        end
    | _, _ => []
    end.
Proof.
  intros H1 H2. unfold call_of_match.
  destruct (capture text m 1) as [fname |]; [| reflexivity].
  destruct (capture text m 2) as [args |] eqn:E; [| reflexivity].
  destruct (lookup_tool fname); [| reflexivity].
  rewrite parse_params_plain; [reflexivity | |];
    unfold capture in E;
    destruct (lookup_cap 2 (caps (m_final m))) as [[a b] |];
    try discriminate; injection E as <-;
    apply forallb_trim, forallb_substring; assumption.
Qed.

(** X9.  On a text without a square bracket and without a brace the
    parser does not depend on the evaluator: it yields the calls it yields
    with an evaluator that always raises, and every parameter is a string,
    a number, a boolean or [null]. *)
Theorem bracket_free_text_needs_no_eval (js_eval : jsstring -> evalOutcome)
    (text : jsstring) :
  lacks 91 text = true -> lacks 123 text = true ->
  parseToolCall js_eval text = parseToolCall (fun _ => Raised) text
  /\ (forall call, In call (parseToolCall js_eval text) ->
        forallb scalar (params call) = true).
Proof.
  intros H1 H2. unfold parseToolCall.
  assert (Hext : forall e1 e2 ms,
            flat_map (call_of_match e1 text) ms
            = flat_map (call_of_match e2 text) ms).
  { intros e1 e2 ms. induction ms as [| m ms IH]; [reflexivity |].
    cbn [flat_map]. rewrite IH.
    now rewrite !call_of_match_plain. }
  split; [apply Hext |].
  intros call Hin. apply in_flat_map in Hin as [m [_ Hin]].
  rewrite call_of_match_plain in Hin by assumption.
  destruct (capture text m 1) as [fname |]; [| destruct Hin].
  destruct (capture text m 2) as [args |]; [| destruct Hin].
  destruct (lookup_tool fname); [| destruct Hin].
  destruct Hin as [<- | []]. cbn [params].
  induction (paramParts (trim args)) as [| part parts IH]; [reflexivity |].
  cbn [flat_map]. rewrite forallb_app, coerce_scalar. exact IH.
Qed.

Lemma bracket_free_text_needs_no_eval_witness :
  parseToolCall literal_eval
    (u "createTodo(" ++ quoted (u "buy milk") ++ u ", high)")
  = parseToolCall (fun _ => Raised)
      (u "createTodo(" ++ quoted (u "buy milk") ++ u ", high)")
  /\ (forall call,
        In call (parseToolCall literal_eval
                   (u "createTodo(" ++ quoted (u "buy milk")
                    ++ u ", high)")) ->
        forallb scalar (params call) = true).
Proof.
  apply (bracket_free_text_needs_no_eval literal_eval
           (u "createTodo(" ++ quoted (u "buy milk") ++ u ", high)"));
    reflexivity.
Defined.

Lemma lacks_suffix (c : N) (w s : jsstring) :
  lacks c (w ++ s) = true -> lacks c s = true.
Proof. rewrite lacks_app. intros H. andb_hyp H as [_ H]. exact H. Qed.

Lemma chr_reads (ci : bool) (c : N) (k : cont) (st x : mstate) :
  rmatch ci (chr c) k st = Some x ->
  exists d tl, rest st = d :: tl /\ canon ci c = canon ci d.
Proof.
  unfold chr. cbn [rmatch]. destruct (rest st) as [| d tl]; [discriminate |].
  unfold in_class. cbn [existsb item_matches xorb orb].
  rewrite orb_false_r. destruct (canon ci c =? canon ci d)%N eqn:E;
    [| discriminate].
  intros _. exists d, tl. apply N.eqb_eq in E. split; [reflexivity | exact E].
Qed.

(** A call needs both parentheses. *)
Lemma match_at_needs_parentheses (i : nat) (pv : option N) (s : jsstring) :
  lacks 40 s = true \/ lacks 41 s = true ->
  match_at functionCallRegex i pv s = None.
Proof.
  intros Hl. unfold match_at. rewrite functionCallRegex_shape.
  change (p_ci functionCallRegex) with false.
  match goal with
  | |- ?t = None => destruct t as [x |] eqn:E; [exfalso | reflexivity]
  end.
  rewrite rmatch_seq in E.
  apply rmatch_reads in E as (w1 & st1 & [R1 _] & _ & E).
  rewrite rmatch_seq in E.
  apply rmatch_reads in E as (w2 & st2 & [R2 _] & _ & E).
  unfold call_tail in E. rewrite rmatch_seq in E.
  pose proof E as E40. apply chr_reads in E40 as (d & tl & Hr & Hd).
  unfold canon in Hd; cbn [andb] in Hd; subst d.
  cbn [rest] in R1. rewrite R1, R2, Hr in Hl.
  destruct Hl as [Hl | Hl].
  - apply lacks_suffix, lacks_suffix in Hl. discriminate Hl.
  - apply rmatch_reads in E as (w3 & st3 & [R3 _] & _ & E).
    rewrite rmatch_seq in E.
    apply rmatch_reads in E as (w4 & st4 & [R4 _] & _ & E).
    apply chr_reads in E as (d & tl' & Hr' & Hd).
    unfold canon in Hd; cbn [andb] in Hd; subst d.
    rewrite Hr in R3. rewrite R3, R4, Hr' in Hl.
    do 4 apply lacks_suffix in Hl. discriminate Hl.
Qed.

Lemma search_needs_parentheses (s : jsstring) :
  forall (i : nat) (pv : option N),
    lacks 40 s = true \/ lacks 41 s = true ->
    search_from functionCallRegex i pv s = None.
Proof.
  induction s as [| c s IH]; intros i pv Hl; cbn [search_from];
    rewrite (match_at_needs_parentheses _ _ _ Hl); [reflexivity |].
  apply IH. destruct Hl as [Hl | Hl]; [left | right];
    apply (lacks_suffix _ [c]); exact Hl.
Qed.

(** X10.  A text without an opening parenthesis, or without a closing
    one, holds no call. *)
Theorem no_call_without_parentheses (js_eval : jsstring -> evalOutcome)
    (text : jsstring) :
  lacks 40 text = true \/ lacks 41 text = true ->
  parseToolCall js_eval text = [].
Proof.
  intros Hl. unfold parseToolCall, exec_all. cbn [exec_all_from].
  rewrite (search_needs_parentheses text 0 None Hl). reflexivity.
Qed.

Lemma no_call_without_parentheses_witness :
  parseToolCall literal_eval (u "I would call getAllTodos( for that") = [].
Proof.
  apply (no_call_without_parentheses literal_eval
           (u "I would call getAllTodos( for that")).
  right. reflexivity.
Defined.

Lemma trim_blank (s : jsstring) : forallb is_space s = true -> trim s = [].
Proof.
  intros H. unfold trim, trimStart, trimEnd.
  replace (dropWhile is_space s) with (@nil N); [reflexivity |].
  induction s as [| c s IH]; [reflexivity |].
  cbn [forallb] in H. andb_hyp H as [Hc Hs]. cbn [dropWhile].
  rewrite Hc. exact (IH Hs).
Qed.

(** X11.  The call of a registered tool whose parentheses hold nothing
    but white space parses to that tool with no parameters. *)
Theorem blank_argument_list (js_eval : jsstring -> evalOutcome)
    (name : jsstring) (d : toolDescriptor) (blank : jsstring) :
  own_property name AVAILABLE_TOOLS = Some d ->
  forallb is_space blank = true ->
  parseToolCall js_eval (call_span name blank) = [Call name [] (Registered d)].
Proof.
  intros Hd Hb.
  rewrite (only_call_of_span js_eval name d blank Hd).
  - rewrite (trim_blank blank Hb). reflexivity.
  - clear Hd. induction blank as [| c s IH]; [reflexivity |].
    cbn [forallb] in Hb. andb_hyp Hb as [Hc Hs].
    change (lacks 41 (c :: s)) with (negb (c =? 41)%N && lacks 41 s).
    rewrite (IH Hs), andb_true_r. apply negb_true_iff, N.eqb_neq.
    intros ->. discriminate Hc.
Qed.

Lemma blank_argument_list_witness :
  parseToolCall literal_eval (call_span (u "getTodoStats") (u "  "))
  = [Call (u "getTodoStats") [] (Registered (Tool (u "getTodoStats") []
                                               fn_getTodoStats))].
Proof.
  apply (blank_argument_list literal_eval (u "getTodoStats")
           (Tool (u "getTodoStats") [] fn_getTodoStats) (u "  "));
    reflexivity.
Defined.

(** ** The other operations of the record store *)

Lemma count_positive (cond : todoRow -> bool) (s : db) :
  (0 <? N.of_nat (List.length (filter cond s)))%N = existsb cond s.
Proof.
  induction s as [| r s IH]; [reflexivity |].
  cbn [filter existsb]. destruct (cond r); [| exact IH].
  cbn [List.length orb]. apply N.ltb_lt. lia.
Qed.

Lemma filter_none (cond : todoRow -> bool) (s : db) :
  existsb cond s = false ->
  filter cond s = [] /\ filter (fun r => negb (cond r)) s = s.
Proof.
  induction s as [| r s IH]; [intros _; split; reflexivity |].
  cbn [existsb filter]. intros H. apply orb_false_elim in H as [Hr Hs].
  rewrite Hr. cbn [negb]. destruct (IH Hs) as [-> ->]. split; reflexivity.
Qed.

Lemma map_unless (f : todoRow -> todoRow) (cond : todoRow -> bool) (s : db) :
  existsb cond s = false -> map (fun r => if cond r then f r else r) s = s.
Proof.
  induction s as [| r s IH]; [reflexivity |].
  cbn [existsb map]. intros H. apply orb_false_elim in H as [Hr Hs].
  rewrite Hr, (IH Hs). reflexivity.
Qed.

(** X12.  When no row has the id ([getTodoById] finds nothing),
    [updateTodo], [deleteTodoById], [markTodoCompleted] and
    [markTodoIncomplete] return [false] and leave the store as it is. *)
Theorem missing_id_changes_nothing (i : Z) (s : db) :
  getTodoById i s = None ->
  (forall now newText priority category,
      updateTodo now i newText priority category s = (false, s))
  /\ deleteTodoById i s = (false, s)
  /\ (forall t1 t2, markTodoCompleted t1 t2 i s = (false, s))
  /\ (forall now, markTodoIncomplete now i s = (false, s)).
Proof.
  intros H.
  assert (He : existsb (fun r => (id r =? i)%Z) s = false).
  { unfold getTodoById in H. destruct (existsb _ s) eqn:E; [| reflexivity].
    apply existsb_exists in E as [r [Hin Hr]].
    apply (find_none _ _ H) in Hin. congruence. }
  unfold updateTodo, deleteTodoById, markTodoCompleted, markTodoIncomplete,
    update_where, set_where, delete_where.
  rewrite !count_positive, He.
  destruct (filter_none _ _ He) as [_ ->].
  repeat split; intros; rewrite map_unless by exact He; reflexivity.
Qed.

Lemma missing_id_changes_nothing_witness :
  (forall now newText priority category,
      updateTodo now 7 newText priority category
        [Row 1 (u "buy milk") (u "low") None false 3 3 None]
      = (false, [Row 1 (u "buy milk") (u "low") None false 3 3 None]))
  /\ deleteTodoById 7 [Row 1 (u "buy milk") (u "low") None false 3 3 None]
     = (false, [Row 1 (u "buy milk") (u "low") None false 3 3 None])
  /\ (forall t1 t2,
        markTodoCompleted t1 t2 7
          [Row 1 (u "buy milk") (u "low") None false 3 3 None]
        = (false, [Row 1 (u "buy milk") (u "low") None false 3 3 None]))
  /\ (forall now,
        markTodoIncomplete now 7
          [Row 1 (u "buy milk") (u "low") None false 3 3 None]
        = (false, [Row 1 (u "buy milk") (u "low") None false 3 3 None])).
Proof.
  apply (missing_id_changes_nothing 7
           [Row 1 (u "buy milk") (u "low") None false 3 3 None]).
  reflexivity.
Defined.

Lemma find_filter_other (i j : Z) (s : db) :
  getTodoById j (filter (fun r => negb (id r =? i)%Z) s)
  = if (j =? i)%Z then None else getTodoById j s.
Proof.
  unfold getTodoById.
  induction s as [| r s IH]; [destruct (j =? i)%Z; reflexivity |].
  cbn [filter find].
  destruct (id r =? i)%Z eqn:Ei; cbn [negb find].
  - rewrite IH. destruct (j =? i)%Z eqn:Ej; [reflexivity |].
    replace (id r =? j)%Z with false; [reflexivity |].
    symmetry. apply Z.eqb_neq. apply Z.eqb_eq in Ei. apply Z.eqb_neq in Ej.
    congruence.
  - destruct (id r =? j)%Z eqn:Er.
    + replace (j =? i)%Z with false; [reflexivity |].
      symmetry. apply Z.eqb_neq. apply Z.eqb_eq in Er. apply Z.eqb_neq in Ei.
      congruence.
    + exact IH.
Qed.

Lemma existsb_find (i : Z) (s : db) :
  existsb (fun r => (id r =? i)%Z) s
  = match getTodoById i s with Some _ => true | None => false end.
Proof.
  unfold getTodoById. induction s as [| r s IH]; [reflexivity |].
  cbn [existsb find]. destruct (id r =? i)%Z; [reflexivity | exact IH].
Qed.

(** X13.  [deleteTodoById] returns whether a row had the id; afterwards
    [getTodoById] does not find the id, and finds every other id as
    before. *)
Theorem deleteTodoById_lookup (i j : Z) (s : db) :
  fst (deleteTodoById i s)
  = match getTodoById i s with Some _ => true | None => false end
  /\ getTodoById j (snd (deleteTodoById i s))
     = if (j =? i)%Z then None else getTodoById j s.
Proof.
  unfold deleteTodoById, delete_where. cbn [fst snd].
  rewrite count_positive, existsb_find, find_filter_other. split; reflexivity.
Qed.

Lemma id_is_integer (z : Z) (r : todoRow) :
  id_is (integer_id z) r = (id r =? z)%Z.
Proof.
  unfold integer_id, id_is, Qeq_bool, inject_Z. cbn [Qnum Qden].
  rewrite !Z.mul_1_r. rewrite Z.eqb_sym. reflexivity.
Qed.

Lemma filter_filter (f g : todoRow -> bool) (s : db) :
  filter f (filter g s) = filter (fun r => g r && f r) s.
Proof.
  induction s as [| r s IH]; [reflexivity |].
  cbn [filter]. destruct (g r); cbn [filter andb]; rewrite IH; reflexivity.
Qed.

Lemma filter_ext_db (f g : todoRow -> bool) (s : db) :
  (forall r, f r = g r) -> filter f s = filter g s.
Proof.
  intros H. induction s as [| r s IH]; [reflexivity |].
  cbn [filter]. rewrite H, IH. reflexivity.
Qed.

Lemma filter_split_length (cond : todoRow -> bool) (s : db) :
  (List.length (filter cond s)
   + List.length (filter (fun r => negb (cond r)) s) = List.length s)%nat.
Proof.
  induction s as [| r s IH]; [reflexivity |].
  cbn [filter]. destruct (cond r); cbn [negb List.length]; lia.
Qed.

Lemma delete_each (zs : list Z) :
  forall s : db,
    fold_left (fun s i => snd (deleteTodoById i s)) zs s
    = filter (fun r => negb (existsb (fun v => id_is v r) (map integer_id zs))) s.
Proof.
  induction zs as [| z zs IH]; intros s.
  - cbn. induction s as [| r s IHs]; [reflexivity |].
    cbn [filter]. cbn. f_equal. exact IHs.
  - cbn [fold_left map existsb]. rewrite IH.
    unfold deleteTodoById, delete_where. cbn [snd].
    rewrite filter_filter. apply filter_ext_db. intros r.
    rewrite id_is_integer.
    rewrite negb_orb. reflexivity.
Qed.

(** X14.  [deleteTodosByIds] on a list of integer ids leaves the store that
    deleting the ids one after the other with [deleteTodoById] leaves, and
    returns the number of rows that went. *)
Theorem deleteTodosByIds_one_by_one (zs : list Z) (s : db) :
  let s' := fold_left (fun s i => snd (deleteTodoById i s)) zs s in
  deleteTodosByIds (VArr (map integer_id zs)) s
  = (N.of_nat (List.length s - List.length s'), s').
Proof.
  cbn zeta. rewrite delete_each.
  destruct zs as [| z zs].
  - cbn [map existsb negb deleteTodosByIds].
    replace (filter (fun _ => true) s) with s.
    + rewrite Nat.sub_diag. reflexivity.
    + induction s as [| r s IH]; [reflexivity |]. cbn [filter]. congruence.
  - cbn [map deleteTodosByIds]. unfold delete_where.
    f_equal. f_equal.
    pose proof (filter_split_length
                  (fun r => existsb (fun v => id_is v r)
                              (integer_id z :: map integer_id zs)) s) as H.
    lia.
Qed.

Lemma map_map_cond (f g : todoRow -> todoRow) (cond : todoRow -> bool) (s : db) :
  (forall r, cond r = true -> cond (f r) = true) ->
  (forall r, cond r = true -> g (f r) = g r) ->
  map (fun r => if cond r then g r else r)
      (map (fun r => if cond r then f r else r) s)
  = map (fun r => if cond r then g r else r) s.
Proof.
  intros Hc Hg. rewrite map_map. apply map_ext_in. intros r _.
  destruct (cond r) eqn:E.
  - rewrite (Hc r E). apply Hg, E.
  - rewrite E. reflexivity.
Qed.

Lemma filter_after_set (f : todoRow -> todoRow) (i : Z) (s : db) :
  (forall r, id (f r) = id r) ->
  List.length (filter (fun r => (id r =? i)%Z)
                 (map (fun r => if (id r =? i)%Z then f r else r) s))
  = List.length (filter (fun r => (id r =? i)%Z) s).
Proof.
  intros Hid. induction s as [| r s IH]; [reflexivity |].
  cbn [map filter]. destruct (id r =? i)%Z eqn:E.
  - rewrite Hid, E. cbn [List.length]. rewrite IH. reflexivity.
  - rewrite E. exact IH.
Qed.

(** X15.  Completing a todo again overwrites the earlier completion: the
    outcome is that of the later call alone.  Reopening a completed todo
    has the outcome of reopening it directly, and the row then found under
    the id is not completed, has no completion time and carries the time
    of the reopening as its update time. *)
Theorem completion_is_overwritten (t1 t2 t3 t4 : N) (i : Z) (s : db) :
  markTodoCompleted t3 t4 i (snd (markTodoCompleted t1 t2 i s))
  = markTodoCompleted t3 t4 i s
  /\ markTodoIncomplete t3 i (snd (markTodoCompleted t1 t2 i s))
     = markTodoIncomplete t3 i s
  /\ (forall r, getTodoById i (snd (markTodoIncomplete t3 i s)) = Some r ->
        completed r = false /\ completed_at r = None /\ updated_at r = t3).
Proof.
  unfold markTodoCompleted, markTodoIncomplete, set_where. cbn [snd].
  repeat split.
  - rewrite filter_after_set by reflexivity.
    rewrite map_map_cond; [reflexivity | intros r H; exact H | reflexivity].
  - rewrite filter_after_set by reflexivity.
    rewrite map_map_cond; [reflexivity | intros r H; exact H | reflexivity].
  - revert H. unfold getTodoById. induction s as [| x s IH]; [discriminate |].
    cbn [map find]. destruct (id x =? i)%Z eqn:E.
    + cbn [set_completion id]. rewrite E. intros [= <-]. reflexivity.
    + rewrite E. exact IH.
  - revert H. unfold getTodoById. induction s as [| x s IH]; [discriminate |].
    cbn [map find]. destruct (id x =? i)%Z eqn:E.
    + cbn [set_completion id]. rewrite E. intros [= <-]. reflexivity.
    + rewrite E. exact IH.
  - revert H. unfold getTodoById. induction s as [| x s IH]; [discriminate |].
    cbn [map find]. destruct (id x =? i)%Z eqn:E.
    + cbn [set_completion id]. rewrite E. intros [= <-]. reflexivity.
    + rewrite E. exact IH.
Qed.

Lemma find_filter_pending (i : Z) (s : db) :
  getTodoById i (filter (fun r => negb (completed r)) s)
  = find (fun r => (id r =? i)%Z && negb (completed r)) s.
Proof.
  unfold getTodoById. induction s as [| r s IH]; [reflexivity |].
  cbn [filter find]. destruct (completed r); cbn [negb find].
  - rewrite andb_false_r. exact IH.
  - rewrite andb_true_r. destruct (id r =? i)%Z; [reflexivity | exact IH].
Qed.

(** X16.  [clearCompleted] returns the number of completed rows and keeps
    exactly the rows that are not completed; a second call returns 0 and
    changes nothing; a todo that was just marked completed is not found
    after it. *)
Theorem clearCompleted_spec (s : db) :
  let n := fst (clearCompleted s) in
  let s' := snd (clearCompleted s) in
  (N.to_nat n + List.length s' = List.length s)%nat
  /\ existsb completed s' = false
  /\ clearCompleted s' = (0%N, s')
  /\ (forall r, In r s' <-> In r s /\ completed r = false)
  /\ (forall t1 t2 i,
        getTodoById i (snd (clearCompleted (snd (markTodoCompleted t1 t2 i s))))
        = None).
Proof.
  cbn zeta. unfold clearCompleted, delete_where. cbn [fst snd].
  assert (Hnone : existsb completed (filter (fun r => negb (completed r)) s)
                  = false).
  { induction s as [| r s IH]; [reflexivity |].
    cbn [filter]. destruct (completed r) eqn:E; cbn [negb existsb];
      [exact IH | rewrite E; exact IH]. }
  repeat split.
  - rewrite Nat2N.id. apply filter_split_length.
  - exact Hnone.
  - destruct (filter_none _ _ Hnone) as [-> ->]. reflexivity.
  - apply filter_In in H. tauto.
  - apply filter_In in H. destruct H as [_ H].
    destruct (completed r); [discriminate | reflexivity].
  - intros [Hin Hc]. apply filter_In. rewrite Hc. split; [exact Hin | reflexivity].
  - intros t1 t2 i. rewrite find_filter_pending.
    unfold markTodoCompleted, set_where. cbn [snd]. clear Hnone.
    induction s as [| r s IH]; [reflexivity |].
    cbn [map find]. destruct (id r =? i)%Z eqn:E.
    + cbn [set_completion id completed]. rewrite andb_false_r. exact IH.
    + rewrite E. exact IH.
Qed.

Lemma map_id_set (f : todoRow -> todoRow) (cond : todoRow -> bool) (s : db) :
  (forall r, id (f r) = id r) ->
  map id (map (fun r => if cond r then f r else r) s) = map id s.
Proof.
  intros H. rewrite map_map. apply map_ext. intros r.
  destruct (cond r); [apply H | reflexivity].
Qed.

Lemma NoDup_map_filter (cond : todoRow -> bool) (s : db) :
  NoDup (map id s) -> NoDup (map id (filter cond s)).
Proof.
  induction s as [| r s IH]; [intros H; exact H |].
  cbn [map filter]. intros H. inversion H as [| x l Hx Hl]; subst.
  destruct (cond r); [| exact (IH Hl)].
  cbn [map]. constructor; [| exact (IH Hl)].
  intros Hin. apply Hx. apply in_map_iff in Hin as [y [Hy Hin]].
  apply filter_In in Hin as [Hin _]. apply in_map_iff. exists y. tauto.
Qed.

Lemma unique_id_count (i : Z) (s : db) :
  NoDup (map id s) ->
  (List.length (filter (fun r => (id r =? i)%Z) s) <= 1)%nat.
Proof.
  induction s as [| r s IH]; [intros _; cbn; lia |].
  cbn [map filter]. intros H. inversion H as [| x l Hx Hl]; subst.
  destruct (id r =? i)%Z eqn:E; [| exact (IH Hl)].
  cbn [List.length]. apply Z.eqb_eq in E.
  replace (filter (fun r0 => (id r0 =? i)%Z) s) with (@nil todoRow);
    [cbn; lia |].
  symmetry. apply (filter_none (fun r0 => (id r0 =? i)%Z)).
  destruct (existsb _ s) eqn:Ex; [| reflexivity].
  apply existsb_exists in Ex as [y [Hin Hy]]. apply Z.eqb_eq in Hy.
  exfalso. apply Hx. apply in_map_iff. exists y. split; [lia | exact Hin].
Qed.

Lemma filter_or_length (f g : todoRow -> bool) (s : db) :
  (List.length (filter (fun r => f r || g r) s)
   <= List.length (filter f s) + List.length (filter g s))%nat.
Proof.
  induction s as [| r s IH]; [cbn; lia |].
  cbn [filter]. destruct (f r), (g r); cbn [orb List.length]; lia.
Qed.

Lemma listed_ids_count (zs : list Z) (s : db) :
  NoDup (map id s) ->
  (List.length (filter (fun r => existsb (fun v => id_is v r)
                                    (map integer_id zs)) s)
   <= List.length zs)%nat.
Proof.
  intros H. induction zs as [| z zs IH].
  - cbn [map existsb]. replace (filter (fun _ => false) s) with (@nil todoRow);
      [cbn; lia |].
    clear H. induction s as [| r s IHs]; [reflexivity | exact IHs].
  - cbn [map existsb List.length].
    pose proof (filter_or_length (fun r => id_is (integer_id z) r)
                  (fun r => existsb (fun v => id_is v r) (map integer_id zs))
                  s) as Hor.
    pose proof (unique_id_count z s H) as H1.
    rewrite (filter_ext_db (fun r => id_is (integer_id z) r)
               (fun r => (id r =? z)%Z)) in Hor
      by (intros r; apply id_is_integer).
    lia.
Qed.

(** X17.  When the ids of the rows are pairwise distinct they remain so
    after every update and deletion; a [deleteTodoById] that returns
    [true] then removes exactly one row, and [deleteTodosByIds] returns at
    most the number of ids it is given. *)
Theorem unique_ids_are_kept (s : db) :
  NoDup (map id s) ->
  (forall now i newText priority category,
      NoDup (map id (snd (updateTodo now i newText priority category s))))
  /\ (forall t1 t2 i, NoDup (map id (snd (markTodoCompleted t1 t2 i s))))
  /\ (forall now i, NoDup (map id (snd (markTodoIncomplete now i s))))
  /\ (forall i, NoDup (map id (snd (deleteTodoById i s))))
  /\ (forall ids, NoDup (map id (snd (deleteTodosByIds ids s))))
  /\ NoDup (map id (snd (clearCompleted s)))
  /\ (forall i, fst (deleteTodoById i s) = true ->
        S (List.length (snd (deleteTodoById i s))) = List.length s)
  /\ (forall zs,
        (fst (deleteTodosByIds (VArr (map integer_id zs)) s)
         <= N.of_nat (List.length zs))%N).
Proof.
  intros H.
  unfold updateTodo, markTodoCompleted, markTodoIncomplete, deleteTodoById,
    clearCompleted, update_where, set_where, delete_where.
  cbn [fst snd].
  split; [| split; [| split; [| split; [| split; [| split; [| split]]]]]].
  - intros. rewrite map_id_set by reflexivity. exact H.
  - intros. rewrite map_id_set by reflexivity. exact H.
  - intros. rewrite map_id_set by reflexivity. exact H.
  - intros. apply NoDup_map_filter, H.
  - intros ids. destruct ids as [| | | | | | items |]; try exact H.
    destruct items as [| v items]; [exact H |].
    cbn [deleteTodosByIds delete_where snd]. apply NoDup_map_filter, H.
  - apply NoDup_map_filter, H.
  - intros i Hi.
    pose proof (filter_split_length (fun r => (id r =? i)%Z) s) as Hs.
    pose proof (unique_id_count i s H) as H1.
    apply N.ltb_lt in Hi. lia.
  - intros zs. destruct zs as [| z zs]; [cbn; lia |].
    cbn [map deleteTodosByIds delete_where fst].
    pose proof (listed_ids_count (z :: zs) s H) as Hc.
    cbn [map] in Hc. lia.
Qed.

Lemma unique_ids_are_kept_witness :
  let s := [Row 1 (u "buy milk") (u "low") None false 3 3 None;
            Row 2 (u "call mum") (u "high") None true 4 5 (Some 5%N)] in
  (forall now i newText priority category,
      NoDup (map id (snd (updateTodo now i newText priority category s))))
  /\ (forall t1 t2 i, NoDup (map id (snd (markTodoCompleted t1 t2 i s))))
  /\ (forall now i, NoDup (map id (snd (markTodoIncomplete now i s))))
  /\ (forall i, NoDup (map id (snd (deleteTodoById i s))))
  /\ (forall ids, NoDup (map id (snd (deleteTodosByIds ids s))))
  /\ NoDup (map id (snd (clearCompleted s)))
  /\ (forall i, fst (deleteTodoById i s) = true ->
        S (List.length (snd (deleteTodoById i s))) = List.length s)
  /\ (forall zs,
        (fst (deleteTodosByIds (VArr (map integer_id zs)) s)
         <= N.of_nat (List.length zs))%N).
Proof.
  apply (unique_ids_are_kept
           [Row 1 (u "buy milk") (u "low") None false 3 3 None;
            Row 2 (u "call mum") (u "high") None true 4 5 (Some 5%N)]).
  cbn [map id]. constructor.
  - cbn. intros [H | []]. discriminate H.
  - constructor; [intros [] | constructor].
Defined.

Lemma str_eqb_refl (a : jsstring) : str_eqb a a = true.
Proof.
  induction a as [| c a IH]; [reflexivity |].
  cbn [str_eqb]. rewrite N.eqb_refl. exact IH.
Qed.

Lemma own_set_same (k : jsstring) (v : tally) (acc : list (jsstring * tally)) :
  own_tally k (set_tally k v acc) = Some v.
Proof.
  induction acc as [| [k' v'] acc IH].
  - cbn [set_tally own_tally]. rewrite str_eqb_refl. reflexivity.
  - cbn [set_tally]. destruct (str_eqb k' k) eqn:E; cbn [own_tally]; rewrite E;
      [reflexivity | exact IH].
Qed.

Lemma own_set_other (k p : jsstring) (v : tally)
    (acc : list (jsstring * tally)) :
  str_eqb k p = false ->
  own_tally p (set_tally k v acc) = own_tally p acc.
Proof.
  intros Hkp. induction acc as [| [k' v'] acc IH].
  - cbn [set_tally own_tally]. rewrite Hkp. reflexivity.
  - cbn [set_tally]. destruct (str_eqb k' k) eqn:E; cbn [own_tally].
    + apply str_eqb_eq in E. subst k'. rewrite Hkp. reflexivity.
    + destruct (str_eqb k' p); [reflexivity | exact IH].
Qed.

Lemma bump_other (k p : jsstring) (acc : list (jsstring * tally)) :
  str_eqb k p = false -> own_tally p (bump k acc) = own_tally p acc.
Proof.
  intros Hkp. unfold bump.
  destruct (own_tally k acc) as [[n |] |]; try (apply own_set_other, Hkp).
  destruct (str_eqb k (u "__proto__")); [reflexivity |].
  destruct (existsb _ _); apply own_set_other, Hkp.
Qed.

Lemma bump_same (p : jsstring) (n : nat) (acc : list (jsstring * tally)) :
  existsb (str_eqb p) Object_prototype_names = false ->
  own_tally p acc = counted n ->
  own_tally p (bump p acc) = counted (S n).
Proof.
  intros Hp Hn. unfold bump. rewrite Hn.
  destruct n as [| n]; cbn [counted].
  - replace (str_eqb p (u "__proto__")) with false.
    + rewrite Hp, own_set_same. reflexivity.
    + symmetry. destruct (str_eqb p (u "__proto__")) eqn:E; [| reflexivity].
      apply str_eqb_eq in E. subst p. discriminate Hp.
  - rewrite own_set_same. do 2 f_equal. lia.
Qed.

Lemma tally_fold (key : todoRow -> option jsstring) (p : jsstring)
    (todos : list todoRow) :
  existsb (str_eqb p) Object_prototype_names = false ->
  forall (acc : list (jsstring * tally)) (n : nat),
    own_tally p acc = counted n ->
    own_tally p
      (fold_left (fun acc t => match key t with
                               | Some k => bump k acc
                               | None => acc
                               end) todos acc)
    = counted (n + List.length
                     (filter (fun t => match key t with
                                       | Some k => str_eqb k p
                                       | None => false
                                       end) todos)).
Proof.
  intros Hp. induction todos as [| t todos IH]; intros acc n Hn.
  - cbn. rewrite Nat.add_0_r. exact Hn.
  - cbn [fold_left filter]. destruct (key t) as [k |].
    + destruct (str_eqb k p) eqn:E.
      * apply str_eqb_eq in E. subst k.
        rewrite (IH _ (S n)) by (apply bump_same; assumption).
        cbn [List.length]. f_equal. lia.
      * apply IH. rewrite bump_other by exact E. exact Hn.
    + apply IH, Hn.
Qed.

Lemma filter_length_perm (f : todoRow -> bool) (a b : list todoRow) :
  Permutation a b -> List.length (filter f a) = List.length (filter f b).
Proof.
  induction 1 as [| x a b _ IH | x y a | a b c _ IH1 _ IH2].
  - reflexivity.
  - cbn [filter]. destruct (f x); cbn [List.length]; congruence.
  - cbn [filter]. destruct (f x), (f y); reflexivity.
  - congruence.
Qed.

(** X18.  In whatever order the rows of the store are returned,
    [getTodoStats] reports the number of rows as [total] and the number of
    completed rows as [completed], with [completed + pending = total];
    under a priority, and under a non-empty category, that is not the name
    of a property of [Object.prototype] it reports the number of rows that
    carry it, and no entry when there is none. *)
Theorem getTodoStats_counts (s todos : list todoRow) :
  Permutation s todos ->
  let st := getTodoStats todos in
  stats_total st = N.of_nat (List.length s)
  /\ stats_completed st = N.of_nat (List.length (filter completed s))
  /\ (stats_completed st + stats_pending st = stats_total st)%N
  /\ (forall p,
        existsb (str_eqb p) Object_prototype_names = false ->
        own_tally p (stats_priorities st)
        = counted (List.length (filter (fun r => str_eqb (priority r) p) s))
        /\ own_tally p (stats_categories st)
           = counted (List.length
                        (filter (fun r => match truthy_category r with
                                          | Some k => str_eqb k p
                                          | None => false
                                          end) s))).
Proof.
  intros Hperm. cbn zeta. unfold getTodoStats.
  cbn [stats_total stats_completed stats_pending stats_priorities
       stats_categories].
  rewrite <- (Permutation_length Hperm).
  rewrite <- (filter_length_perm completed _ _ Hperm).
  split; [reflexivity | split; [reflexivity | split]].
  - pose proof (filter_split_length completed s). lia.
  - intros p Hp. split.
    + rewrite (filter_length_perm _ _ _ Hperm).
      exact (tally_fold (fun t => Some (priority t)) p todos Hp [] 0 eq_refl).
    + rewrite (filter_length_perm _ _ _ Hperm).
      pose proof (tally_fold truthy_category p todos Hp [] 0 eq_refl) as H.
      cbn [Nat.add] in H. rewrite <- H. f_equal.
      clear. generalize (@nil (jsstring * tally)).
      induction todos as [| t todos IH]; intros acc; [reflexivity |].
      cbn [fold_left]. rewrite IH. f_equal.
      unfold truthy_category. destruct (category t) as [[| c cs] |]; reflexivity.
Qed.

Lemma bump_inherited (k p : jsstring) (acc : list (jsstring * tally)) :
  existsb (str_eqb p) Object_prototype_names = true ->
  (forall n, own_tally p acc <> Some (Count n)) ->
  forall n, own_tally p (bump k acc) <> Some (Count n).
Proof.
  intros Hp Hacc n.
  destruct (str_eqb k p) eqn:E.
  - apply str_eqb_eq in E. subst k. unfold bump.
    destruct (own_tally p acc) as [[m |] |] eqn:Eo.
    + exfalso. exact (Hacc m eq_refl).
    + rewrite own_set_same. discriminate.
    + destruct (str_eqb p (u "__proto__")); [rewrite Eo; discriminate |].
      rewrite Hp, own_set_same. discriminate.
  - rewrite bump_other by exact E. apply Hacc.
Qed.

Lemma tally_fold_inherited (key : todoRow -> option jsstring) (p : jsstring)
    (todos : list todoRow) :
  existsb (str_eqb p) Object_prototype_names = true ->
  forall (acc : list (jsstring * tally)),
    (forall n, own_tally p acc <> Some (Count n)) ->
    forall n,
      own_tally p
        (fold_left (fun acc t => match key t with
                                 | Some k => bump k acc
                                 | None => acc
                                 end) todos acc)
      <> Some (Count n).
Proof.
  intros Hp. induction todos as [| t todos IH]; intros acc Hacc.
  - exact Hacc.
  - cbn [fold_left]. apply IH. destruct (key t) as [k |]; [| exact Hacc].
    apply bump_inherited; assumption.
Qed.

Lemma getTodoStats_counts_witness :
  let s := [Row 1 (u "buy milk") (u "low") (Some (u "home")) false 3 3 None;
            Row 2 (u "call mum") (u "high") None true 4 5 (Some 5%N)] in
  let st := getTodoStats
              [Row 2 (u "call mum") (u "high") None true 4 5 (Some 5%N);
               Row 1 (u "buy milk") (u "low") (Some (u "home")) false 3 3
                   None] in
  stats_total st = N.of_nat (List.length s)
  /\ stats_completed st = N.of_nat (List.length (filter completed s))
  /\ (stats_completed st + stats_pending st = stats_total st)%N
  /\ (forall p,
        existsb (str_eqb p) Object_prototype_names = false ->
        own_tally p (stats_priorities st)
        = counted (List.length (filter (fun r => str_eqb (priority r) p) s))
        /\ own_tally p (stats_categories st)
           = counted (List.length
                        (filter (fun r => match truthy_category r with
                                          | Some k => str_eqb k p
                                          | None => false
                                          end) s))).
Proof.
  apply (getTodoStats_counts
           [Row 1 (u "buy milk") (u "low") (Some (u "home")) false 3 3 None;
            Row 2 (u "call mum") (u "high") None true 4 5 (Some 5%N)]
           [Row 2 (u "call mum") (u "high") None true 4 5 (Some 5%N);
            Row 1 (u "buy milk") (u "low") (Some (u "home")) false 3 3
                None]).
  apply perm_swap.
Defined.

(** X19.  A priority or category that is the name of a property of
    [Object.prototype], like [constructor], never gets a count in the
    statistics: the accumulator reads the inherited property as the
    previous count, and [+ 1] makes a text of it. *)
Theorem inherited_keys_are_not_counted (todos : list todoRow) (p : jsstring)
    (n : N) :
  existsb (str_eqb p) Object_prototype_names = true ->
  own_tally p (stats_priorities (getTodoStats todos)) <> Some (Count n)
  /\ own_tally p (stats_categories (getTodoStats todos)) <> Some (Count n).
Proof.
  intros Hp. unfold getTodoStats. cbn [stats_priorities stats_categories].
  split.
  - apply (tally_fold_inherited (fun t => Some (priority t)) p todos Hp []).
    intros m. discriminate.
  - pose proof (tally_fold_inherited truthy_category p todos Hp []
                  (fun m => ltac:(discriminate)) n) as H.
    intros Hc. apply H. rewrite <- Hc. f_equal.
    clear. generalize (@nil (jsstring * tally)).
    induction todos as [| t todos IH]; intros acc; [reflexivity |].
    cbn [fold_left]. rewrite IH. f_equal.
    unfold truthy_category. destruct (category t) as [[| c cs] |]; reflexivity.
Qed.

Lemma inherited_keys_are_not_counted_witness :
  own_tally (u "constructor")
    (stats_priorities
       (getTodoStats
          [Row 1 (u "buy milk") (u "constructor") None false 3 3 None]))
  <> Some (Count 1)
  /\ own_tally (u "constructor")
       (stats_categories
          (getTodoStats
             [Row 1 (u "buy milk") (u "constructor") None false 3 3 None]))
     <> Some (Count 1).
Proof.
  apply (inherited_keys_are_not_counted
           [Row 1 (u "buy milk") (u "constructor") None false 3 3 None]
           (u "constructor") 1).
  reflexivity.
Defined.

(** ** The simple commands *)

(** The code units a loop over one class reads belong to the class. *)
Lemma star_class_reads (ci neg g : bool) (items : list citem) (k : cont) :
  forall (fuel : nat) (st x : mstate),
    star_loop (rmatch ci (CSet neg items)) g k fuel st = Some x ->
    exists w st',
      reads st w st'
      /\ forallb (fun c => xorb neg (in_class ci items c)) w = true
      /\ k st' = Some x.
Proof.
  induction fuel as [| f IH]; intros st x H.
  - exists [], st. split; [apply reads_refl | split; [reflexivity | exact H]].
  - cbn [star_loop] in H.
    assert (Hagain : forall y,
      rmatch ci (CSet neg items)
        (fun st' => if (pos st <? pos st')%nat
                    then star_loop (rmatch ci (CSet neg items)) g k f st'
                    else None) st = Some y ->
      exists w st',
        reads st w st'
        /\ forallb (fun c => xorb neg (in_class ci items c)) w = true
        /\ k st' = Some y).
    { intros y Hy. cbn [rmatch] in Hy.
      destruct (rest st) as [| c tl] eqn:E; [discriminate |].
      destruct (xorb neg (in_class ci items c)) eqn:Ec; [| discriminate].
      destruct (pos st <? pos (advance c tl st))%nat; [| discriminate].
      apply IH in Hy as (w & st' & Hr & Hw & Hk).
      exists (c :: w), st'.
      split; [exact (reads_trans st _ st' [c] w (reads_advance st c tl E) Hr) |].
      split; [| exact Hk]. cbn [forallb]. now rewrite Ec, Hw. }
    unfold orelse in H. destruct g.
    + destruct (rmatch ci (CSet neg items) _ st) eqn:Ea.
      * injection H as <-. now apply Hagain.
      * exists [], st.
        split; [apply reads_refl | split; [reflexivity | exact H]].
    + destruct (k st) eqn:Ek.
      * injection H as <-. exists [], st.
        split; [apply reads_refl | split; [reflexivity | exact Ek]].
      * now apply Hagain.
Qed.

Lemma plus_class_reads (ci neg : bool) (items : list citem) (k : cont)
    (st x : mstate) :
  rmatch ci (plus (CSet neg items)) k st = Some x ->
  exists w st',
    reads st w st' /\ w <> []
    /\ forallb (fun c => xorb neg (in_class ci items c)) w = true
    /\ k st' = Some x.
Proof.
  unfold plus. rewrite rmatch_seq. intros H. cbn [rmatch] in H.
  destruct (rest st) as [| c tl] eqn:E; [discriminate |].
  destruct (xorb neg (in_class ci items c)) eqn:Ec; [| discriminate].
  apply star_class_reads in H as (w & st' & Hr & Hw & Hk).
  exists (c :: w), st'.
  split; [exact (reads_trans st _ st' [c] w (reads_advance st c tl E) Hr) |].
  split; [discriminate |]. split; [| exact Hk].
  cbn [forallb]. now rewrite Ec, Hw.
Qed.

(** The text of a numbered command: what the group of a pattern
    [words \s* kind? \s* #? (\d+)] holds is a run of digits. *)
Lemma numbered_command_group (ws0 : list string) (text n : jsstring) :
  first_group
    (re_i (cat [words ws0; star ws; opt todo_kind; star ws; opt hash;
                number_group 1])) text = Some n ->
  forallb is_digit n = true /\ n <> [].
Proof.
  unfold first_group.
  destruct (exec _ text) as [m |] eqn:E; [| discriminate].
  unfold exec in E.
  apply search_from_found in E as (pre & s' & pv' & Ht & Hi & Hm).
  unfold match_at in Hm. cbn [p_ci p_re re_i] in Hm.
  change (cat [words ws0; star ws; opt todo_kind; star ws; opt hash;
               number_group 1])
    with (Seq (words ws0)
            (Seq (star ws)
               (Seq (opt todo_kind)
                  (Seq (star ws) (Seq (opt hash) (number_group 1)))))) in Hm.
  rewrite rmatch_seq in Hm.
  apply rmatch_reads in Hm as (w1 & st1 & [R1 P1] & _ & Hm).
  rewrite rmatch_seq in Hm.
  apply rmatch_reads in Hm as (w2 & st2 & [R2 P2] & _ & Hm).
  rewrite rmatch_seq in Hm.
  apply rmatch_reads in Hm as (w3 & st3 & [R3 P3] & _ & Hm).
  rewrite rmatch_seq in Hm.
  apply rmatch_reads in Hm as (w4 & st4 & [R4 P4] & _ & Hm).
  rewrite rmatch_seq in Hm.
  apply rmatch_reads in Hm as (w5 & st5 & [R5 P5] & _ & Hm).
  unfold number_group in Hm. rewrite rmatch_group in Hm.
  apply plus_class_reads in Hm as (w & st' & [R P] & Hne & Hw & Hk).
  unfold capture. injection Hk as <-.
  cbn [m_final caps set_cap lookup_cap Nat.eqb].
  cbn [rest pos] in R1, P1.
  rewrite (substring_at text (pre ++ w1 ++ w2 ++ w3 ++ w4 ++ w5) w (rest st')
             (pos st5) (pos st')).
  - destruct w as [| c w]; [congruence |]. intros [= <-].
    split; [| discriminate].
    rewrite <- Hw. clear. generalize (c :: w). intros l.
    induction l as [| x l IH]; [reflexivity |].
    cbn [forallb]. rewrite IH. f_equal.
    unfold in_class. cbn [existsb item_matches xorb]. now rewrite orb_false_r.
  - rewrite Ht, R1, R2, R3, R4, R5, R, <- !app_assoc. reflexivity.
  - rewrite !length_app. lia.
  - exact P.
Qed.

Lemma parse_digits_call (js_eval : jsstring -> evalOutcome) (name : jsstring)
    (d : toolDescriptor) (n : jsstring) :
  own_property name AVAILABLE_TOOLS = Some d ->
  forallb is_digit n = true -> n <> [] ->
  parseToolCall js_eval (name ++ u "(" ++ n ++ u ")")
  = [Call name [integer_id (Z.of_N (digits_value n))] (Registered d)].
Proof.
  intros Hd Hdig Hne.
  destruct (digits_argument _ Hdig Hne) as [Hwf Hden].
  change (name ++ u "(" ++ n ++ u ")") with (call_span name n).
  rewrite (only_call_of_span js_eval name d n Hd)
    by (apply lacks_digits; [reflexivity | exact Hdig]).
  f_equal. f_equal.
  change n with (join (u ", ") (map render [ANumber n])) at 1.
  rewrite (parse_params_rendered js_eval [ANumber n]
             [integer_id (Z.of_N (digits_value n))]).
  - reflexivity.
  - cbn [forallb]. rewrite Hwf. reflexivity.
  - cbn [map]. rewrite Hden. reflexivity.
Qed.

(** Whatever stands between the parentheses, the text [name(...)] of a
    registered name holds a call of that name. *)
Lemma parse_any_call (js_eval : jsstring -> evalOutcome) (name : jsstring)
    (d : toolDescriptor) (X : jsstring) :
  own_property name AVAILABLE_TOOLS = Some d ->
  exists ps more,
    parseToolCall js_eval (name ++ u "(" ++ X ++ u ")")
    = Call name ps (Registered d) :: more.
Proof.
  intros Hd.
  destruct (span_spec (fun c => negb (c =? 41)%N) (X ++ u ")"))
    as (Happ & Hall & Hstop).
  destruct (span (fun c => negb (c =? 41)%N) (X ++ u ")")) as [A r] eqn:E.
  cbn [fst snd] in *.
  destruct r as [| c post].
  - exfalso. rewrite app_nil_r in Happ. rewrite <- Happ in Hall.
    rewrite forallb_app in Hall. andb_hyp Hall as [_ Hall]. discriminate Hall.
  - apply negb_false_iff, N.eqb_eq in Hstop. subst c.
    destruct (first_call_of_span js_eval name d A [] post Hd Hall eq_refl
                eq_refl) as [more Hp].
    exists (parse_params js_eval (trim A)), more. rewrite <- Hp.
    f_equal. unfold call_span. cbn [app].
    rewrite <- !app_assoc. do 2 f_equal. exact Happ.
Qed.

Lemma lowered_no_upper (s : jsstring) :
  forallb (fun c => negb (is_upper c)) (toLowerCase s) = true.
Proof.
  induction s as [| c s IH]; [reflexivity |].
  unfold toLowerCase in *. cbn [map forallb]. rewrite IH, andb_true_r.
  unfold lower_char. destruct (is_upper c) eqn:E; [| now rewrite E].
  unfold is_upper, between in *. andb_hyp E as [H1 H2].
  apply N.leb_le in H1, H2. apply negb_true_iff, andb_false_iff.
  right. apply N.leb_gt. lia.
Qed.

Lemma forallb_replace_matches (p : N -> bool) (text : jsstring)
    (ms : list rmatch_result) :
  forallb p text = true ->
  forall from, forallb p (replace_matches text from ms []) = true.
Proof.
  intros H. induction ms as [| m ms IH]; intros from; cbn [replace_matches].
  - apply forallb_skipn, H.
  - rewrite forallb_app, forallb_substring by exact H. cbn [app andb].
    apply IH.
Qed.

Lemma first_group_part (p : N -> bool) (re0 : pattern) (text t : jsstring) :
  forallb p text = true -> first_group re0 text = Some t ->
  forallb p t = true.
Proof.
  intros H. unfold first_group, capture.
  destruct (exec re0 text) as [m |]; [| discriminate].
  destruct (lookup_cap 1 (caps (m_final m))) as [[a b] |]; [| discriminate].
  pose proof (forallb_substring p a b text H) as Hs.
  destruct (substring text a b); [discriminate |]. now intros [= <-].
Qed.

(** ** The stages of [processUserInput] *)

Section AssistantProperties.

Variable js_eval : jsstring -> evalOutcome.
Variable store : Type.
Variable run : toolFunc -> list value -> store -> outcome * store.

Lemma direct_calls_of (input : jsstring) (c : N) (call : jsstring) :
  primaryIntent (analyzeIntent input) <> None ->
  generateFunctionCall (analyzeIntent input) = Some (c :: call) ->
  direct_calls js_eval input = parseToolCall js_eval (c :: call).
Proof.
  intros Hi Hg. unfold direct_calls. rewrite Hg.
  destruct (primaryIntent (analyzeIntent input)) as [i |] eqn:E;
    [| congruence].
  destruct (classified_intent input i E) as (_ & _ & _ & _ & -> & _).
  reflexivity.
Qed.

Lemma run_one (aiResponse input : jsstring) (call : ParsedCall) (s : store) :
  direct_calls js_eval input = [call] ->
  processUserInput js_eval run aiResponse input s
  = (DirectExecution, [fst (executeTool run call s)],
     snd (executeTool run call s)).
Proof.
  intros H. unfold processUserInput. rewrite H. cbv beta iota.
  rewrite dispatch_cons. reflexivity.
Qed.

(** The one call of the first stage, for the requests whose synthesized
    call takes no argument or one number. *)
Lemma direct_request_calls (input : jsstring) :
  let a := analyzeIntent input in
  let one call := direct_calls js_eval input = [call] in
  (primaryIntent a = Some Stats ->
   one (Call (u "getTodoStats") []
          (Registered (no_argument_tool "getTodoStats" fn_getTodoStats))))
  /\ (primaryIntent a = Some Clear ->
      one (Call (u "clearCompleted") []
             (Registered (no_argument_tool "clearCompleted"
                            fn_clearCompleted))))
  /\ (forall n more,
        numbers (ents a) = n :: more ->
        (primaryIntent a = Some Complete ->
         one (Call (u "markTodoCompleted") [integer_id (Z.of_N n)]
                (Registered (id_tool "markTodoCompleted"
                               fn_markTodoCompleted))))
        /\ (primaryIntent a = Some Incomplete ->
            one (Call (u "markTodoIncomplete") [integer_id (Z.of_N n)]
                   (Registered (id_tool "markTodoIncomplete"
                                  fn_markTodoIncomplete))))
        /\ (primaryIntent a = Some Delete -> more = [] ->
            one (Call (u "deleteTodoById") [integer_id (Z.of_N n)]
                   (Registered (id_tool "deleteTodoById"
                                  fn_deleteTodoById))))).
Proof.
  cbn zeta.
  assert (Hgen : forall i,
            primaryIntent (analyzeIntent input) = Some i ->
            generateFunctionCall (analyzeIntent input)
            = match i with
              | Stats => Some (u "getTodoStats()")
              | Clear => Some (u "clearCompleted()")
              | Complete =>
                  match numbers (ents (analyzeIntent input)) with
                  | n :: _ => Some (u "markTodoCompleted(" ++ Number_toString n
                                    ++ u ")")
                  | [] => None
                  end
              | Incomplete =>
                  match numbers (ents (analyzeIntent input)) with
                  | n :: _ => Some (u "markTodoIncomplete("
                                    ++ Number_toString n ++ u ")")
                  | [] => None
                  end
              | Delete =>
                  match numbers (ents (analyzeIntent input)) with
                  | [] => None
                  | [n] => Some (u "deleteTodoById(" ++ Number_toString n
                                 ++ u ")")
                  | ns => Some (u "deleteTodosByIds(["
                                ++ join (u ", ") (map Number_toString ns)
                                ++ u "])")
                  end
              | _ => generateFunctionCall (analyzeIntent input)
              end).
  { intros i Hi.
    destruct (classified_intent input i Hi) as (_ & _ & _ & Hle & _).
    unfold generateFunctionCall at 1. rewrite Hle, Hi.
    destruct i; try reflexivity.
    all: unfold generateFunctionCall; rewrite Hle, Hi; reflexivity. }
  split; [| split].
  - intros Hi. rewrite (direct_calls_of input _ _ ltac:(congruence) (Hgen _ Hi)).
    exact (parse_no_argument_call js_eval (u "getTodoStats") _ eq_refl).
  - intros Hi. rewrite (direct_calls_of input _ _ ltac:(congruence) (Hgen _ Hi)).
    exact (parse_no_argument_call js_eval (u "clearCompleted") _ eq_refl).
  - intros n more Hn. split; [| split].
    + intros Hi. pose proof (Hgen _ Hi) as Hg.
      rewrite Hn in Hg.
      rewrite (direct_calls_of input _ _ ltac:(congruence) Hg).
      exact (parse_id_call js_eval (u "markTodoCompleted") _ n eq_refl).
    + intros Hi. pose proof (Hgen _ Hi) as Hg.
      rewrite Hn in Hg.
      rewrite (direct_calls_of input _ _ ltac:(congruence) Hg).
      exact (parse_id_call js_eval (u "markTodoIncomplete") _ n eq_refl).
    + intros Hi ->. pose proof (Hgen _ Hi) as Hg.
      rewrite Hn in Hg.
      rewrite (direct_calls_of input _ _ ltac:(congruence) Hg).
      exact (parse_id_call js_eval (u "deleteTodoById") _ n eq_refl).
Qed.


(** The commands of [handleSimpleCommands], and what each parses to. *)
Lemma simple_command_cases (input s : jsstring) :
  handleSimpleCommands input = Some s ->
  (s = u "getAllTodos()" /\ parses_to js_eval s "getAllTodos" [])
  \/ (s = u "getTodoStats()" /\ parses_to js_eval s "getTodoStats" [])
  \/ (exists n,
        s = u "deleteTodoById(" ++ n ++ u ")"
        /\ forallb is_digit n = true
        /\ parses_to js_eval s "deleteTodoById"
             [integer_id (Z.of_N (digits_value n))])
  \/ (exists n,
        s = u "markTodoCompleted(" ++ n ++ u ")"
        /\ forallb is_digit n = true
        /\ parses_to js_eval s "markTodoCompleted"
             [integer_id (Z.of_N (digits_value n))])
  \/ (exists t,
        s = u "createTodo(" ++ quoted t ++ u ")"
        /\ trim t = t
        /\ forallb (fun c => negb (is_upper c)) t = true
        /\ exists ps more,
             parseToolCall js_eval s
             = Call (u "createTodo") ps (Registered createTodo_tool) :: more).
Proof.
  unfold handleSimpleCommands.
  set (lower := trim (toLowerCase input)).
  assert (Hlow : forallb (fun c => negb (is_upper c)) lower = true)
    by (apply forallb_trim, lowered_no_upper).
  destruct (test show_command_re lower).
  { intros [= <-]. left. split; [reflexivity |].
    eexists. split; [reflexivity |].
    exact (parse_no_argument_call js_eval (u "getAllTodos") _ eq_refl). }
  destruct (first_group add_command_re lower) as [text |] eqn:Eadd.
  { intros [= <-]. right. right. right. right.
    exists (trim (replace quote_re true text [])).
    split; [reflexivity |]. split; [apply trim_idempotent |].
    split.
    - apply forallb_trim. unfold replace. apply forallb_replace_matches.
      exact (first_group_part _ _ _ _ Hlow Eadd).
    - exact (parse_any_call js_eval (u "createTodo") createTodo_tool
               (quoted (trim (replace quote_re true text []))) eq_refl). }
  destruct (first_group delete_command_re lower) as [n |] eqn:Edel.
  { intros [= <-]. right. right. left. exists n.
    destruct (numbered_command_group _ _ _ Edel) as [Hdig Hne].
    split; [reflexivity |]. split; [exact Hdig |].
    eexists. split; [reflexivity |].
    exact (parse_digits_call js_eval (u "deleteTodoById") _ n eq_refl Hdig
             Hne). }
  destruct (first_group complete_command_re lower) as [n |] eqn:Ecom.
  { intros [= <-]. right. right. right. left. exists n.
    destruct (numbered_command_group _ _ _ Ecom) as [Hdig Hne].
    split; [reflexivity |]. split; [exact Hdig |].
    eexists. split; [reflexivity |].
    exact (parse_digits_call js_eval (u "markTodoCompleted") _ n eq_refl Hdig
             Hne). }
  destruct (test stats_command_re lower); [| discriminate].
  intros [= <-]. right. left. split; [reflexivity |].
  eexists. split; [reflexivity |].
  exact (parse_no_argument_call js_eval (u "getTodoStats") _ eq_refl).
Qed.

Lemma simple_command_has_call (input s : jsstring) :
  handleSimpleCommands input = Some s ->
  simple_calls js_eval input = parseToolCall js_eval s
  /\ simple_calls js_eval input <> [].
Proof.
  intros Hs. pose proof (simple_command_cases input s Hs) as Hcases.
  assert (Hsimple : simple_calls js_eval input = parseToolCall js_eval s).
  { unfold simple_calls. rewrite Hs.
    destruct Hcases as [[-> _] | [[-> _] | [(n & -> & _) | [(n & -> & _)
      | (t & -> & _)]]]]; reflexivity. }
  split; [exact Hsimple |]. rewrite Hsimple.
  destruct Hcases as [[_ (d & _ & ->)] | [[_ (d & _ & ->)]
    | [(n & _ & _ & (d & _ & ->)) | [(n & _ & _ & (d & _ & ->))
    | (t & _ & _ & _ & ps & more & ->)]]]]; discriminate.
Qed.

(** X21.  A command that [handleSimpleCommands] returns is
    [getAllTodos()], [getTodoStats()], [deleteTodoById(n)] or
    [markTodoCompleted(n)] for a run of digits [n], each of which parses
    to exactly that call, or [createTodo("t")] for a text [t] without
    upper-case letters and without white space at its ends, which parses
    to at least a [createTodo] call.  So the second stage of
    [processUserInput] parses the command, and the model is not asked. *)
Theorem simple_command_calls (aiResponse input s : jsstring) (st : store) :
  handleSimpleCommands input = Some s ->
  ((s = u "getAllTodos()" /\ parses_to js_eval s "getAllTodos" [])
  \/ (s = u "getTodoStats()" /\ parses_to js_eval s "getTodoStats" [])
  \/ (exists n,
        s = u "deleteTodoById(" ++ n ++ u ")"
        /\ forallb is_digit n = true
        /\ parses_to js_eval s "deleteTodoById"
             [integer_id (Z.of_N (digits_value n))])
  \/ (exists n,
        s = u "markTodoCompleted(" ++ n ++ u ")"
        /\ forallb is_digit n = true
        /\ parses_to js_eval s "markTodoCompleted"
             [integer_id (Z.of_N (digits_value n))])
  \/ (exists t,
        s = u "createTodo(" ++ quoted t ++ u ")"
        /\ trim t = t
        /\ forallb (fun c => negb (is_upper c)) t = true
        /\ exists ps more,
             parseToolCall js_eval s
             = Call (u "createTodo") ps (Registered createTodo_tool) :: more))
  /\ simple_calls js_eval input = parseToolCall js_eval s
  /\ fst (fst (processUserInput js_eval run aiResponse input st))
     <> AIResponse.
Proof.
  intros Hs. destruct (simple_command_has_call input s Hs) as [Hsimple Hcall].
  split; [exact (simple_command_cases input s Hs) |].
  split; [exact Hsimple |].
  unfold processUserInput.
  destruct (direct_calls js_eval input) as [| c cs].
  - destruct (simple_calls js_eval input) as [| c cs]; [congruence |].
    destruct (dispatch run (c :: cs) st). cbn. discriminate.
  - destruct (dispatch run (c :: cs) st). cbn. discriminate.
Qed.

(** X22.  When no intent is found and [handleSimpleCommands] returns
    nothing, [processUserInput] executes the calls parsed from the reply
    of the model, in order; a reply without an opening parenthesis
    executes nothing and leaves the store as it is. *)
Theorem model_reply_is_the_last_resort (aiResponse input : jsstring)
    (st : store) :
  primaryIntent (analyzeIntent input) = None ->
  handleSimpleCommands input = None ->
  processUserInput js_eval run aiResponse input st
  = (AIResponse, fst (dispatch run (parseToolCall js_eval aiResponse) st),
     snd (dispatch run (parseToolCall js_eval aiResponse) st))
  /\ (includes aiResponse (u "(") = false ->
      processUserInput js_eval run aiResponse input st = (AIResponse, [], st)).
Proof.
  intros Hi Hs.
  assert (Hd : direct_calls js_eval input = []).
  { unfold direct_calls, generateFunctionCall. rewrite Hi.
    destruct (negb _); reflexivity. }
  assert (Hsc : simple_calls js_eval input = []).
  { unfold simple_calls. rewrite Hs. reflexivity. }
  assert (Hp : processUserInput js_eval run aiResponse input st
               = (AIResponse,
                  fst (dispatch run (parseToolCall js_eval aiResponse) st),
                  snd (dispatch run (parseToolCall js_eval aiResponse) st))).
  { unfold processUserInput. rewrite Hd, Hsc.
    destruct (dispatch run (parseToolCall js_eval aiResponse) st).
    reflexivity. }
  split; [exact Hp |].
  intros Hno. rewrite Hp.
  assert (Hl : lacks 40 aiResponse = true).
  { clear - Hno. change (u "(") with [40%N] in Hno.
    induction aiResponse as [| c r IH]; [reflexivity |].
    cbn [includes startsWith] in Hno.
    rewrite startsWith_nil, andb_true_r in Hno.
    apply orb_false_elim in Hno as [Hc Hr].
    change (lacks 40 (c :: r)) with (negb (c =? 40)%N && lacks 40 r).
    rewrite (IH Hr), andb_true_r, N.eqb_sym, Hc. reflexivity. }
  unfold parseToolCall, exec_all. cbn [exec_all_from].
  rewrite (search_needs_parentheses aiResponse 0 None (or_introl Hl)).
  reflexivity.
Qed.

End AssistantProperties.

Lemma simple_command_calls_witness :
  let js_eval := literal_eval in
  let s := u "deleteTodoById(12)" in
  ((s = u "getAllTodos()" /\ parses_to js_eval s "getAllTodos" [])
   \/ (s = u "getTodoStats()" /\ parses_to js_eval s "getTodoStats" [])
   \/ (exists n,
         s = u "deleteTodoById(" ++ n ++ u ")"
         /\ forallb is_digit n = true
         /\ parses_to js_eval s "deleteTodoById"
              [integer_id (Z.of_N (digits_value n))])
   \/ (exists n,
         s = u "markTodoCompleted(" ++ n ++ u ")"
         /\ forallb is_digit n = true
         /\ parses_to js_eval s "markTodoCompleted"
              [integer_id (Z.of_N (digits_value n))])
   \/ (exists t,
         s = u "createTodo(" ++ quoted t ++ u ")"
         /\ trim t = t
         /\ forallb (fun c => negb (is_upper c)) t = true
         /\ exists ps more,
              parseToolCall js_eval s
              = Call (u "createTodo") ps (Registered createTodo_tool)
                :: more))
  /\ simple_calls js_eval (u "Remove #12") = parseToolCall js_eval s
  /\ fst (fst (processUserInput js_eval
                 (fun (_ : toolFunc) (_ : list value) (st : unit) =>
                    (Returned VNull, st))
                 (u "I can not help.") (u "Remove #12") tt))
     <> AIResponse.
Proof.
  apply (simple_command_calls literal_eval unit
           (fun _ _ st => (Returned VNull, st))
           (u "I can not help.") (u "Remove #12") (u "deleteTodoById(12)")
           tt).
  vm_compute. reflexivity.
Defined.

Lemma model_reply_is_the_last_resort_witness :
  let run := fun (_ : toolFunc) (_ : list value) (st : unit) =>
               (Returned VNull, st) in
  processUserInput literal_eval run (u "Hello! How can I help?")
    (u "hello there") tt
  = (AIResponse,
     fst (dispatch run
            (parseToolCall literal_eval (u "Hello! How can I help?")) tt),
     snd (dispatch run
            (parseToolCall literal_eval (u "Hello! How can I help?")) tt))
  /\ (includes (u "Hello! How can I help?") (u "(") = false ->
      processUserInput literal_eval run (u "Hello! How can I help?")
        (u "hello there") tt
      = (AIResponse, [], tt)).
Proof.
  apply (model_reply_is_the_last_resort literal_eval unit
           (fun _ _ st => (Returned VNull, st))
           (u "Hello! How can I help?") (u "hello there") tt).
  - vm_compute. reflexivity.
  - vm_compute. reflexivity.
Defined.

(** ** From the request to the store *)

Section WiringProperties.

Variable js_eval : jsstring -> evalOutcome.
Variable clock : nat -> N.
Variable other : toolFunc -> list value -> world -> outcome * world.

Lemma integer_argument_id (n : N) :
  (Z.of_N n <= 2147483647)%Z ->
  integer_argument (Some (integer_id (Z.of_N n))) = Some (Z.of_N n).
Proof.
  intros H. unfold integer_argument, integer_id, inject_Z. cbn [Qden Qnum].
  replace (- 2147483648 <=? Z.of_N n)%Z with true
    by (symmetry; apply Z.leb_le; lia).
  replace (Z.of_N n <=? 2147483647)%Z with true
    by (symmetry; apply Z.leb_le; lia).
  reflexivity.
Qed.



End WiringProperties.


(** ** The stage that serves a request *)

Lemma listed_call_shape (J : jsstring) :
  u "deleteTodosByIds([" ++ J ++ u "])"
  = u "deleteTodosByIds" ++ u "(" ++ (u "[" ++ J ++ u "]") ++ u ")".
Proof. cbn [u app]. rewrite <- app_assoc. reflexivity. Qed.

(** A synthesized call is the name of a registered tool and a text
    between parentheses. *)
Lemma synthesized_call_shape (a : analysis) (s : jsstring) :
  generateFunctionCall a = Some s ->
  primaryIntent a <> None
  /\ exists name d X,
       own_property name AVAILABLE_TOOLS = Some d
       /\ s = name ++ u "(" ++ X ++ u ")".
Proof.
  unfold generateFunctionCall.
  destruct (negb (Qle_bool (3 # 10) (confidence a))); [discriminate |].
  destruct (primaryIntent a) as [[] |]; [| | | | | | | | | discriminate];
    intros H; (split; [discriminate |]).
  - destruct (negb (str_eqb (priorities (ents a)) (u "medium")));
      [| destruct (truthy (categories (ents a)))]; injection H as <-.
    + exists (u "getTodosByPriority"). eexists.
      exists (quoted (priorities (ents a))). split; reflexivity.
    + exists (u "getTodosByCategory"). eexists.
      exists (quoted (show_opt (categories (ents a)))). split; reflexivity.
    + exists (u "getAllTodos"). eexists. exists []. split; reflexivity.
  - injection H as <-. exists (u "createTodo"). eexists.
    match goal with
    | |- context [join ?sep ?l] => exists (join sep l)
    end.
    split; reflexivity.
  - destruct (numbers (ents a)) as [| n [| n' ns]]; [discriminate | |];
      injection H as <-.
    + exists (u "deleteTodoById"). eexists. exists (Number_toString n).
      split; reflexivity.
    + exists (u "deleteTodosByIds"). eexists.
      exists (u "[" ++ join (u ", ") (map Number_toString (n :: n' :: ns))
              ++ u "]").
      split; [reflexivity |].
      exact (listed_call_shape
               (join (u ", ") (map Number_toString (n :: n' :: ns)))).
  - destruct (numbers (ents a)) as [| n ns]; [discriminate |].
    injection H as <-.
    exists (u "markTodoCompleted"). eexists. exists (Number_toString n).
    split; reflexivity.
  - destruct (numbers (ents a)) as [| n ns]; [discriminate |].
    injection H as <-.
    exists (u "markTodoIncomplete"). eexists. exists (Number_toString n).
    split; reflexivity.
  - destruct (numbers (ents a)) as [| n ns]; [discriminate |].
    injection H as <-.
    exists (u "updateTodo"). eexists.
    match goal with
    | |- context [join ?sep ?l] => exists (join sep l)
    end.
    split; reflexivity.
  - destruct (truthy (searchTerms (ents a))); [| discriminate].
    injection H as <-.
    exists (u "searchTodos"). eexists.
    exists (quoted (show_opt (searchTerms (ents a)))). split; reflexivity.
  - injection H as <-. exists (u "getTodoStats"). eexists. exists [].
    split; reflexivity.
  - injection H as <-. exists (u "clearCompleted"). eexists. exists [].
    split; reflexivity.
Qed.

Section Routing.

Variable js_eval : jsstring -> evalOutcome.
Variable store : Type.
Variable run : toolFunc -> list value -> store -> outcome * store.


End Routing.

(** ** The query of a view request *)

(** What the group of a pattern that ends in [(c+)], for a class [c],
    holds after a match. *)
Lemma final_group_capture (ci neg : bool) (items : list citem)
    (text pre : jsstring) (stg fin : mstate) (i : nat) :
  text = pre ++ rest stg -> pos stg = List.length pre ->
  rmatch ci (Group 1 (plus (CSet neg items))) (fun st => Some st) stg
  = Some fin ->
  exists w,
    capture text (Match i fin) 1 = Some w /\ w <> []
    /\ forallb (fun c => xorb neg (in_class ci items c)) w = true.
Proof.
  intros Ht Hp H. rewrite rmatch_group in H.
  apply plus_class_reads in H as (w & st' & [R P] & Hne & Hw & Hk).
  injection Hk as <-. exists w.
  unfold capture. cbn [m_final caps set_cap lookup_cap Nat.eqb].
  rewrite (substring_at text pre w (rest st') (pos stg) (pos st')).
  - repeat split; assumption.
  - rewrite Ht, R. reflexivity.
  - exact Hp.
  - exact P.
Qed.

Lemma word_class_units (ci : bool) (w : jsstring) :
  forallb (fun c => xorb false (in_class ci [CWord] c)) w = true ->
  forallb is_word w = true.
Proof.
  intros H. rewrite <- H. clear. induction w as [| c w IH]; [reflexivity |].
  cbn [forallb]. rewrite IH. f_equal.
  unfold in_class. cbn [existsb item_matches xorb]. now rewrite orb_false_r.
Qed.

Lemma first_keyword_name (text name : jsstring)
    (table : list (jsstring * list jsstring)) :
  first_keyword text table = Some name -> In name (map fst table).
Proof.
  induction table as [| [n ks] tl IH]; [discriminate |].
  cbn [first_keyword map fst].
  destruct (existsb _ ks); [intros [= <-]; left; reflexivity |].
  intros H. right. exact (IH H).
Qed.

(** A category that [extractCategory] finds is a non-empty run of word
    characters. *)
Lemma extractCategory_word (text c : jsstring) :
  extractCategory text = Some c -> c <> [] /\ forallb is_word c = true.
Proof.
  unfold extractCategory.
  destruct (exec direct_category_re text) as [m |] eqn:Ed.
  { intros Hc. unfold exec in Ed.
    apply search_from_found in Ed as (pre & s' & pv' & Ht & Hi & Hm).
    unfold match_at in Hm. cbn [p_ci p_re direct_category_re re_i] in Hm.
    match type of Hm with
    | rmatch _ (cat [?a; ?b; ?g]) _ _ = _ =>
        change (cat [a; b; g]) with (Seq a (Seq b g)) in Hm
    end.
    rewrite rmatch_seq in Hm.
    apply rmatch_reads in Hm as (w1 & st1 & [R1 P1] & _ & Hm).
    rewrite rmatch_seq in Hm.
    apply rmatch_reads in Hm as (w2 & st2 & [R2 P2] & _ & Hm).
    cbn [rest pos] in R1, P1.
    destruct (final_group_capture true false [CWord] text
                (pre ++ w1 ++ w2) st2 (m_final m) (m_index m))
      as (w & Hw & Hne & Hcls); [| | exact Hm |].
    - rewrite Ht, R1, R2, <- !app_assoc. reflexivity.
    - rewrite !length_app. lia.
    - destruct m as [mi mf]. cbn [m_index m_final] in *.
      rewrite Hw in Hc. injection Hc as <-.
      split; [exact Hne | exact (word_class_units _ _ Hcls)]. }
  destruct (exec hashtag_re text) as [m |] eqn:Eh.
  { intros Hc. unfold exec in Eh.
    apply search_from_found in Eh as (pre & s' & pv' & Ht & Hi & Hm).
    unfold match_at in Hm. cbn [p_ci p_re hashtag_re re] in Hm.
    match type of Hm with
    | rmatch _ (cat [?a; ?g]) _ _ = _ =>
        change (cat [a; g]) with (Seq a g) in Hm
    end.
    rewrite rmatch_seq in Hm.
    apply rmatch_reads in Hm as (w1 & st1 & [R1 P1] & _ & Hm).
    cbn [rest pos] in R1, P1.
    destruct (final_group_capture false false [CWord] text
                (pre ++ w1) st1 (m_final m) (m_index m))
      as (w & Hw & Hne & Hcls); [| | exact Hm |].
    - rewrite Ht, R1, <- !app_assoc. reflexivity.
    - rewrite !length_app. lia.
    - destruct m as [mi mf]. cbn [m_index m_final] in *.
      rewrite Hw in Hc. injection Hc as <-.
      split; [exact Hne | exact (word_class_units _ _ Hcls)]. }
  intros Hk. apply first_keyword_name in Hk.
  assert (Hall : forallb (fun n => match n with
                                   | [] => false
                                   | _ :: _ => forallb is_word n
                                   end) (map fst category_keywords) = true)
    by reflexivity.
  rewrite forallb_forall in Hall. specialize (Hall c Hk).
  destruct c as [| x c]; [discriminate |]. split; [discriminate | exact Hall].
Qed.

Lemma word_plain (c : jsstring) :
  forallb is_word c = true -> plain_text c = true.
Proof.
  unfold plain_text. induction c as [| x c IH]; [reflexivity |].
  cbn [forallb]. intros H. andb_hyp H as [Hx Hc]. rewrite (IH Hc).
  rewrite andb_true_r. apply negb_true_iff.
  destruct (is_delimiter x) eqn:E; [exfalso | reflexivity].
  unfold is_delimiter in E.
  assert (Hd : x = 44%N \/ x = 41%N \/ x = 91%N \/ x = 123%N).
  { repeat (apply orb_prop in E as [E | E]); apply N.eqb_eq in E; tauto. }
  destruct Hd as [-> | [-> | [-> | ->]]]; discriminate Hx.
Qed.

Lemma parse_quoted_call (js_eval : jsstring -> evalOutcome) (name : jsstring)
    (d : toolDescriptor) (t : jsstring) :
  own_property name AVAILABLE_TOOLS = Some d ->
  plain_text t = true ->
  parseToolCall js_eval (name ++ u "(" ++ quoted t ++ u ")")
  = [Call name [VStr t] (Registered d)].
Proof.
  intros Hd Ht.
  exact (parse_rendered_call js_eval name d [AString DQ t] [VStr t] Hd
           ltac:(cbn [forallb];
                 change (well_formed (AString DQ t)) with (plain_text t);
                 rewrite Ht; reflexivity)
           eq_refl).
Qed.

Section ViewRequests.

Variable js_eval : jsstring -> evalOutcome.
Variable store : Type.
Variable run : toolFunc -> list value -> store -> outcome * store.


End ViewRequests.

